(** * SkSLCPPCodeGenerator: a shallow embedding of the fragment-processor
      back end of the SkSL compiler (src/sksl/SkSLCPPCodeGenerator.cpp).

    The generator is a C++ object whose methods append text to an output
    stream and update a handful of fields.  It is embedded as a record of
    those fields and a state monad over it; [ABORT] ends a run with the state
    it had reached.  Strings are [string], the 32/64-bit integers of the
    source are [Z] with the narrowing written out where the source narrows. *)

From Stdlib Require Import ZArith List Bool Lia.
From Stdlib Require Import Strings.Ascii Strings.String.
From Stdlib Require Import Numbers.DecimalString Numbers.DecimalZ.
Import ListNotations.

#[local] Set Warnings "-register-all".
#[local] Unset Elimination Schemes.

Local Open Scope string_scope.
Local Open Scope Z_scope.
Local Open Scope list_scope.

Notation "a +++ b" := (String.append a b) (at level 60, right associativity).

(** ** Strings *)

(** [to_string] of the source (std::to_string on an integer): the decimal
    digits, with a leading minus sign for a negative number. *)
Definition to_string (z : Z) : string := NilEmpty.string_of_int (Z.to_int z).

(** The narrowing cast [(int32_t) v] of a 64-bit value. *)
Definition to_int32 (v : Z) : Z := (v + 2 ^ 31) mod 2 ^ 32 - 2 ^ 31.

Definition percent : ascii := "%"%char.

(** ** The AST the generator reads *)

Module Type_.
Inductive Kind :=
| kScalar_Kind | kVector_Kind | kMatrix_Kind | kSampler_Kind
| kArray_Kind | kStruct_Kind | kOther_Kind.

Inductive NumberKind :=
| kFloat_NumberKind | kSigned_NumberKind | kUnsigned_NumberKind
| kNonnumeric_NumberKind.

Record t := mk {
  fName : string;
  fTypeKind : Kind;
  fNumberKind : NumberKind
}.

Definition name (ty : t) : string := fName ty.
Definition kind (ty : t) : Kind := fTypeKind ty.

(** Modelled from the spec: Type::isFloat and Type::operator== are declared
    in SkSLType.h, which is absent.  A type is a floating scalar when its
    number kind is the floating one; two types are the same type when they
    carry the same name (the source itself compares [fType.fName] with a
    name in [needs_uniform_var] and [default_value]). *)
Definition isFloat (ty : t) : bool :=
  match fNumberKind ty with kFloat_NumberKind => true | _ => false end.

Definition eqb (a b : t) : bool := String.eqb (fName a) (fName b).

Definition Kind_eqb (a b : Kind) : bool :=
  match a, b with
  | kScalar_Kind, kScalar_Kind | kVector_Kind, kVector_Kind
  | kMatrix_Kind, kMatrix_Kind | kSampler_Kind, kSampler_Kind
  | kArray_Kind, kArray_Kind | kStruct_Kind, kStruct_Kind
  | kOther_Kind, kOther_Kind => true
  | _, _ => false
  end.
End Type_.

(** Modelled from the spec: the well-known type singletons of SkSLContext.h
    (absent), the closed set the generator dispatches on. *)
Module Context.
Import Type_.
Definition fFloat_Type := mk "float" kScalar_Kind kFloat_NumberKind.
Definition fHalf_Type := mk "half" kScalar_Kind kFloat_NumberKind.
Definition fInt_Type := mk "int" kScalar_Kind kSigned_NumberKind.
Definition fBool_Type := mk "bool" kScalar_Kind kNonnumeric_NumberKind.
Definition fFloat2_Type := mk "float2" kVector_Kind kNonnumeric_NumberKind.
Definition fHalf2_Type := mk "half2" kVector_Kind kNonnumeric_NumberKind.
Definition fFloat4_Type := mk "float4" kVector_Kind kNonnumeric_NumberKind.
Definition fHalf4_Type := mk "half4" kVector_Kind kNonnumeric_NumberKind.
Definition fInt2_Type := mk "int2" kVector_Kind kNonnumeric_NumberKind.
Definition fFloat4x4_Type := mk "float4x4" kMatrix_Kind kNonnumeric_NumberKind.
Definition fHalf4x4_Type := mk "half4x4" kMatrix_Kind kNonnumeric_NumberKind.
Definition fColorSpaceXform_Type :=
  mk "colorSpaceXform" kMatrix_Kind kNonnumeric_NumberKind.
Definition fSampler2D_Type := mk "sampler2D" kSampler_Kind kNonnumeric_NumberKind.
End Context.

Module Layout.
Inductive Key := kNo_Key | kKey_Key | kIdentity_Key.

Record t := mk {
  fBuiltin : Z;
  fKey : Key;
  fWhen : string
}.
End Layout.

(** Modelled from the spec: the modifier bits of SkSLModifiers.h and the
    builtin identifiers of SkSLCompiler.h (both absent).  Only the facts that
    the flags are distinct single bits and the identifiers distinct and not
    -1 are used. *)
Module Modifiers.
Definition kIn_Flag : Z := 2.
Definition kOut_Flag : Z := 4.
Definition kLowp_Flag : Z := 8.
Definition kMediump_Flag : Z := 16.
Definition kHighp_Flag : Z := 32.
Definition kUniform_Flag : Z := 64.

Record t := mk {
  fFlags : Z;
  fLayout : Layout.t
}.

(** [flags & flag] used as a C++ condition. *)
Definition has (flags flag : Z) : bool := negb (Z.land flags flag =? 0).
End Modifiers.

Definition SK_INCOLOR_BUILTIN : Z := 10003.
Definition SK_OUTCOLOR_BUILTIN : Z := 10004.
Definition SK_TRANSFORMEDCOORDS2D_BUILTIN : Z := 10005.
Definition SK_TEXTURESAMPLERS_BUILTIN : Z := 10006.

Module Variable_.
Inductive Storage :=
| kGlobal_Storage | kLocal_Storage | kParameter_Storage.

(** [fAddr] stands for the address of the Variable object: the source
    compares variables by pointer ([&var == param]). *)
Record t := mk {
  fAddr : N;
  fOffset : Z;
  fName : string;
  fType : Type_.t;
  fModifiers : Modifiers.t;
  fStorage : Storage
}.

Definition flags (v : t) : Z := Modifiers.fFlags (fModifiers v).
Definition layout (v : t) : Layout.t := Modifiers.fLayout (fModifiers v).
Definition same (a b : t) : bool := N.eqb (fAddr a) (fAddr b).
End Variable_.

Module Token.
Inductive Kind :=
| PLUS | MINUS | STAR | SLASH | PERCENT
| EQEQ | NEQ | LT | GT | LTEQ | GTEQ
| LOGICALAND | LOGICALOR
| EQ | PLUSEQ | MINUSEQ | STAREQ | SLASHEQ | PERCENTEQ.
End Token.

Record FunctionDeclaration := {
  fd_fName : string;
  fd_fBuiltin : bool;
  fd_fReturnType : Type_.t;
  fd_fParameters : list Variable_.t
}.

Inductive Component := CX | CY | CZ | CW.

Inductive Expression :=
| BoolLiteral (fOffset : Z) (fValue : bool)
| IntLiteral (fOffset : Z) (fValue : Z)
| VariableReference (fOffset : Z) (fVariable : Variable_.t)
| BinaryExpression (fOffset : Z) (fLeft : Expression) (fOperator : Token.Kind)
                   (fRight : Expression)
| IndexExpression (fOffset : Z) (fBase fIndex : Expression)
| FunctionCall (fOffset : Z) (fFunction : FunctionDeclaration)
               (fArguments : list Expression)
| Constructor (fOffset : Z) (fType : Type_.t) (fArguments : list Expression)
| Swizzle (fOffset : Z) (fBase : Expression) (fComponents : list Component)
| TernaryExpression (fOffset : Z) (fTest fIfTrue fIfFalse : Expression)
| Setting (fOffset : Z) (fName : string) (fType : Type_.t).

Definition expr_offset (e : Expression) : Z :=
  match e with
  | BoolLiteral o _ | IntLiteral o _ | VariableReference o _
  | BinaryExpression o _ _ _ | IndexExpression o _ _ | FunctionCall o _ _
  | Constructor o _ _ | Swizzle o _ _ | TernaryExpression o _ _ _
  | Setting o _ _ => o
  end.

Record VarDeclaration := {
  vd_fVar : Variable_.t;
  vd_fValue : option Expression
}.

Record VarDeclarations := {
  fBaseType : Type_.t;
  fVars : list VarDeclaration
}.

Inductive Statement :=
| Block (fStatements : list Statement)
| ExpressionStatement (fExpression : Expression)
| ReturnStatement (fExpression : option Expression)
| IfStatement (fIsStatic : bool) (fTest : Expression) (fIfTrue : Statement)
              (fIfFalse : option Statement)
| SwitchStatement (fIsStatic : bool) (fValue : Expression)
                  (fCases : list SwitchCase)
| VarDeclarationsStatement (fDeclaration : VarDeclarations)
| BreakStatement
| ContinueStatement
| DiscardStatement
with SwitchCase :=
| Case (fValue : option Expression) (fStatements : list Statement).

Record Section := {
  sec_fName : string;
  sec_fArgument : string;
  sec_fText : string
}.

Inductive ProgramElement :=
| VarElement (decls : VarDeclarations)          (* kVar_Kind *)
| FunctionDefinition (fDeclaration : FunctionDeclaration)
                     (fBody : list Statement)   (* kFunction_Kind *)
| SectionElement (s : Section).                 (* kSection_Kind *)

Record Program := { fElements : list ProgramElement }.

(** ** The generator object *)

(** Modelled from the spec: SectionAndParameterHelper (SkSLSectionAndParameterHelper.h,
    absent) is the registry of the program's sections and of its parameters:
    a first-match and an all-matches lookup by section name, and the
    parameters (the [in] declarations that are no builtin) in declaration
    order. *)
Module SectionAndParameterHelper.
Record t := mk {
  fParameters : list Variable_.t;
  fSections : list Section
}.

Definition IsParameter (var : Variable_.t) : bool :=
  Modifiers.has (Variable_.flags var) Modifiers.kIn_Flag &&
  (-1 =? Layout.fBuiltin (Variable_.layout var)).

Definition getParameters (h : t) : list Variable_.t := fParameters h.

Definition getSections (h : t) (name : string) : list Section :=
  filter (fun s => String.eqb (sec_fName s) name) (fSections h).

Definition getSection (h : t) (name : string) : option Section :=
  match getSections h name with
  | s :: _ => Some s
  | [] => None
  end.

Definition of_program (p : Program) : t :=
  {| fParameters :=
       flat_map (fun e =>
         match e with
         | VarElement decls =>
             filter IsParameter (map vd_fVar (fVars decls))
         | _ => []
         end) (fElements p);
     fSections :=
       flat_map (fun e =>
         match e with SectionElement s => [s] | _ => [] end) (fElements p) |}.
End SectionAndParameterHelper.

Definition CLONE_SECTION := "clone"%string.
Definition COORD_TRANSFORM_SECTION := "coordTransform"%string.
Definition CPP_SECTION := "cpp"%string.
Definition CPP_END_SECTION := "cppEnd"%string.
Definition EMIT_CODE_SECTION := "emitCode"%string.
Definition FIELDS_SECTION := "fields"%string.
Definition SET_DATA_SECTION := "setData"%string.
Definition TEST_CODE_SECTION := "test"%string.

(** The fields of CPPCodeGenerator and of the generator it inherits from.
    [fOut] is the text written to the current output stream; [fErrors] is the
    ErrorReporter, the list of the (offset, message) pairs reported so far. *)
Record CPPCodeGenerator := mkGen {
  fProgram : Program;
  fName : string;
  fFullName : string;
  fLineEnding : string;
  fSectionAndParameterHelper : SectionAndParameterHelper.t;
  fOut : string;
  fErrors : list (Z * string);
  fFunctionHeader : string;
  fExtraEmitCodeCode : string;
  fFormatArgs : list string;
  fWrittenTransformedCoords : list Z;
  fNeedColorSpaceHelper : bool;
  fVarCount : Z
}.

Definition set_fOut (v : string) (g : CPPCodeGenerator) :=
  mkGen (fProgram g) (fName g) (fFullName g) (fLineEnding g)
        (fSectionAndParameterHelper g) v (fErrors g) (fFunctionHeader g)
        (fExtraEmitCodeCode g) (fFormatArgs g) (fWrittenTransformedCoords g)
        (fNeedColorSpaceHelper g) (fVarCount g).
Definition set_fErrors (v : list (Z * string)) (g : CPPCodeGenerator) :=
  mkGen (fProgram g) (fName g) (fFullName g) (fLineEnding g)
        (fSectionAndParameterHelper g) (fOut g) v (fFunctionHeader g)
        (fExtraEmitCodeCode g) (fFormatArgs g) (fWrittenTransformedCoords g)
        (fNeedColorSpaceHelper g) (fVarCount g).
Definition set_fFunctionHeader (v : string) (g : CPPCodeGenerator) :=
  mkGen (fProgram g) (fName g) (fFullName g) (fLineEnding g)
        (fSectionAndParameterHelper g) (fOut g) (fErrors g) v
        (fExtraEmitCodeCode g) (fFormatArgs g) (fWrittenTransformedCoords g)
        (fNeedColorSpaceHelper g) (fVarCount g).
Definition set_fExtraEmitCodeCode (v : string) (g : CPPCodeGenerator) :=
  mkGen (fProgram g) (fName g) (fFullName g) (fLineEnding g)
        (fSectionAndParameterHelper g) (fOut g) (fErrors g) (fFunctionHeader g)
        v (fFormatArgs g) (fWrittenTransformedCoords g)
        (fNeedColorSpaceHelper g) (fVarCount g).
Definition set_fFormatArgs (v : list string) (g : CPPCodeGenerator) :=
  mkGen (fProgram g) (fName g) (fFullName g) (fLineEnding g)
        (fSectionAndParameterHelper g) (fOut g) (fErrors g) (fFunctionHeader g)
        (fExtraEmitCodeCode g) v (fWrittenTransformedCoords g)
        (fNeedColorSpaceHelper g) (fVarCount g).
Definition set_fWrittenTransformedCoords (v : list Z) (g : CPPCodeGenerator) :=
  mkGen (fProgram g) (fName g) (fFullName g) (fLineEnding g)
        (fSectionAndParameterHelper g) (fOut g) (fErrors g) (fFunctionHeader g)
        (fExtraEmitCodeCode g) (fFormatArgs g) v
        (fNeedColorSpaceHelper g) (fVarCount g).
Definition set_fNeedColorSpaceHelper (v : bool) (g : CPPCodeGenerator) :=
  mkGen (fProgram g) (fName g) (fFullName g) (fLineEnding g)
        (fSectionAndParameterHelper g) (fOut g) (fErrors g) (fFunctionHeader g)
        (fExtraEmitCodeCode g) (fFormatArgs g) (fWrittenTransformedCoords g)
        v (fVarCount g).
Definition set_fVarCount (v : Z) (g : CPPCodeGenerator) :=
  mkGen (fProgram g) (fName g) (fFullName g) (fLineEnding g)
        (fSectionAndParameterHelper g) (fOut g) (fErrors g) (fFunctionHeader g)
        (fExtraEmitCodeCode g) (fFormatArgs g) (fWrittenTransformedCoords g)
        (fNeedColorSpaceHelper g) v.

(** The constructor (lines 20-27): the name, the full name "Gr" + name, the
    helper built from the program, the line ending (a backslash and an n: the
    text ends up inside a C string literal); the other fields get the initial
    values of their declarations. *)
Definition new_CPPCodeGenerator (program : Program) (errors : list (Z * string))
           (name : string) (out : string) : CPPCodeGenerator :=
  {| fProgram := program;
     fName := name;
     fFullName := "Gr" +++ name;
     fLineEnding := String "\"%char "n";
     fSectionAndParameterHelper := SectionAndParameterHelper.of_program program;
     fOut := out;
     fErrors := errors;
     fFunctionHeader := "";
     fExtraEmitCodeCode := "";
     fFormatArgs := [];
     fWrittenTransformedCoords := [];
     fNeedColorSpaceHelper := false;
     fVarCount := 0 |}.

(** ** The monad of generator methods *)

Inductive outcome (A : Type) :=
| Ok (a : A) (g : CPPCodeGenerator)
| Aborted (msg : string) (g : CPPCodeGenerator).
Arguments Ok {A} a g.
Arguments Aborted {A} msg g.

Definition Gen (A : Type) : Type := CPPCodeGenerator -> outcome A.

Definition ret {A} (a : A) : Gen A := fun g => Ok a g.

Definition bind {A B} (m : Gen A) (k : A -> Gen B) : Gen B :=
  fun g => match m g with
           | Ok a g' => k a g'
           | Aborted msg g' => Aborted msg g'
           end.

Notation "x <- m ;; k" := (bind m (fun x => k))
  (at level 61, m at next level, right associativity).
Notation "m ;; k" := (bind m (fun _ => k))
  (at level 61, right associativity).

Definition ABORT {A} (msg : string) : Gen A := fun g => Aborted msg g.

(** ASSERT of the source, as in a debug build: a false condition ends the run. *)
Definition ASSERT (b : bool) : Gen unit :=
  if b then ret tt else ABORT "ASSERT".

Definition gets {A} (f : CPPCodeGenerator -> A) : Gen A := fun g => Ok (f g) g.
Definition modify (f : CPPCodeGenerator -> CPPCodeGenerator) : Gen unit :=
  fun g => Ok tt (f g).

Definition when (b : bool) (m : Gen unit) : Gen unit :=
  if b then m else ret tt.

Definition forM_ {A} (f : A -> Gen unit) : list A -> Gen unit :=
  fix go (l : list A) : Gen unit :=
    match l with
    | [] => ret tt
    | x :: r => f x ;; go r
    end.

(** Modelled from the spec: write of the inherited printer (absent) appends its
    text to the current output target; the indentation it keeps is left out. *)
Definition write (s : string) : Gen unit :=
  modify (fun g => set_fOut (fOut g +++ s) g).

(** [writef] with its arguments already substituted. *)
Definition writef (s : string) : Gen unit := write s.

(** Modelled from the spec: writeLine of the inherited printer (absent)
    writes its text and the line ending. *)
Definition writeLine (s : string) : Gen unit :=
  write s ;; le <- gets fLineEnding ;; write le.

(** [fErrors.error(offset, msg)] *)
Definition error (offset : Z) (msg : string) : Gen unit :=
  modify (fun g => set_fErrors (fErrors g ++ [(offset, msg)]) g).

Definition push_back_fFormatArgs (s : string) : Gen unit :=
  modify (fun g => set_fFormatArgs (fFormatArgs g ++ [s]) g).

(** The loop of the inherited printer over call arguments, with its
    separator. *)
Definition forSep {A} (f : A -> Gen unit) : string -> list A -> Gen unit :=
  fix go (separator : string) (l : list A) : Gen unit :=
    match l with
    | [] => ret tt
    | x :: r => write separator ;; f x ;; go ", "%string r
    end.

(** ** Text constants and the collaborators of HCodeGenerator *)

(** The double quote and the newline of the C string literals of the source. *)
Definition dq : string := String "034"%char "".
Definition nl : string := String "010"%char "".

(** Modelled from the spec: HCodeGenerator::FieldName and ::FieldType
    (SkSLHCodeGenerator.h, absent) derive the host identifier of a declaration
    (an f and the name with its first letter in upper case) and the host type
    name of its type; kFragmentProcessorHeader is the file-header template
    instantiated with the class name. *)
Module HCodeGenerator.
Definition toupper (c : ascii) : ascii :=
  let n := nat_of_ascii c in
  if ((97 <=? n) && (n <=? 122))%nat then ascii_of_nat (n - 32) else c.

Definition FieldName (varName : string) : string :=
  match varName with
  | EmptyString => "f"
  | String c r => String "f"%char (String (toupper c) r)
  end.

Definition FieldType (type : Type_.t) : string :=
  if Type_.Kind_eqb (Type_.kind type) Type_.kSampler_Kind
  then "sk_sp<GrTextureProxy>"
  else if Type_.eqb type Context.fColorSpaceXform_Type
  then "sk_sp<GrColorSpaceXform>"
  else if Type_.eqb type Context.fFloat2_Type || Type_.eqb type Context.fHalf2_Type
  then "SkPoint"
  else if Type_.eqb type Context.fFloat4_Type || Type_.eqb type Context.fHalf4_Type
  then "SkRect"
  else if Type_.eqb type Context.fFloat4x4_Type
          || Type_.eqb type Context.fHalf4x4_Type
  then "SkMatrix44"
  else Type_.name type.
End HCodeGenerator.

Definition kFragmentProcessorHeader (fullName : string) : string :=
  "/*" +++ nl +++
  " * This file was autogenerated from " +++ fullName +++ ".fp; do not modify." +++ nl +++
  " */" +++ nl.

(** Modelled from the spec: the precedence levels, the precedence of a binary
    operator and the operator names of the generic printer (SkSLGLSLCodeGenerator
    and SkSLCompiler, absent).  A larger number binds less tightly. *)
Module Precedence.
Definition kPostfix : Z := 2.
Definition kMultiplicative : Z := 4.
Definition kAdditive : Z := 5.
Definition kRelational : Z := 7.
Definition kEquality : Z := 8.
Definition kLogicalAnd : Z := 12.
Definition kLogicalOr : Z := 14.
Definition kTernary : Z := 15.
Definition kAssignment : Z := 16.
Definition kSequence : Z := 17.
Definition kTopLevel : Z := 18.
End Precedence.

Definition GetBinaryPrecedence (op : Token.Kind) : Z :=
  match op with
  | Token.STAR | Token.SLASH | Token.PERCENT => Precedence.kMultiplicative
  | Token.PLUS | Token.MINUS => Precedence.kAdditive
  | Token.LT | Token.GT | Token.LTEQ | Token.GTEQ => Precedence.kRelational
  | Token.EQEQ | Token.NEQ => Precedence.kEquality
  | Token.LOGICALAND => Precedence.kLogicalAnd
  | Token.LOGICALOR => Precedence.kLogicalOr
  | Token.EQ | Token.PLUSEQ | Token.MINUSEQ | Token.STAREQ | Token.SLASHEQ
  | Token.PERCENTEQ => Precedence.kAssignment
  end.

Definition OperatorName (op : Token.Kind) : string :=
  match op with
  | Token.PLUS => "+" | Token.MINUS => "-" | Token.STAR => "*"
  | Token.SLASH => "/" | Token.PERCENT => "%"
  | Token.EQEQ => "==" | Token.NEQ => "!=" | Token.LT => "<" | Token.GT => ">"
  | Token.LTEQ => "<=" | Token.GTEQ => ">="
  | Token.LOGICALAND => "&&" | Token.LOGICALOR => "||"
  | Token.EQ => "=" | Token.PLUSEQ => "+=" | Token.MINUSEQ => "-="
  | Token.STAREQ => "*=" | Token.SLASHEQ => "/=" | Token.PERCENTEQ => "%="
  end.

Definition Token_is_PERCENT (op : Token.Kind) : bool :=
  match op with Token.PERCENT => true | _ => false end.

Definition component_name (c : Component) : string :=
  match c with CX => "x" | CY => "y" | CZ => "z" | CW => "w" end.

(** ** Static helpers of the source *)

(** needs_uniform_var, lines 15-18 *)
Definition needs_uniform_var (var : Variable_.t) : bool :=
  Modifiers.has (Variable_.flags var) Modifiers.kUniform_Flag &&
  negb (String.eqb (Type_.fName (Variable_.fType var)) "colorSpaceXform").

(** default_value, lines 118-128 *)
Definition default_value (type : Type_.t) : Gen string :=
  if String.eqb (Type_.fName type) "colorSpaceXform" then ret "float4x4(1.0)"%string
  else match Type_.kind type with
       | Type_.kScalar_Kind => ret "0"%string
       | Type_.kVector_Kind => ret (Type_.name type +++ "(0)")
       | Type_.kMatrix_Kind => ret (Type_.name type +++ "(1)")
       | _ => ABORT ("unsupported default_value type" +++ nl)
       end.

(** is_private, lines 130-135 *)
Definition is_private (var : Variable_.t) : bool :=
  negb (Modifiers.has (Variable_.flags var) Modifiers.kUniform_Flag) &&
  negb (Modifiers.has (Variable_.flags var) Modifiers.kIn_Flag) &&
  match Variable_.fStorage var with
  | Variable_.kGlobal_Storage => true
  | _ => false
  end &&
  (Layout.fBuiltin (Variable_.layout var) =? -1).

(** ** Methods that do not recurse into the AST *)

(** writeRuntimeValue, lines 137-156 *)
Definition writeRuntimeValue (type : Type_.t) (cppCode : string) : Gen unit :=
  if Type_.isFloat type then
    write "%f" ;;
    push_back_fFormatArgs cppCode
  else if Type_.eqb type Context.fInt_Type then
    write "%d" ;;
    push_back_fFormatArgs cppCode
  else if Type_.eqb type Context.fBool_Type then
    write "%s" ;;
    push_back_fFormatArgs
      ("(" +++ cppCode +++ " ? " +++ dq +++ "true" +++ dq +++ " : " +++
       dq +++ "false" +++ dq +++ ")")
  else if Type_.eqb type Context.fFloat2_Type || Type_.eqb type Context.fHalf2_Type then
    write (Type_.name type +++ "(%f, %f)") ;;
    push_back_fFormatArgs (cppCode +++ ".fX") ;;
    push_back_fFormatArgs (cppCode +++ ".fY")
  else
    write (Type_.name type) ;;
    write nl ;;
    ABORT ("unsupported runtime value type" +++ nl).

(** getSamplerHandle, lines 166-177: the loop over the parameters, with its
    counter, and the method. *)
Fixpoint getSamplerHandle_loop (var : Variable_.t) (samplerCount : Z)
         (params : list Variable_.t) : Gen string :=
  match params with
  | [] => ABORT ("should have found sampler in parameters" +++ nl)
  | param :: rest =>
      if Variable_.same var param then
        ret ("args.fTexSamplers[" +++ to_string samplerCount +++ "]")
      else
        getSamplerHandle_loop var
          (if Type_.Kind_eqb (Type_.kind (Variable_.fType param)) Type_.kSampler_Kind
           then samplerCount + 1 else samplerCount)
          rest
  end.

Definition getSamplerHandle (var : Variable_.t) : Gen string :=
  params <- gets (fun g =>
              SectionAndParameterHelper.getParameters (fSectionAndParameterHelper g)) ;;
  getSamplerHandle_loop var 0 params.

(** writeIntLiteral, lines 179-181 *)
Definition writeIntLiteral (fValue : Z) : Gen unit :=
  write (to_string (to_int32 fValue)).

(** writeVariableReference, lines 183-232 *)
Definition writeVariableReference (fVariable : Variable_.t) : Gen unit :=
  let builtin := Layout.fBuiltin (Variable_.layout fVariable) in
  if builtin =? SK_INCOLOR_BUILTIN then
    write "%s" ;;
    push_back_fFormatArgs
      ("args.fInputColor ? args.fInputColor : " +++ dq +++ "half4(1)" +++ dq)
  else if builtin =? SK_OUTCOLOR_BUILTIN then
    write "%s" ;;
    push_back_fFormatArgs "args.fOutputColor"
  else if Type_.Kind_eqb (Type_.kind (Variable_.fType fVariable)) Type_.kSampler_Kind then
    write "%s" ;;
    handle <- getSamplerHandle fVariable ;;
    push_back_fFormatArgs
      ("fragBuilder->getProgramBuilder()->samplerVariable(" +++ handle +++ ").c_str()")
  else if Modifiers.has (Variable_.flags fVariable) Modifiers.kUniform_Flag then
    write "%s" ;;
    let name := Variable_.fName fVariable in
    var <- (if Type_.eqb (Variable_.fType fVariable) Context.fColorSpaceXform_Type then
              need <- gets fNeedColorSpaceHelper ;;
              ASSERT need ;;
              d <- default_value (Variable_.fType fVariable) ;;
              ret ("fColorSpaceHelper.isValid() ? " +++
                   "args.fUniformHandler->getUniformCStr(" +++
                   "fColorSpaceHelper.gamutXformUniform()) : " +++ dq +++ d +++ dq)
            else
              ret ("args.fUniformHandler->getUniformCStr(" +++
                   HCodeGenerator.FieldName name +++ "Var)")) ;;
    code <- (if negb (String.eqb (Layout.fWhen (Variable_.layout fVariable)) "") then
               d <- default_value (Variable_.fType fVariable) ;;
               ret (HCodeGenerator.FieldName name +++ "Var.isValid() ? " +++ var +++
                    " : " +++ dq +++ d +++ dq)
             else ret var) ;;
    push_back_fFormatArgs code
  else if SectionAndParameterHelper.IsParameter fVariable then
    writeRuntimeValue (Variable_.fType fVariable)
      ("_outer." +++ Variable_.fName fVariable +++ "()")
  else
    write (Variable_.fName fVariable).

(** writeSetting, lines 294-302 *)
Definition kPrefix : string := "sk_Args.".

Definition writeSetting (fName : string) (fType : Type_.t) : Gen unit :=
  if String.prefix kPrefix fName then
    let name := String.substring (String.length kPrefix)
                  (String.length fName - String.length kPrefix) fName in
    writeRuntimeValue fType (HCodeGenerator.FieldName name)
  else
    write fName.

(** ** The expression printer *)

Section ExpressionPrinter.
(** The virtual [writeExpression] the methods call back into. *)
Variable writeExpression : Expression -> Z -> Gen unit.

(** Modelled from the spec: the generic forms of the inherited printer
    (SkSLGLSLCodeGenerator.cpp, absent) for a binary expression, an index
    expression, a call, a constructor, a swizzle and a ternary: the
    operands printed through [writeExpression], with the operator or the
    punctuation between them. *)
Definition INHERITED_writeBinaryExpression (fLeft : Expression)
           (fOperator : Token.Kind) (fRight : Expression)
           (parentPrecedence : Z) : Gen unit :=
  let precedence := GetBinaryPrecedence fOperator in
  when (precedence >=? parentPrecedence) (write "(") ;;
  writeExpression fLeft precedence ;;
  write " " ;;
  write (OperatorName fOperator) ;;
  write " " ;;
  writeExpression fRight precedence ;;
  when (precedence >=? parentPrecedence) (write ")").

Definition INHERITED_writeIndexExpression (fBase fIndex : Expression) : Gen unit :=
  writeExpression fBase Precedence.kPostfix ;;
  write "[" ;;
  writeExpression fIndex Precedence.kTopLevel ;;
  write "]".

Definition INHERITED_writeFunctionCall (fFunction : FunctionDeclaration)
           (fArguments : list Expression) : Gen unit :=
  write (fd_fName fFunction) ;;
  write "(" ;;
  forSep (fun arg => writeExpression arg Precedence.kSequence) "" fArguments ;;
  write ")".

Definition writeConstructor (fType : Type_.t) (fArguments : list Expression)
  : Gen unit :=
  write (Type_.name fType) ;;
  write "(" ;;
  forSep (fun arg => writeExpression arg Precedence.kSequence) "" fArguments ;;
  write ")".

Definition writeSwizzle (fBase : Expression) (fComponents : list Component)
  : Gen unit :=
  writeExpression fBase Precedence.kPostfix ;;
  write "." ;;
  forM_ (fun c => write (component_name c)) fComponents.

Definition writeTernaryExpression (fTest fIfTrue fIfFalse : Expression)
           (parentPrecedence : Z) : Gen unit :=
  when (Precedence.kTernary >=? parentPrecedence) (write "(") ;;
  writeExpression fTest Precedence.kTernary ;;
  write " ? " ;;
  writeExpression fIfTrue Precedence.kTernary ;;
  write " : " ;;
  writeExpression fIfFalse Precedence.kTernary ;;
  when (Precedence.kTernary >=? parentPrecedence) (write ")").

(** writeBinaryExpression, lines 62-79 *)
Definition writeBinaryExpression (fLeft : Expression) (fOperator : Token.Kind)
           (fRight : Expression) (parentPrecedence : Z) : Gen unit :=
  if Token_is_PERCENT fOperator then
    let precedence := GetBinaryPrecedence fOperator in
    when (precedence >=? parentPrecedence) (write "(") ;;
    writeExpression fLeft precedence ;;
    write " %% " ;;
    writeExpression fRight precedence ;;
    when (precedence >=? parentPrecedence) (write ")")
  else
    INHERITED_writeBinaryExpression fLeft fOperator fRight parentPrecedence.

(** writeIndexExpression, lines 81-116 *)
Definition writeIndexExpression (fBase fIndex : Expression) : Gen unit :=
  match fBase with
  | VariableReference _ fVariable =>
      let builtin := Layout.fBuiltin (Variable_.layout fVariable) in
      if SK_TRANSFORMEDCOORDS2D_BUILTIN =? builtin then
        write "%s" ;;
        match fIndex with
        | IntLiteral _ index =>
            let name := "sk_TransformedCoords2D_" +++ to_string index in
            push_back_fFormatArgs (name +++ ".c_str()") ;;
            written <- gets fWrittenTransformedCoords ;;
            when (negb (existsb (Z.eqb index) written))
              (modify (fun g => set_fExtraEmitCodeCode
                         (fExtraEmitCodeCode g +++
                          ("        SkString " +++ name +++
                           " = fragBuilder->ensureCoords2D(args.fTransformedCoords[" +++
                           to_string index +++ "]);" +++ nl)) g) ;;
               modify (fun g => set_fWrittenTransformedCoords
                         (fWrittenTransformedCoords g ++ [index]) g))
        | _ =>
            error (expr_offset fIndex)
                  "index into sk_TransformedCoords2D must be an integer literal"
        end
      else if SK_TEXTURESAMPLERS_BUILTIN =? builtin then
        write "%s" ;;
        match fIndex with
        | IntLiteral _ index =>
            push_back_fFormatArgs
              ("        fragBuilder->getProgramBuilder()->samplerVariable(" +++
               "args.fTexSamplers[" +++ to_string index +++ "]).c_str()")
        | _ =>
            error (expr_offset fIndex)
                  "index into sk_TextureSamplers must be an integer literal"
        end
      else INHERITED_writeIndexExpression fBase fIndex
  | _ => INHERITED_writeIndexExpression fBase fIndex
  end.

(** writeFunctionCall, lines 248-273 *)
Definition writeFunctionCall (fFunction : FunctionDeclaration)
           (fArguments : list Expression) : Gen unit :=
  if fd_fBuiltin fFunction && String.eqb (fd_fName fFunction) "COLORSPACE" then
    modify (fun g => set_fVarCount (fVarCount g + 1) g) ;;
    count <- gets fVarCount ;;
    let tmpVar := "_tmpVar" +++ to_string count in
    modify (fun g => set_fFunctionHeader
               (fFunctionHeader g +++ ("half4 " +++ tmpVar +++ ";")) g) ;;
    ASSERT (Nat.eqb (List.length fArguments) 2) ;;
    write "%s" ;;
    push_back_fFormatArgs
      ("fColorSpaceHelper.isValid() ? " +++ dq +++ "(" +++ tmpVar +++ " = " +++
       dq +++ " : " +++ dq +++ dq) ;;
    match fArguments with
    | arg0 :: arg1 :: _ =>
        writeExpression arg0 Precedence.kTopLevel ;;
        ASSERT (match arg1 with VariableReference _ _ => true | _ => false end) ;;
        let xform :=
          "args.fUniformHandler->getUniformCStr(fColorSpaceHelper.gamutXformUniform())"%string in
        write "%s" ;;
        push_back_fFormatArgs
          ("fColorSpaceHelper.isValid() ? SkStringPrintf(" +++ dq +++ ", " +++
           "half4(clamp((%s * half4(" +++ tmpVar +++ ".rgb, 1.0)).rgb, 0.0, " +++
           tmpVar +++ ".a), " +++ tmpVar +++ ".a))" +++ dq +++ ", " +++ xform +++
           ").c_str() : " +++ dq +++ dq)
    | _ => ABORT "ASSERT"
    end
  else
    INHERITED_writeFunctionCall fFunction fArguments ;;
    when (fd_fBuiltin fFunction && String.eqb (fd_fName fFunction) "texture")
      (write ".%s" ;;
       ASSERT (Nat.leb 1 (List.length fArguments)) ;;
       match fArguments with
       | VariableReference _ fVariable :: _ =>
           sampler <- getSamplerHandle fVariable ;;
           push_back_fFormatArgs
             ("fragBuilder->getProgramBuilder()->samplerSwizzle(" +++ sampler +++
              ").c_str()")
       | _ => ABORT "ASSERT"
       end).
End ExpressionPrinter.

(** The dispatch of the inherited [writeExpression] on the kind of the node,
    each kind going to the (overridden where the source overrides) method. *)
Fixpoint writeExpression (expr : Expression) (parentPrecedence : Z) {struct expr}
  : Gen unit :=
  match expr with
  | BoolLiteral _ b => write (if b then "true" else "false")
  | IntLiteral _ v => writeIntLiteral v
  | VariableReference _ v => writeVariableReference v
  | BinaryExpression _ l op r =>
      writeBinaryExpression writeExpression l op r parentPrecedence
  | IndexExpression _ b i => writeIndexExpression writeExpression b i
  | FunctionCall _ f args => writeFunctionCall writeExpression f args
  | Constructor _ t args => writeConstructor writeExpression t args
  | Swizzle _ b cs => writeSwizzle writeExpression b cs
  | TernaryExpression _ t a b =>
      writeTernaryExpression writeExpression t a b parentPrecedence
  | Setting _ n t => writeSetting n t
  end.

(** ** The statement printer *)

(** getTypeName, lines 58-60 *)
Definition getTypeName (type : Type_.t) : string := Type_.name type.

(** writeVarInitializer, lines 158-164 *)
Definition writeVarInitializer (var : Variable_.t) (value : Expression) : Gen unit :=
  if is_private var then
    writeRuntimeValue (Variable_.fType var) (Variable_.fName var)
  else
    writeExpression value Precedence.kTopLevel.

(** Modelled from the spec: writeVarDeclarations of the inherited printer
    (absent): the base type once, then the declared names with their
    initializers, separated by commas and closed by a semicolon; modifiers
    and array sizes are left out. *)
Fixpoint writeVarDeclarations_loop (baseType : Type_.t) (wroteType : bool)
         (vars : list VarDeclaration) : Gen unit :=
  match vars with
  | [] => when wroteType (write ";")
  | var :: rest =>
      (if wroteType then write ", "
       else write (getTypeName baseType) ;; write " ") ;;
      write (Variable_.fName (vd_fVar var)) ;;
      match vd_fValue var with
      | Some value => write " = " ;; writeVarInitializer (vd_fVar var) value
      | None => ret tt
      end ;;
      writeVarDeclarations_loop baseType true rest
  end.

Definition writeVarDeclarations (decl : VarDeclarations) (global : bool) : Gen unit :=
  writeVarDeclarations_loop (fBaseType decl) false (fVars decl).

Section StatementPrinter.
Variable writeStatement : Statement -> Gen unit.

(** Modelled from the spec: the generic if and switch statements of the
    inherited printer (absent). *)
Definition INHERITED_writeIfStatement (fTest : Expression) (fIfTrue : Statement)
           (fIfFalse : option Statement) : Gen unit :=
  write "if (" ;;
  writeExpression fTest Precedence.kTopLevel ;;
  write ") " ;;
  writeStatement fIfTrue ;;
  match fIfFalse with
  | Some s => write " else " ;; writeStatement s
  | None => ret tt
  end.

Definition INHERITED_writeSwitchStatement (fValue : Expression)
           (fCases : list SwitchCase) : Gen unit :=
  write "switch (" ;;
  writeExpression fValue Precedence.kTopLevel ;;
  writeLine ") {" ;;
  forM_ (fun c =>
           match c with
           | Case v stmts =>
               match v with
               | Some e =>
                   write "case " ;;
                   writeExpression e Precedence.kTopLevel ;;
                   writeLine ":"
               | None => writeLine "default:"
               end ;;
               forM_ (fun s => writeStatement s ;; writeLine "") stmts
           end) fCases ;;
  write "}".

(** writeIfStatement, lines 234-239 *)
Definition writeIfStatement (fIsStatic : bool) (fTest : Expression)
           (fIfTrue : Statement) (fIfFalse : option Statement) : Gen unit :=
  when fIsStatic (write "@") ;;
  INHERITED_writeIfStatement fTest fIfTrue fIfFalse.

(** writeSwitchStatement, lines 241-246 *)
Definition writeSwitchStatement (fIsStatic : bool) (fValue : Expression)
           (fCases : list SwitchCase) : Gen unit :=
  when fIsStatic (write "@") ;;
  INHERITED_writeSwitchStatement fValue fCases.

(** Modelled from the spec: a block of the inherited printer. *)
Definition writeBlock (fStatements : list Statement) : Gen unit :=
  writeLine "{" ;;
  forM_ (fun s => writeStatement s ;; writeLine "") fStatements ;;
  write "}".
End StatementPrinter.

(** The dispatch of the inherited [writeStatement]. *)
Fixpoint writeStatement (s : Statement) {struct s} : Gen unit :=
  match s with
  | Block stmts => writeBlock writeStatement stmts
  | ExpressionStatement e =>
      writeExpression e Precedence.kTopLevel ;; write ";"
  | ReturnStatement e =>
      write "return" ;;
      match e with
      | Some e => write " " ;; writeExpression e Precedence.kTopLevel
      | None => ret tt
      end ;;
      write ";"
  | IfStatement st t a b => writeIfStatement writeStatement st t a b
  | SwitchStatement st v cases => writeSwitchStatement writeStatement st v cases
  | VarDeclarationsStatement d => writeVarDeclarations d false
  | BreakStatement => write "break;"
  | ContinueStatement => write "continue;"
  | DiscardStatement => write "discard;"
  end.

(** The body of a function, printed into a buffer of its own: the output
    stream is swapped for the buffer and swapped back (lines 278-286). *)
Definition buffered (m : Gen unit) : Gen string :=
  oldOut <- gets fOut ;;
  modify (set_fOut "") ;;
  m ;;
  buffer <- gets fOut ;;
  modify (set_fOut oldOut) ;;
  ret buffer.

(** Modelled from the spec: writeFunction of the inherited printer (absent):
    the signature, then the body through the same buffer as for main. *)
Definition INHERITED_writeFunction (fDeclaration : FunctionDeclaration)
           (fBody : list Statement) : Gen unit :=
  write (getTypeName (fd_fReturnType fDeclaration)) ;;
  write (" " +++ fd_fName fDeclaration +++ "(") ;;
  forSep (fun param =>
            write (getTypeName (Variable_.fType param)) ;;
            write (" " +++ Variable_.fName param)) "" (fd_fParameters fDeclaration) ;;
  writeLine ") {" ;;
  modify (set_fFunctionHeader "") ;;
  buffer <- buffered
    (forM_ (fun s => writeStatement s ;; writeLine "") fBody ;;
     writeLine "}") ;;
  header <- gets fFunctionHeader ;;
  write header ;;
  write buffer.

(** writeFunction, lines 275-292 *)
Definition writeFunction (fDeclaration : FunctionDeclaration)
           (fBody : list Statement) : Gen unit :=
  if String.eqb (fd_fName fDeclaration) "main" then
    modify (set_fFunctionHeader "") ;;
    buffer <- buffered (forM_ (fun s => writeStatement s ;; writeLine "") fBody) ;;
    header <- gets fFunctionHeader ;;
    write header ;;
    write buffer
  else
    INHERITED_writeFunction fDeclaration fBody.

(** writeSection, lines 304-311 *)
Definition writeSection (name : string) (prefix : string) : Gen bool :=
  s <- gets (fun g => SectionAndParameterHelper.getSection
                        (fSectionAndParameterHelper g) name) ;;
  match s with
  | Some s => writef (prefix +++ sec_fText s) ;; ret true
  | None => ret false
  end.

(** Modelled from the spec: writeProgramElement of the inherited printer
    (absent): a declaration that is no builtin is printed with its line end,
    a function through [writeFunction]. *)
Definition INHERITED_writeProgramElement (p : ProgramElement) : Gen unit :=
  match p with
  | VarElement decls =>
      match fVars decls with
      | first :: _ =>
          when (Layout.fBuiltin (Variable_.layout (vd_fVar first)) =? -1)
               (writeVarDeclarations decls true ;; writeLine "")
      | [] => ret tt
      end
  | FunctionDefinition d body => writeFunction d body
  | SectionElement _ => ret tt
  end.

(** writeProgramElement, lines 313-329 *)
Definition writeProgramElement (p : ProgramElement) : Gen unit :=
  match p with
  | SectionElement _ => ret tt
  | VarElement decls =>
      match fVars decls with
      | [] => ret tt
      | first :: _ =>
          let var := vd_fVar first in
          if Modifiers.has (Variable_.flags var)
               (Z.lor Modifiers.kIn_Flag Modifiers.kUniform_Flag)
             || negb (-1 =? Layout.fBuiltin (Variable_.layout var))
          then ret tt
          else INHERITED_writeProgramElement p
      end
  | _ => INHERITED_writeProgramElement p
  end.

(** Modelled from the spec: generateCode of the inherited printer (absent),
    "the generic printer's whole-program drive": every program element
    through [writeProgramElement]; it reports success. *)
Definition INHERITED_generateCode : Gen bool :=
  elements <- gets (fun g => fElements (fProgram g)) ;;
  forM_ writeProgramElement elements ;;
  ret true.

(** ** Uniforms, keys and the class boilerplate *)

(** Modelled from the spec: Expression::description (the IR headers, absent),
    the source text of an expression, used for the initial value of a private
    variable. *)
Fixpoint description (e : Expression) : string :=
  match e with
  | BoolLiteral _ b => if b then "true" else "false"
  | IntLiteral _ v => to_string v
  | VariableReference _ v => Variable_.fName v
  | BinaryExpression _ l op r =>
      "(" +++ description l +++ " " +++ OperatorName op +++ " " +++
      description r +++ ")"
  | IndexExpression _ b i => description b +++ "[" +++ description i +++ "]"
  | FunctionCall _ f args =>
      fd_fName f +++ "(" +++ String.concat ", " (map description args) +++ ")"
  | Constructor _ t args =>
      Type_.name t +++ "(" +++ String.concat ", " (map description args) +++ ")"
  | Swizzle _ b cs =>
      description b +++ "." +++ String.concat "" (map component_name cs)
  | TernaryExpression _ t a b =>
      "(" +++ description t +++ " ? " +++ description a +++ " : " +++
      description b +++ ")"
  | Setting _ n _ => n
  end.

(** addUniform, lines 331-377 *)
Definition addUniform (var : Variable_.t) : Gen unit :=
  if negb (needs_uniform_var var) then ret tt
  else
    let flags := Variable_.flags var in
    let precision :=
      if Modifiers.has flags Modifiers.kHighp_Flag then "kHigh_GrSLPrecision"
      else if Modifiers.has flags Modifiers.kMediump_Flag then "kMedium_GrSLPrecision"
      else if Modifiers.has flags Modifiers.kLowp_Flag then "kLow_GrSLPrecision"
      else "kDefault_GrSLPrecision" in
    let ty := Variable_.fType var in
    type <-
      (if Type_.eqb ty Context.fFloat_Type then ret "kFloat_GrSLType"
       else if Type_.eqb ty Context.fHalf_Type then ret "kHalf_GrSLType"
       else if Type_.eqb ty Context.fFloat2_Type then ret "kFloat2_GrSLType"
       else if Type_.eqb ty Context.fHalf2_Type then ret "kHalf2_GrSLType"
       else if Type_.eqb ty Context.fFloat4_Type then ret "kFloat4_GrSLType"
       else if Type_.eqb ty Context.fHalf4_Type then ret "kHalf4_GrSLType"
       else if Type_.eqb ty Context.fFloat4x4_Type
               || Type_.eqb ty Context.fColorSpaceXform_Type
       then ret "kFloat4x4_GrSLType"
       else if Type_.eqb ty Context.fHalf4x4_Type then ret "kHalf4x4_GrSLType"
       else ABORT ("unsupported uniform type: " +++ Type_.fName ty +++ " " +++
                   Variable_.fName var +++ ";" +++ nl))%string ;;
    let fWhen := Layout.fWhen (Variable_.layout var) in
    when (negb (String.eqb fWhen ""))
         (writef ("        if (" +++ fWhen +++ ") {" +++ nl +++ "    ")) ;;
    let name := Variable_.fName var in
    writef ("        " +++ HCodeGenerator.FieldName name +++
            "Var = args.fUniformHandler->addUniform(kFragment_GrShaderFlag, " +++
            type +++ ", " +++ precision +++ ", " +++ dq +++ name +++ dq +++ ");" +++ nl) ;;
    when (negb (String.eqb fWhen "")) (write ("        }" +++ nl)).

(** The declarations of the program, as the two nested loops of the source
    visit them: every VarDeclaration of every kVar_Kind element. *)
Definition program_declarations (p : Program) : list VarDeclaration :=
  flat_map (fun e => match e with VarElement decls => fVars decls | _ => [] end)
           (fElements p).

(** writePrivateVars, lines 379-393 *)
Definition writePrivateVars : Gen unit :=
  decls <- gets (fun g => program_declarations (fProgram g)) ;;
  forM_ (fun decl =>
           when (is_private (vd_fVar decl))
                (writef (HCodeGenerator.FieldType (Variable_.fType (vd_fVar decl)) +++
                         " " +++ Variable_.fName (vd_fVar decl) +++ ";" +++ nl)))
        decls.

(** writePrivateVarValues, lines 395-409 *)
Definition writePrivateVarValues : Gen unit :=
  decls <- gets (fun g => program_declarations (fProgram g)) ;;
  forM_ (fun decl =>
           match vd_fValue decl with
           | Some value =>
               when (is_private (vd_fVar decl))
                    (writef (Variable_.fName (vd_fVar decl) +++ " = " +++
                             description value +++ ";" +++ nl))
           | None => ret tt
           end)
        decls.

(** The loop of writeEmitCode over the uniforms, lines 418-429. *)
Definition writeEmitCode_uniform (u : Variable_.t) : Gen unit :=
  addUniform u ;;
  when (Type_.eqb (Variable_.fType u) Context.fColorSpaceXform_Type)
       (need <- gets fNeedColorSpaceHelper ;;
        when need
             (error (Variable_.fOffset u) "only a single ColorSpaceXform is supported") ;;
        modify (set_fNeedColorSpaceHelper true) ;;
        writef ("        fColorSpaceHelper.emitCode(args.fUniformHandler, " +++
                "_outer." +++ Variable_.fName u +++ "().get());" +++ nl)).

(** The main body printed into mainBuffer, lines 431-435. *)
Definition writeEmitCode_mainBuffer : Gen (bool * string) :=
  old <- gets fOut ;;
  modify (set_fOut "") ;;
  result <- INHERITED_generateCode ;;
  mainBuffer <- gets fOut ;;
  modify (set_fOut old) ;;
  ret (result, mainBuffer).

(** writeEmitCode, lines 411-444, in its three parts: what precedes the main
    body (lines 412-430), the main body printed into its buffer (lines
    431-435, above) and the codeAppendf call that receives the buffered text
    and the format arguments (lines 436-442). *)
Definition writeEmitCode_setup (uniforms : list Variable_.t) : Gen unit :=
  write ("    void emitCode(EmitArgs& args) override {" +++ nl +++
         "        GrGLSLFPFragmentBuilder* fragBuilder = args.fFragBuilder;" +++ nl) ;;
  fullName <- gets fFullName ;;
  writef ("        const " +++ fullName +++ "& _outer = args.fFp.cast<" +++ fullName +++
          ">();" +++ nl +++
          "        (void) _outer;" +++ nl) ;;
  writePrivateVarValues ;;
  forM_ writeEmitCode_uniform uniforms ;;
  writeSection EMIT_CODE_SECTION "" ;;
  ret tt.

Definition writeEmitCode_codeAppendf (mainBuffer : string) : Gen unit :=
  extra <- gets fExtraEmitCodeCode ;;
  writef (extra +++ "        fragBuilder->codeAppendf(" +++ dq +++ mainBuffer +++ dq) ;;
  args <- gets fFormatArgs ;;
  forM_ (fun s => writef (", " +++ s)) args ;;
  write (");" +++ nl +++
         "    }" +++ nl).

Definition writeEmitCode (uniforms : list Variable_.t) : Gen bool :=
  writeEmitCode_setup uniforms ;;
  rb <- writeEmitCode_mainBuffer ;;
  writeEmitCode_codeAppendf (snd rb) ;;
  ret (fst rb).

(** writeGetKey, lines 575-628: the body of the loop for one parameter, and
    the method. *)
Definition writeGetKey_param (param : Variable_.t) : Gen unit :=
  let name := Variable_.fName param in
  let field := HCodeGenerator.FieldName name in
  let ty := Variable_.fType param in
  if Type_.eqb ty Context.fColorSpaceXform_Type then
    writef ("    b->add32(GrColorSpaceXform::XformKey(" +++ field +++ ".get()));" +++ nl)
  else
    when (match Layout.fKey (Variable_.layout param) with
          | Layout.kNo_Key => false
          | _ => true
          end && Modifiers.has (Variable_.flags param) Modifiers.kUniform_Flag)
         (error (Variable_.fOffset param)
                "layout(key) may not be specified on uniforms") ;;
    match Layout.fKey (Variable_.layout param) with
    | Layout.kKey_Key =>
        if Type_.eqb ty Context.fFloat4x4_Type then
          ABORT ("no automatic key handling for float4x4" +++ nl)
        else if Type_.eqb ty Context.fFloat2_Type then
          writef ("    b->add32(" +++ field +++ ".fX);" +++ nl) ;;
          writef ("    b->add32(" +++ field +++ ".fY);" +++ nl)
        else if Type_.eqb ty Context.fFloat4_Type then
          writef ("    b->add32(" +++ field +++ ".x());" +++ nl) ;;
          writef ("    b->add32(" +++ field +++ ".y());" +++ nl) ;;
          writef ("    b->add32(" +++ field +++ ".width());" +++ nl) ;;
          writef ("    b->add32(" +++ field +++ ".height());" +++ nl)
        else
          writef ("    b->add32(" +++ field +++ ");" +++ nl)
    | Layout.kIdentity_Key =>
        when (negb (Type_.Kind_eqb (Type_.kind ty) Type_.kMatrix_Kind))
             (error (Variable_.fOffset param)
                    "layout(key=identity) requires matrix type") ;;
        writef ("    b->add32(" +++ field +++ ".isIdentity() ? 1 : 0);" +++ nl)
    | Layout.kNo_Key => ret tt
    end.

Definition writeGetKey : Gen unit :=
  fullName <- gets fFullName ;;
  writef ("void " +++ fullName +++ "::onGetGLSLProcessorKey(const GrShaderCaps& caps, " +++
          "GrProcessorKeyBuilder* b) const {" +++ nl) ;;
  params <- gets (fun g =>
              SectionAndParameterHelper.getParameters (fSectionAndParameterHelper g)) ;;
  forM_ writeGetKey_param params ;;
  write ("}" +++ nl).

Definition foldM {A S} (f : S -> A -> Gen S) : S -> list A -> Gen S :=
  fix go (acc : S) (l : list A) : Gen S :=
    match l with
    | [] => ret acc
    | x :: r => acc' <- f acc x ;; go acc' r
    end.

(** writeSetData, lines 446-517; the local [wroteProcessor] is threaded
    through the two loops. *)
Definition writeSetData_uniform (fullName pdman : string) (wroteProcessor : bool)
           (u : Variable_.t) : Gen bool :=
  if Modifiers.has (Variable_.flags u) Modifiers.kIn_Flag then
    when (negb wroteProcessor)
         (writef ("        const " +++ fullName +++ "& _outer = _proc.cast<" +++
                  fullName +++ ">();" +++ nl) ;;
          writef ("        {" +++ nl)) ;;
    let name := Variable_.fName u in
    let field := HCodeGenerator.FieldName name in
    let ty := Variable_.fType u in
    (if Type_.eqb ty Context.fFloat4_Type || Type_.eqb ty Context.fHalf4_Type then
       writef ("        const SkRect " +++ name +++ "Value = _outer." +++ name +++ "();" +++ nl +++
               "        " +++ pdman +++ ".set4fv(" +++ field +++ "Var, 1, (float*) &" +++
               name +++ "Value);" +++ nl)
     else if Type_.eqb ty Context.fFloat4x4_Type || Type_.eqb ty Context.fHalf4x4_Type then
       writef ("        float " +++ name +++ "Value[16];" +++ nl +++
               "        _outer." +++ name +++ "().asColMajorf(" +++ name +++ "Value);" +++ nl +++
               "        " +++ pdman +++ ".setMatrix4f(" +++ field +++ "Var, " +++ name +++
               "Value);" +++ nl)
     else if Type_.eqb ty Context.fColorSpaceXform_Type then
       need <- gets fNeedColorSpaceHelper ;;
       ASSERT need ;;
       writef ("        if (fColorSpaceHelper.isValid()) {" +++ nl +++
               "            fColorSpaceHelper.setData(" +++ pdman +++ ", _outer." +++ name +++
               "().get());" +++ nl +++
               "        }" +++ nl)
     else
       writef ("        " +++ pdman +++ ".set1f(" +++ field +++ "Var, _outer." +++ name +++
               "());" +++ nl)) ;;
    ret true
  else ret wroteProcessor.

Definition writeSetData_decl (fullName : string) (wroteProcessor : bool)
           (decl : VarDeclaration) : Gen bool :=
  let name := Variable_.fName (vd_fVar decl) in
  if needs_uniform_var (vd_fVar decl) then
    writef ("        UniformHandle& " +++ name +++ " = " +++
            HCodeGenerator.FieldName name +++ "Var;" +++ nl +++
            "        (void) " +++ name +++ ";" +++ nl) ;;
    ret wroteProcessor
  else if SectionAndParameterHelper.IsParameter (vd_fVar decl) then
    when (negb wroteProcessor)
         (writef ("        const " +++ fullName +++ "& _outer = _proc.cast<" +++
                  fullName +++ ">();" +++ nl)) ;;
    writef ("        auto " +++ name +++ " = _outer." +++ name +++ "();" +++ nl +++
            "        (void) " +++ name +++ ";" +++ nl) ;;
    ret true
  else ret wroteProcessor.

Definition writeSetData (uniforms : list Variable_.t) : Gen unit :=
  fullName <- gets fFullName ;;
  section <- gets (fun g => SectionAndParameterHelper.getSection
                              (fSectionAndParameterHelper g) SET_DATA_SECTION) ;;
  let pdman := match section with Some s => sec_fArgument s | None => "pdman" end in
  writef ("    void onSetData(const GrGLSLProgramDataManager& " +++ pdman +++ ", " +++
          "const GrFragmentProcessor& _proc) override {" +++ nl) ;;
  wroteProcessor <- foldM (writeSetData_uniform fullName pdman) false uniforms ;;
  when wroteProcessor (writef ("        }" +++ nl)) ;;
  match section with
  | Some _ =>
      decls <- gets (fun g => program_declarations (fProgram g)) ;;
      foldM (writeSetData_decl fullName) wroteProcessor decls ;;
      writeSection SET_DATA_SECTION "" ;;
      ret tt
  | None => ret tt
  end ;;
  write ("    }" +++ nl).

(** writeClone, lines 519-557 *)
Definition writeClone : Gen unit :=
  wrote <- writeSection CLONE_SECTION "" ;;
  when (negb wrote)
    (helper <- gets fSectionAndParameterHelper ;;
     fullName <- gets fFullName ;;
     when (match SectionAndParameterHelper.getSection helper FIELDS_SECTION with
           | Some _ => true
           | None => false
           end)
          (error 0 ("fragment processors with custom @fields must also have a custom" +++
                    "@clone")) ;;
     writef (fullName +++ "::" +++ fullName +++ "(const " +++ fullName +++ "& src)" +++ nl +++
             ": INHERITED(k" +++ fullName +++ "_ClassID, src.optimizationFlags())") ;;
     forM_ (fun param =>
              let fieldName := HCodeGenerator.FieldName (Variable_.fName param) in
              writef (nl +++ ", " +++ fieldName +++ "(" +++ ("src." +++ fieldName) +++ ")"))
           (SectionAndParameterHelper.getParameters helper) ;;
     forM_ (fun s =>
              let fieldName := HCodeGenerator.FieldName (sec_fArgument s) in
              writef (nl +++ ", " +++ fieldName +++ "CoordTransform(src." +++ fieldName +++
                      "CoordTransform)"))
           (SectionAndParameterHelper.getSections helper COORD_TRANSFORM_SECTION) ;;
     writef (" {" +++ nl) ;;
     forM_ (fun param =>
              when (Type_.Kind_eqb (Type_.kind (Variable_.fType param)) Type_.kSampler_Kind)
                   (writef ("    this->addTextureSampler(&" +++
                            HCodeGenerator.FieldName (Variable_.fName param) +++ ");" +++ nl)))
           (SectionAndParameterHelper.getParameters helper) ;;
     forM_ (fun s =>
              let field := HCodeGenerator.FieldName (sec_fArgument s) in
              writef ("    this->addCoordTransform(&" +++ field +++ "CoordTransform);" +++ nl))
           (SectionAndParameterHelper.getSections helper COORD_TRANSFORM_SECTION) ;;
     write ("}" +++ nl) ;;
     writef ("std::unique_ptr<GrFragmentProcessor> " +++ fullName +++ "::clone() const {" +++ nl) ;;
     writef ("    return std::unique_ptr<GrFragmentProcessor>(new " +++ fullName +++
             "(*this));" +++ nl) ;;
     write ("}" +++ nl)).

(** writeTest, lines 559-573 *)
Definition writeTest : Gen unit :=
  test <- gets (fun g => SectionAndParameterHelper.getSection
                           (fSectionAndParameterHelper g) TEST_CODE_SECTION) ;;
  match test with
  | Some test =>
      fullName <- gets fFullName ;;
      writef ("GR_DEFINE_FRAGMENT_PROCESSOR_TEST(" +++ fullName +++ ");" +++ nl +++
              "#if GR_TEST_UTILS" +++ nl +++
              "std::unique_ptr<GrFragmentProcessor> " +++ fullName +++
              "::TestCreate(GrProcessorTestData* " +++ sec_fArgument test +++ ") {" +++ nl) ;;
      writeSection TEST_CODE_SECTION "" ;;
      write ("}" +++ nl +++
             "#endif" +++ nl)
  | None => ret tt
  end.

(** The conditions of the two loops of generateCode that declare a
    uniform-handle field, over the uniforms (line 665) and over the
    parameters (line 671). *)
Definition declares_handle_as_uniform (u : Variable_.t) : bool :=
  needs_uniform_var u && negb (Modifiers.has (Variable_.flags u) Modifiers.kIn_Flag).

Definition declares_handle_as_parameter (param : Variable_.t) : bool :=
  needs_uniform_var param.

(** The uniforms collected at the start of generateCode, lines 631-643. *)
Definition collect_uniforms (p : Program) : list Variable_.t :=
  filter (fun var =>
            Modifiers.has (Variable_.flags var) Modifiers.kUniform_Flag &&
            negb (Type_.Kind_eqb (Type_.kind (Variable_.fType var)) Type_.kSampler_Kind))
         (map vd_fVar (program_declarations p)).

(** generateCode, lines 630-704: the text of the file (lines 631-701), and
    the method, whose result also asks the error reporter for its count
    (line 702). *)
Definition generateCode_file : Gen bool :=
  uniforms <- gets (fun g => collect_uniforms (fProgram g)) ;;
  baseName <- gets fName ;;
  fullName <- gets fFullName ;;
  writef (kFragmentProcessorHeader fullName) ;;
  writef ("#include " +++ dq +++ fullName +++ ".h" +++ dq +++ nl +++
          "#if SK_SUPPORT_GPU" +++ nl) ;;
  writeSection CPP_SECTION "" ;;
  writef ("#include " +++ dq +++ "glsl/GrGLSLColorSpaceXformHelper.h" +++ dq +++ nl +++
          "#include " +++ dq +++ "glsl/GrGLSLFragmentProcessor.h" +++ dq +++ nl +++
          "#include " +++ dq +++ "glsl/GrGLSLFragmentShaderBuilder.h" +++ dq +++ nl +++
          "#include " +++ dq +++ "glsl/GrGLSLProgramBuilder.h" +++ dq +++ nl +++
          "#include " +++ dq +++ "SkSLCPP.h" +++ dq +++ nl +++
          "#include " +++ dq +++ "SkSLUtil.h" +++ dq +++ nl +++
          "class GrGLSL" +++ baseName +++ " : public GrGLSLFragmentProcessor {" +++ nl +++
          "public:" +++ nl +++
          "    GrGLSL" +++ baseName +++ "() {}" +++ nl) ;;
  result <- writeEmitCode uniforms ;;
  write ("private:" +++ nl) ;;
  writeSetData uniforms ;;
  writePrivateVars ;;
  forM_ (fun u =>
           when (declares_handle_as_uniform u)
                (writef ("    UniformHandle " +++
                         HCodeGenerator.FieldName (Variable_.fName u) +++ "Var;" +++ nl)))
        uniforms ;;
  params <- gets (fun g =>
              SectionAndParameterHelper.getParameters (fSectionAndParameterHelper g)) ;;
  forM_ (fun param =>
           when (declares_handle_as_parameter param)
                (writef ("    UniformHandle " +++
                         HCodeGenerator.FieldName (Variable_.fName param) +++ "Var;" +++ nl)))
        params ;;
  need <- gets fNeedColorSpaceHelper ;;
  when need (write ("    GrGLSLColorSpaceXformHelper fColorSpaceHelper;" +++ nl)) ;;
  writef ("};" +++ nl +++
          "GrGLSLFragmentProcessor* " +++ fullName +++ "::onCreateGLSLInstance() const {" +++ nl +++
          "    return new GrGLSL" +++ baseName +++ "();" +++ nl +++
          "}" +++ nl) ;;
  writeGetKey ;;
  writef ("bool " +++ fullName +++ "::onIsEqual(const GrFragmentProcessor& other) const {" +++ nl +++
          "    const " +++ fullName +++ "& that = other.cast<" +++ fullName +++ ">();" +++ nl +++
          "    (void) that;" +++ nl) ;;
  forM_ (fun param =>
           let field := HCodeGenerator.FieldName (Variable_.fName param) in
           writef ("    if (" +++ field +++ " != that." +++ field +++ ") return false;" +++ nl))
        params ;;
  write ("    return true;" +++ nl +++
         "}" +++ nl) ;;
  writeClone ;;
  writeTest ;;
  writeSection CPP_END_SECTION "" ;;
  write ("#endif" +++ nl) ;;
  ret result.

Definition generateCode : Gen bool :=
  result <- generateCode_file ;;
  errorCount <- gets (fun g => List.length (fErrors g)) ;;
  ret (result && Nat.eqb 0 errorCount).

(** ** Vocabulary of the properties *)

(** The state a run ended in, and whether it ended normally. *)
Definition final {A} (o : outcome A) : CPPCodeGenerator :=
  match o with Ok _ g => g | Aborted _ g => g end.

Definition aborted {A} (o : outcome A) : bool :=
  match o with Ok _ _ => false | Aborted _ _ => true end.

(** A generator that has written [text] more and pushed [args] more. *)
Definition emitted (text : string) (args : list string) (g : CPPCodeGenerator)
  : CPPCodeGenerator :=
  set_fFormatArgs (fFormatArgs g ++ args) (set_fOut (fOut g +++ text) g).

(** The placeholders of a printf format: a percent sign followed by another
    percent sign is a literal percent sign, followed by any other character it
    is a conversion, a placeholder that consumes one argument.  [fmt_scan]
    reads a text from left to right; its flag tells that the last character
    read was a percent sign that opened a conversion still to be completed. *)
Fixpoint fmt_scan (pending : bool) (s : string) : nat * bool :=
  match s with
  | EmptyString => (0%nat, pending)
  | String c r =>
      if pending then
        if Ascii.eqb c percent then fmt_scan false r
        else let (n, p) := fmt_scan false r in (S n, p)
      else if Ascii.eqb c percent then fmt_scan true r
      else fmt_scan false r
  end.

Definition count_placeholders (s : string) : nat := fst (fmt_scan false s).

(** The format is complete: it does not end inside a conversion. *)
Definition format_complete (s : string) : bool := negb (snd (fmt_scan false s)).

(** The sampler-typed parameters among [params]. *)
Definition is_sampler (var : Variable_.t) : bool :=
  Type_.Kind_eqb (Type_.kind (Variable_.fType var)) Type_.kSampler_Kind.

Definition sampler_count (params : list Variable_.t) : Z :=
  Z.of_nat (List.length (filter is_sampler params)).

(** The statement that caches the transformed coordinates of a slot, and the
    argument that refers to the cache. *)
Definition coords_name (index : Z) : string :=
  "sk_TransformedCoords2D_" +++ to_string index.

Definition coords_statement (index : Z) : string :=
  "        SkString " +++ coords_name index +++
  " = fragBuilder->ensureCoords2D(args.fTransformedCoords[" +++
  to_string index +++ "]);" +++ nl.

Definition coords_argument (index : Z) : string :=
  coords_name index +++ ".c_str()".

Definition is_IntLiteral (e : Expression) : bool :=
  match e with IntLiteral _ _ => true | _ => false end.

(** The types addUniform has a GPU type token for, and a uniform of the loop
    of writeEmitCode that is an ordinary one: not of the color-space-transform
    type, and of a type addUniform supports. *)
Definition supported_uniform_type (ty : Type_.t) : bool :=
  existsb (Type_.eqb ty)
          [Context.fFloat_Type; Context.fHalf_Type; Context.fFloat2_Type;
           Context.fHalf2_Type; Context.fFloat4_Type; Context.fHalf4_Type;
           Context.fFloat4x4_Type; Context.fHalf4x4_Type].

Definition plain_uniform (u : Variable_.t) : bool :=
  negb (Type_.eqb (Variable_.fType u) Context.fColorSpaceXform_Type) &&
  supported_uniform_type (Variable_.fType u).

Definition is_xform (u : Variable_.t) : bool :=
  Type_.eqb (Variable_.fType u) Context.fColorSpaceXform_Type.

(** The call that materializes the color-space helper for the uniform [u]. *)
Definition helper_emitCode (u : Variable_.t) : string :=
  "        fColorSpaceHelper.emitCode(args.fUniformHandler, " +++
  "_outer." +++ Variable_.fName u +++ "().get());" +++ nl.

(** A text without any percent sign, and the programs all of whose names are
    such texts: the names of variables, functions, types and settings, which
    the printer copies into its output, and the operators other than the
    modulo operator (the printer doubles the percent sign of that one only). *)
Fixpoint no_percent (s : string) : bool :=
  match s with
  | EmptyString => true
  | String c r => negb (Ascii.eqb c percent) && no_percent r
  end.

Fixpoint wf_expression (e : Expression) : bool :=
  match e with
  | BoolLiteral _ _ | IntLiteral _ _ => true
  | VariableReference _ v => no_percent (Variable_.fName v)
  | BinaryExpression _ l op r =>
      wf_expression l &&
      (Token_is_PERCENT op || no_percent (OperatorName op)) &&
      wf_expression r
  | IndexExpression _ b i => wf_expression b && wf_expression i
  | FunctionCall _ f args => no_percent (fd_fName f) && forallb wf_expression args
  | Constructor _ t args => no_percent (Type_.name t) && forallb wf_expression args
  | Swizzle _ b _ => wf_expression b
  | TernaryExpression _ t a b =>
      wf_expression t && wf_expression a && wf_expression b
  | Setting _ n _ => no_percent n
  end.

Definition wf_declarations (d : VarDeclarations) : bool :=
  no_percent (Type_.name (fBaseType d)) &&
  forallb (fun var =>
             no_percent (Variable_.fName (vd_fVar var)) &&
             match vd_fValue var with
             | Some value => wf_expression value
             | None => true
             end) (fVars d).

Fixpoint wf_statement (s : Statement) : bool :=
  match s with
  | Block stmts => forallb wf_statement stmts
  | ExpressionStatement e => wf_expression e
  | ReturnStatement e =>
      match e with Some e => wf_expression e | None => true end
  | IfStatement _ t a b =>
      wf_expression t && wf_statement a &&
      match b with Some b => wf_statement b | None => true end
  | SwitchStatement _ v cases =>
      wf_expression v &&
      forallb (fun c =>
                 match c with
                 | Case v stmts =>
                     match v with Some e => wf_expression e | None => true end &&
                     forallb wf_statement stmts
                 end) cases
  | VarDeclarationsStatement d => wf_declarations d
  | BreakStatement | ContinueStatement | DiscardStatement => true
  end.

Definition wf_element (p : ProgramElement) : bool :=
  match p with
  | VarElement decls => wf_declarations decls
  | FunctionDefinition d body =>
      no_percent (Type_.name (fd_fReturnType d)) &&
      no_percent (fd_fName d) &&
      forallb (fun param =>
                 no_percent (Type_.name (Variable_.fType param)) &&
                 no_percent (Variable_.fName param)) (fd_fParameters d) &&
      forallb wf_statement body
  | SectionElement _ => true
  end.

Definition wf_program (p : Program) : bool := forallb wf_element (fElements p).

(** The generator states in which the line ending and the function header
    hold no percent sign. *)
Definition good (g : CPPCodeGenerator) : Prop :=
  no_percent (fLineEnding g) = true /\ no_percent (fFunctionHeader g) = true.

(** The two errors of writeIndexExpression. *)
Definition index_error (e : Z * string) : Prop :=
  snd e = "index into sk_TransformedCoords2D must be an integer literal" \/
  snd e = "index into sk_TextureSamplers must be an integer literal".

(** [tally k m]: a run of [m] that returns appends a complete piece of format
    text to the output, arguments to the format-argument list and index
    errors to the error sink, and the text holds [k] more placeholders than
    arguments and errors have been added.  [tally 0 m] says that the text and
    the arguments of [m] go in step, up to one placeholder without argument
    for each index error. *)
Definition tally {A} (k : Z) (m : Gen A) : Prop :=
  forall g a g', good g -> m g = Ok a g' ->
    good g' /\
    exists text args errs c,
      fOut g' = fOut g +++ text /\
      fFormatArgs g' = fFormatArgs g ++ args /\
      fErrors g' = fErrors g ++ errs /\
      Forall index_error errs /\
      fmt_scan false text = (c, false) /\
      Z.of_nat c = Z.of_nat (List.length args) + Z.of_nat (List.length errs) + k.

(** [quiet m]: a run of [m] leaves the format arguments, the function header,
    the line ending and the program alone, and only adds to the errors. *)
Definition quiet {A} (m : Gen A) : Prop :=
  forall g a g', m g = Ok a g' ->
    fFormatArgs g' = fFormatArgs g /\ fLineEnding g' = fLineEnding g /\
    fFunctionHeader g' = fFunctionHeader g /\ fProgram g' = fProgram g /\
    exists errs, fErrors g' = fErrors g ++ errs.

(** The concatenation of a list of texts. *)
Definition join (l : list string) : string := fold_right String.append "" l.

(** The extra-setup buffer holds the cache statements of the slots recorded
    in fWrittenTransformedCoords, in the order they were met, and no slot is
    recorded twice. *)
Definition extra_ok (g : CPPCodeGenerator) : Prop :=
  fExtraEmitCodeCode g = join (map coords_statement (fWrittenTransformedCoords g)) /\
  NoDup (fWrittenTransformedCoords g).

(** [preserves I m]: a run of [m] that returns keeps the invariant [I]. *)
Definition preserves {A} (I : CPPCodeGenerator -> Prop) (m : Gen A) : Prop :=
  forall g a g', I g -> m g = Ok a g' -> I g'.

(** A text in which the character [c] does not occur. *)
Fixpoint lacks (c : ascii) (s : string) : bool :=
  match s with
  | EmptyString => true
  | String x r => negb (Ascii.eqb x c) && lacks c r
  end.

(** An occurrence of sk_TransformedCoords2D[idx] with the literal [idx]. *)
Definition is_coords_index (idx : Z) (e : Expression) : bool :=
  match e with
  | IndexExpression _ (VariableReference _ v) (IntLiteral _ i) =>
      (Layout.fBuiltin (Variable_.layout v) =? SK_TRANSFORMEDCOORDS2D_BUILTIN) &&
      (i =? idx)
  | _ => false
  end.

(** The generator after one occurrence of the index [idx]. *)
Definition after_coords_index (idx : Z) (g : CPPCodeGenerator) : CPPCodeGenerator :=
  if existsb (Z.eqb idx) (fWrittenTransformedCoords g) then
    emitted "%s" [coords_argument idx] g
  else
    set_fWrittenTransformedCoords (fWrittenTransformedCoords g ++ [idx])
      (set_fExtraEmitCodeCode (fExtraEmitCodeCode g +++ coords_statement idx)
         (emitted "%s" [coords_argument idx] g)).

(** Induction over expressions, with the arguments of calls and constructors. *)
Section Expression_induction.
Variable P : Expression -> Prop.
Hypothesis HBool : forall o b, P (BoolLiteral o b).
Hypothesis HInt : forall o v, P (IntLiteral o v).
Hypothesis HVar : forall o v, P (VariableReference o v).
Hypothesis HBin : forall o l op r, P l -> P r -> P (BinaryExpression o l op r).
Hypothesis HIndex : forall o b i, P b -> P i -> P (IndexExpression o b i).
Hypothesis HCall : forall o f args, Forall P args -> P (FunctionCall o f args).
Hypothesis HCtor : forall o t args, Forall P args -> P (Constructor o t args).
Hypothesis HSwizzle : forall o b cs, P b -> P (Swizzle o b cs).
Hypothesis HTernary : forall o t a b, P t -> P a -> P b -> P (TernaryExpression o t a b).
Hypothesis HSetting : forall o n t, P (Setting o n t).

Fixpoint Expression_induction (e : Expression) : P e :=
  match e with
  | BoolLiteral o b => HBool o b
  | IntLiteral o v => HInt o v
  | VariableReference o v => HVar o v
  | BinaryExpression o l op r =>
      HBin o l op r (Expression_induction l) (Expression_induction r)
  | IndexExpression o b i =>
      HIndex o b i (Expression_induction b) (Expression_induction i)
  | FunctionCall o f args =>
      HCall o f args
            ((fix go (l : list Expression) : Forall P l :=
                match l with
                | [] => Forall_nil P
                | x :: r => Forall_cons x (Expression_induction x) (go r)
                end) args)
  | Constructor o t args =>
      HCtor o t args
            ((fix go (l : list Expression) : Forall P l :=
                match l with
                | [] => Forall_nil P
                | x :: r => Forall_cons x (Expression_induction x) (go r)
                end) args)
  | Swizzle o b cs => HSwizzle o b cs (Expression_induction b)
  | TernaryExpression o t a b =>
      HTernary o t a b (Expression_induction t) (Expression_induction a)
               (Expression_induction b)
  | Setting o n t => HSetting o n t
  end.
End Expression_induction.

(** Induction over statements, with the statements of blocks and of the
    cases of a switch. *)
Section Statement_induction.
Variable P : Statement -> Prop.

Definition P_option (s : option Statement) : Prop :=
  match s with Some s => P s | None => True end.
Definition P_case (c : SwitchCase) : Prop :=
  match c with Case _ stmts => Forall P stmts end.

Hypothesis HBlock : forall stmts, Forall P stmts -> P (Block stmts).
Hypothesis HExpr : forall e, P (ExpressionStatement e).
Hypothesis HReturn : forall e, P (ReturnStatement e).
Hypothesis HIf : forall st t a b, P a -> P_option b -> P (IfStatement st t a b).
Hypothesis HSwitch :
  forall st v cases, Forall P_case cases -> P (SwitchStatement st v cases).
Hypothesis HVar : forall d, P (VarDeclarationsStatement d).
Hypothesis HBreak : P BreakStatement.
Hypothesis HContinue : P ContinueStatement.
Hypothesis HDiscard : P DiscardStatement.

Fixpoint Statement_induction (s : Statement) : P s :=
  match s with
  | Block stmts =>
      HBlock stmts
             ((fix go (l : list Statement) : Forall P l :=
                 match l with
                 | [] => Forall_nil P
                 | x :: r => Forall_cons x (Statement_induction x) (go r)
                 end) stmts)
  | ExpressionStatement e => HExpr e
  | ReturnStatement e => HReturn e
  | IfStatement st t a b =>
      HIf st t a b (Statement_induction a)
          (match b return P_option b with
           | Some s => Statement_induction s
           | None => I
           end)
  | SwitchStatement st v cases =>
      HSwitch st v cases
              ((fix go_cases (l : list SwitchCase) : Forall P_case l :=
                  match l with
                  | [] => Forall_nil P_case
                  | c :: r =>
                      Forall_cons c
                        (match c return P_case c with
                         | Case _ stmts =>
                             (fix go (l : list Statement) : Forall P l :=
                                match l with
                                | [] => Forall_nil P
                                | x :: r => Forall_cons x (Statement_induction x) (go r)
                                end) stmts
                         end)
                        (go_cases r)
                  end) cases)
  | VarDeclarationsStatement d => HVar d
  | BreakStatement => HBreak
  | ContinueStatement => HContinue
  | DiscardStatement => HDiscard
  end.
End Statement_induction.

(** The generator [g] handed an error reporter that already holds the errors
    [e]; the outcome of a run moved to such a reporter; and the methods that
    never look into the reporter: run with a reporter that holds [e], they do
    what they do with an empty one, and the errors they report follow [e]. *)
Definition prepend_errors (e : list (Z * string)) (g : CPPCodeGenerator)
  : CPPCodeGenerator :=
  set_fErrors (e ++ fErrors g) g.

Definition lift_errors {A} (e : list (Z * string)) (o : outcome A) : outcome A :=
  match o with
  | Ok a g => Ok a (prepend_errors e g)
  | Aborted msg g => Aborted msg (prepend_errors e g)
  end.

Definition indep {A} (m : Gen A) : Prop :=
  forall e g, m (prepend_errors e g) = lift_errors e (m g).

(** The generator a run ended in, without its error reporter. *)
Definition instance_state (g : CPPCodeGenerator) :=
  (fOut g, fFunctionHeader g, fExtraEmitCodeCode g, fFormatArgs g,
   fWrittenTransformedCoords g, fNeedColorSpaceHelper g, fVarCount g).

(** One key contribution, as writeGetKey prints it for the field accessor
    [what]. *)
Definition add32 (what : string) : string := "    b->add32(" +++ what +++ ");" +++ nl.

(** ** Sample declarations and programs *)

Module Samples.
Definition declare (addr : N) (offset : Z) (name : string) (type : Type_.t)
           (flags : Z) (builtin : Z) (key : Layout.Key) : Variable_.t :=
  Variable_.mk addr offset name type
               (Modifiers.mk flags (Layout.mk builtin key ""))
               Variable_.kGlobal_Storage.

Definition in_uniform : Z := Z.lor Modifiers.kIn_Flag Modifiers.kUniform_Flag.

(** [layout(key) in half2 scale;] and its float2, half4 and float4 siblings *)
Definition half2_key :=
  declare 1 10 "scale" Context.fHalf2_Type Modifiers.kIn_Flag (-1) Layout.kKey_Key.
Definition float2_key :=
  declare 1 10 "scale" Context.fFloat2_Type Modifiers.kIn_Flag (-1) Layout.kKey_Key.
Definition half4_key :=
  declare 2 20 "rect" Context.fHalf4_Type Modifiers.kIn_Flag (-1) Layout.kKey_Key.
Definition float4_key :=
  declare 2 20 "rect" Context.fFloat4_Type Modifiers.kIn_Flag (-1) Layout.kKey_Key.

(** [layout(key) in uniform colorSpaceXform xform;] *)
Definition xform_key_uniform :=
  declare 3 30 "xform" Context.fColorSpaceXform_Type in_uniform (-1) Layout.kKey_Key.

(** [layout(key) in uniform float weight;] *)
Definition float_key_uniform :=
  declare 4 40 "weight" Context.fFloat_Type in_uniform (-1) Layout.kKey_Key.

(** [in uniform colorSpaceXform first;], [in uniform colorSpaceXform second;] *)
Definition xform_first :=
  declare 11 80 "first" Context.fColorSpaceXform_Type in_uniform (-1) Layout.kNo_Key.
Definition xform_second :=
  declare 12 90 "second" Context.fColorSpaceXform_Type in_uniform (-1) Layout.kNo_Key.

(** [uniform half4 tint;] *)
Definition uniform_half4 :=
  declare 13 95 "tint" Context.fHalf4_Type Modifiers.kUniform_Flag (-1) Layout.kNo_Key.

(** [in float x;], [in sampler2D image;], [in half2 p;] *)
Definition in_float :=
  declare 5 50 "x" Context.fFloat_Type Modifiers.kIn_Flag (-1) Layout.kNo_Key.
Definition in_sampler :=
  declare 6 60 "image" Context.fSampler2D_Type Modifiers.kIn_Flag (-1) Layout.kNo_Key.
Definition in_half2 :=
  declare 7 70 "p" Context.fHalf2_Type Modifiers.kIn_Flag (-1) Layout.kNo_Key.

(** The builtin arrays and colors. *)
Definition sk_TransformedCoords2D :=
  declare 8 0 "sk_TransformedCoords2D" Context.fFloat2_Type 0
          SK_TRANSFORMEDCOORDS2D_BUILTIN Layout.kNo_Key.
Definition sk_TextureSamplers :=
  declare 9 0 "sk_TextureSamplers" Context.fSampler2D_Type 0
          SK_TEXTURESAMPLERS_BUILTIN Layout.kNo_Key.
Definition sk_OutColor :=
  declare 10 0 "sk_OutColor" Context.fHalf4_Type 0 SK_OUTCOLOR_BUILTIN Layout.kNo_Key.

Definition void_Type :=
  Type_.mk "void" Type_.kOther_Kind Type_.kNonnumeric_NumberKind.

Definition main_declaration : FunctionDeclaration :=
  {| fd_fName := "main"; fd_fBuiltin := false; fd_fReturnType := void_Type;
     fd_fParameters := [] |}.

Definition declaration (var : Variable_.t) : ProgramElement :=
  VarElement {| fBaseType := Variable_.fType var;
                fVars := [ {| vd_fVar := var; vd_fValue := None |} ] |}.

Definition coords (index : Expression) : Expression :=
  IndexExpression 100 (VariableReference 101 sk_TransformedCoords2D) index.

Definition assign_out (e : Expression) : Statement :=
  ExpressionStatement
    (BinaryExpression 110 (VariableReference 111 sk_OutColor) Token.EQ e).

Definition empty_program : Program := {| fElements := [] |}.

(** [in float x; in sampler2D image; in half2 p;] *)
Definition parameters_program : Program :=
  {| fElements := [declaration in_float; declaration in_sampler;
                   declaration in_half2] |}.

(** Two color-space-transform uniforms, an ordinary uniform between them,
    and an empty main. *)
Definition two_xforms_program : Program :=
  {| fElements := [declaration xform_first; declaration uniform_half4;
                   declaration xform_second;
                   FunctionDefinition main_declaration []] |}.

(** [in float x;] and a main that assigns
    [sk_TransformedCoords2D[0] + sk_TransformedCoords2D[0] % (sk_TransformedCoords2D[1] * x)]
    to the output color: slot 0 twice, slot 1 once. *)
Definition coords_program : Program :=
  {| fElements :=
       [declaration in_float;
        FunctionDefinition main_declaration
          [assign_out
             (BinaryExpression 120 (coords (IntLiteral 121 0)) Token.PLUS
                (BinaryExpression 122 (coords (IntLiteral 123 0)) Token.PERCENT
                   (BinaryExpression 124 (coords (IntLiteral 125 1)) Token.STAR
                      (VariableReference 126 in_float))))]] |}.

(** A main that indexes sk_TransformedCoords2D with the parameter x. *)
Definition non_literal_index_program : Program :=
  {| fElements :=
       [declaration in_float;
        FunctionDefinition main_declaration
          [assign_out (coords (VariableReference 130 in_float))]] |}.

(** A main with a compound modulo assignment, [x %= 2]. *)
Definition percent_assign_program : Program :=
  {| fElements :=
       [FunctionDefinition main_declaration
          [ExpressionStatement
             (BinaryExpression 140 (VariableReference 141 sk_OutColor)
                               Token.PERCENTEQ (IntLiteral 142 2))]] |}.

Definition fresh (p : Program) : CPPCodeGenerator :=
  new_CPPCodeGenerator p [] "Sample" "".
End Samples.

(** ** Further sample declarations *)

Module Fixtures.
(** [in sampler2D mask;], a second sampler parameter *)
Definition in_sampler_mask :=
  Samples.declare 20 61 "mask" Context.fSampler2D_Type Modifiers.kIn_Flag (-1)
                  Layout.kNo_Key.

(** [in sampler2D image; in float x; in sampler2D mask;] *)
Definition sampler_pair_program : Program :=
  {| fElements := [Samples.declaration Samples.in_sampler;
                   Samples.declaration Samples.in_float;
                   Samples.declaration in_sampler_mask] |}.

(** [layout(key=identity) in float4x4 matrix;] and
    [layout(key=identity) in float weight;] *)
Definition matrix_identity_key :=
  Samples.declare 21 42 "matrix" Context.fFloat4x4_Type Modifiers.kIn_Flag (-1)
                  Layout.kIdentity_Key.
Definition float_identity_key :=
  Samples.declare 22 43 "weight" Context.fFloat_Type Modifiers.kIn_Flag (-1)
                  Layout.kIdentity_Key.

(** [layout(key) in float4x4 matrix;] *)
Definition matrix_raw_key :=
  Samples.declare 21 42 "matrix" Context.fFloat4x4_Type Modifiers.kIn_Flag (-1)
                  Layout.kKey_Key.

(** [in uniform colorSpaceXform third;] *)
Definition xform_third :=
  Samples.declare 23 91 "third" Context.fColorSpaceXform_Type Samples.in_uniform
                  (-1) Layout.kNo_Key.

(** [COLORSPACE(color, first)], a call of the builtin on a uniform color and
    a color-space transform *)
Definition COLORSPACE_declaration : FunctionDeclaration :=
  {| fd_fName := "COLORSPACE";
     fd_fBuiltin := true;
     fd_fReturnType := Context.fHalf4_Type;
     fd_fParameters := [] |}.
Definition COLORSPACE_call : Expression :=
  FunctionCall 70 COLORSPACE_declaration
    [VariableReference 71 Samples.uniform_half4;
     VariableReference 72 Samples.xform_first].

(** [@clone { return nullptr; }] and [@fields { int fCount; }] *)
Definition clone_section : Section :=
  {| sec_fName := "clone"; sec_fArgument := ""; sec_fText := "return nullptr;" |}.
Definition fields_section : Section :=
  {| sec_fName := "fields"; sec_fArgument := ""; sec_fText := "int fCount;" |}.
Definition clone_fields_program : Program :=
  {| fElements := [SectionElement fields_section; SectionElement clone_section] |}.
Definition fields_program : Program :=
  {| fElements := [SectionElement fields_section] |}.

(** [a % b % c] over integer literals, grouped to the left *)
Definition modulo_chain : Expression :=
  BinaryExpression 1
    (BinaryExpression 2 (IntLiteral 3 7) Token.PERCENT (IntLiteral 4 5))
    Token.PERCENT (IntLiteral 5 2).
End Fixtures.

(** ** Vocabulary of the further properties *)

(** The slot of the [k]-th sampler parameter, as getSamplerHandle names it
    (line 170). *)
Definition sampler_slot (k : Z) : string := "args.fTexSamplers[" +++ to_string k +++ "]".

(** A parameter on which writeGetKey ends the run: key mode raw on float4x4. *)
Definition fatal_key (param : Variable_.t) : bool :=
  negb (Type_.eqb (Variable_.fType param) Context.fColorSpaceXform_Type) &&
  match Layout.fKey (Variable_.layout param) with
  | Layout.kKey_Key => Type_.eqb (Variable_.fType param) Context.fFloat4x4_Type
  | _ => false
  end.

(** The error reported for a color-space-transform uniform after the first
    (lines 421-423). *)
Definition xform_error (u : Variable_.t) : Z * string :=
  (Variable_.fOffset u, "only a single ColorSpaceXform is supported").

(** The temporary a COLORSPACE call declares when the counter stands at [n]. *)
Definition tmpVar_declaration (n : Z) : string :=
  "half4 " +++ ("_tmpVar" +++ to_string n) +++ ";".

(** The counter of temporaries stands at [n] or above and the function
    header extends [h]. *)
Definition counter_from (n : Z) (h : string) (g : CPPCodeGenerator) : Prop :=
  n <= fVarCount g /\ exists more, fFunctionHeader g = h +++ more.

(** The color-space helper has been asked for. *)
Definition flag_set (g : CPPCodeGenerator) : Prop := fNeedColorSpaceHelper g = true.

(** [appends m]: a run of [m] that returns has only written to the output. *)
Definition appends {A} (m : Gen A) : Prop :=
  forall g a g', m g = Ok a g' -> exists text, g' = set_fOut (fOut g +++ text) g.

(** [runs P m]: from a generator in which [P] holds, [m] returns, having
    only written to the output. *)
Definition runs {A} (P : CPPCodeGenerator -> Prop) (m : Gen A) : Prop :=
  forall g, P g -> exists a text, m g = Ok a (set_fOut (fOut g +++ text) g).

(** The helper flag is set if a color-space-transform uniform needs it. *)
Definition flag_if (needed : bool) (g : CPPCodeGenerator) : Prop :=
  needed = true -> fNeedColorSpaceHelper g = true.

(** The condition that holds of every generator. *)
Definition always (g : CPPCodeGenerator) : Prop := True.

(** The errors writeGetKey reports for one parameter. *)
Definition key_errors (param : Variable_.t) : list (Z * string) :=
  if Type_.eqb (Variable_.fType param) Context.fColorSpaceXform_Type then []
  else
    (if match Layout.fKey (Variable_.layout param) with
        | Layout.kNo_Key => false
        | _ => true
        end && Modifiers.has (Variable_.flags param) Modifiers.kUniform_Flag
     then [(Variable_.fOffset param, "layout(key) may not be specified on uniforms")]
     else []) ++
    match Layout.fKey (Variable_.layout param) with
    | Layout.kIdentity_Key =>
        if Type_.Kind_eqb (Type_.kind (Variable_.fType param)) Type_.kMatrix_Kind
        then []
        else [(Variable_.fOffset param, "layout(key=identity) requires matrix type")]
    | _ => []
    end.

(** A generator that has reported [errs] more and written [text] more. *)
Definition reported (errs : list (Z * string)) (text : string)
           (g : CPPCodeGenerator) : CPPCodeGenerator :=
  set_fErrors (fErrors g ++ errs) (set_fOut (fOut g +++ text) g).

(** The output of the generator extends the text [o]. *)
Definition extends (o : string) (g : CPPCodeGenerator) : Prop :=
  exists text, fOut g = o +++ text.

(** [prints e prec g text g']: printing [e] from [g] returns with [g'],
    having appended [text] to the output. *)
Definition prints (e : Expression) (prec : Z) (g : CPPCodeGenerator)
           (text : string) (g' : CPPCodeGenerator) : Prop :=
  writeExpression e prec g = Ok tt g' /\ fOut g' = fOut g +++ text.

(** A binary expression with the modulo operator. *)
Definition is_modulo (e : Expression) : bool :=
  match e with
  | BinaryExpression _ _ op _ => Token_is_PERCENT op
  | _ => false
  end.

(** The parentheses of a modulo under a parent of the given precedence. *)
Definition opening (parentPrecedence : Z) : string :=
  if Precedence.kMultiplicative >=? parentPrecedence then "(" else "".
Definition closing (parentPrecedence : Z) : string :=
  if Precedence.kMultiplicative >=? parentPrecedence then ")" else "".

(** A uniform on which addUniform ends the run: eligible for registration,
    with a type outside its table (lines 346-366). *)
Definition unsupported_uniform (u : Variable_.t) : bool :=
  needs_uniform_var u && negb (supported_uniform_type (Variable_.fType u)).

(** * Properties *)

Lemma append_assoc (a b c : string) : (a +++ b) +++ c = a +++ (b +++ c).
Proof.
  induction a as [|x a IH]; cbn; [reflexivity | now rewrite IH].
Qed.

Lemma append_nil_r (a : string) : a +++ "" = a.
Proof.
  induction a as [|x a IH]; cbn; [reflexivity | now rewrite IH].
Qed.

Lemma fmt_scan_app (a b : string) (p : bool) :
  fmt_scan p (a +++ b) =
  let (n1, p1) := fmt_scan p a in
  let (n2, p2) := fmt_scan p1 b in
  ((n1 + n2)%nat, p2).
Proof.
  revert p. induction a as [|c a IH]; intros p.
  - cbn. destruct (fmt_scan p b); reflexivity.
  - cbn [String.append fmt_scan].
    destruct p, (Ascii.eqb c percent); rewrite ?IH;
      destruct (fmt_scan false a) as [n1 p1], (fmt_scan true a) as [n1' p1'];
      try destruct (fmt_scan p1 b); try destruct (fmt_scan p1' b); reflexivity.
Qed.

Lemma fmt_scan_app_complete a b n1 n2 :
  fmt_scan false a = (n1, false) -> fmt_scan false b = (n2, false) ->
  fmt_scan false (a +++ b) = ((n1 + n2)%nat, false).
Proof. intros Ha Hb. now rewrite fmt_scan_app, Ha, Hb. Qed.

Lemma no_percent_scan s : no_percent s = true -> fmt_scan false s = (0%nat, false).
Proof.
  induction s as [|c s IH]; cbn; [reflexivity|].
  intros H. apply andb_true_iff in H as [Hc Hs].
  apply negb_true_iff in Hc. rewrite Hc. auto.
Qed.

Lemma no_percent_app a b : no_percent (a +++ b) = no_percent a && no_percent b.
Proof.
  induction a as [|c a IH]; [reflexivity|].
  cbn [String.append no_percent].
  now rewrite IH, andb_assoc.
Qed.

Lemma no_percent_string_of_uint u : no_percent (NilEmpty.string_of_uint u) = true.
Proof. induction u; cbn; auto. Qed.

Lemma no_percent_to_string z : no_percent (to_string z) = true.
Proof.
  unfold to_string. destruct (Z.to_int z); cbn;
    apply no_percent_string_of_uint.
Qed.

#[local] Arguments String.append : simpl never.

Lemma bind_Ok {A B} (m : Gen A) (k : A -> Gen B) g a g' :
  m g = Ok a g' -> bind m k g = k a g'.
Proof. unfold bind; intros ->; reflexivity. Qed.

Lemma bind_Aborted {A B} (m : Gen A) (k : A -> Gen B) g msg g' :
  m g = Aborted msg g' -> bind m k g = Aborted msg g'.
Proof. unfold bind; intros ->; reflexivity. Qed.

Lemma Type_eqb_eq a b : Type_.eqb a b = true <-> Type_.fName a = Type_.fName b.
Proof. unfold Type_.eqb; apply String.eqb_eq. Qed.

Lemma Type_eqb_neq a b : Type_.eqb a b = false <-> Type_.fName a <> Type_.fName b.
Proof. unfold Type_.eqb; apply String.eqb_neq. Qed.

(** Symbolic execution of straight-line generator code. *)
Ltac run :=
  repeat (unfold bind, ret, gets, modify, when, write, writef, writeLine, error,
            push_back_fFormatArgs, ABORT, ASSERT; cbn).

Ltac norm_state :=
  unfold emitted, set_fOut, set_fErrors, set_fFunctionHeader,
    set_fExtraEmitCodeCode, set_fFormatArgs, set_fWrittenTransformedCoords,
    set_fNeedColorSpaceHelper, set_fVarCount; cbn;
  rewrite ?append_assoc, <- ?app_assoc, ?append_nil_r, ?app_nil_r.

Lemma has_true flags flag :
  Modifiers.has flags flag = true <-> Z.land flags flag <> 0.
Proof.
  unfold Modifiers.has; rewrite negb_true_iff, Z.eqb_neq; tauto.
Qed.

(** *** Uniform eligibility *)

Lemma needs_uniform_var_iff var :
  needs_uniform_var var = true <->
  Z.land (Variable_.flags var) Modifiers.kUniform_Flag <> 0 /\
  Type_.fName (Variable_.fType var) <> Type_.fName Context.fColorSpaceXform_Type.
Proof.
  unfold needs_uniform_var.
  rewrite andb_true_iff, has_true, negb_true_iff, String.eqb_neq.
  reflexivity.
Qed.



(** *** The runtime-value lowerer *)

(** C2: writeRuntimeValue appends, for a floating scalar type, the
    placeholder %f and the expression; for the integer type, %d and the
    expression; for the boolean type, %s and a conditional that evaluates to
    one of the literals "true" and "false"; for float2 and half2, the
    constructor call of the type with two placeholders and the .fX and .fY
    accessors of the expression; for any other type it writes the type name
    and ends the run. *)
Theorem C2_writeRuntimeValue (type : Type_.t) (cppCode : string)
        (g : CPPCodeGenerator) :
  (Type_.isFloat type = true ->
     writeRuntimeValue type cppCode g = Ok tt (emitted "%f" [cppCode] g)) /\
  (Type_.isFloat type = false -> Type_.fName type = "int" ->
     writeRuntimeValue type cppCode g = Ok tt (emitted "%d" [cppCode] g)) /\
  (Type_.isFloat type = false -> Type_.fName type = "bool" ->
     writeRuntimeValue type cppCode g =
     Ok tt (emitted "%s"
              ["(" +++ cppCode +++ " ? " +++ dq +++ "true" +++ dq +++ " : " +++
               dq +++ "false" +++ dq +++ ")"] g)) /\
  (Type_.isFloat type = false ->
   Type_.fName type = "float2" \/ Type_.fName type = "half2" ->
     writeRuntimeValue type cppCode g =
     Ok tt (emitted (Type_.name type +++ "(%f, %f)")
              [cppCode +++ ".fX"; cppCode +++ ".fY"] g) /\
     count_placeholders (Type_.name type +++ "(%f, %f)") = 2%nat) /\
  (Type_.isFloat type = false ->
   Type_.fName type <> "int" -> Type_.fName type <> "bool" ->
   Type_.fName type <> "float2" -> Type_.fName type <> "half2" ->
     writeRuntimeValue type cppCode g =
     Aborted ("unsupported runtime value type" +++ nl)
             (set_fOut (fOut g +++ Type_.name type +++ nl) g)).
Proof.
  unfold writeRuntimeValue, Type_.eqb, Type_.name.
  repeat split.
  - intros ->. run. norm_state. reflexivity.
  - intros -> ->. run. norm_state. reflexivity.
  - intros -> ->. run. norm_state. reflexivity.
  - destruct H0 as [-> | ->]; rewrite H; run; norm_state; reflexivity.
  - destruct H0 as [-> | ->]; reflexivity.
  - intros -> Hi Hb Hf Hh.
    apply String.eqb_neq in Hi, Hb, Hf, Hh.
    cbn [Context.fInt_Type Context.fBool_Type Context.fFloat2_Type
         Context.fHalf2_Type Type_.fName].
    rewrite Hi, Hb, Hf, Hh. run. norm_state. reflexivity.
Qed.

Lemma C2_writeRuntimeValue_witness :
  writeRuntimeValue Context.fHalf2_Type "_outer.p()" (Samples.fresh Samples.empty_program) =
  Ok tt (emitted "half2(%f, %f)" ["_outer.p().fX"; "_outer.p().fY"]
           (Samples.fresh Samples.empty_program)) /\
  writeRuntimeValue Context.fFloat_Type "_outer.x()" (Samples.fresh Samples.empty_program) =
  Ok tt (emitted "%f" ["_outer.x()"] (Samples.fresh Samples.empty_program)) /\
  aborted (writeRuntimeValue Context.fFloat4_Type "_outer.r()"
             (Samples.fresh Samples.empty_program)) = true.
Proof.
  pose proof (C2_writeRuntimeValue Context.fHalf2_Type "_outer.p()"
                (Samples.fresh Samples.empty_program)) as (_ & _ & _ & H2 & _).
  pose proof (C2_writeRuntimeValue Context.fFloat_Type "_outer.x()"
                (Samples.fresh Samples.empty_program)) as (Hf & _).
  pose proof (C2_writeRuntimeValue Context.fFloat4_Type "_outer.r()"
                (Samples.fresh Samples.empty_program)) as (_ & _ & _ & _ & Ha).
  split; [|split].
  - apply H2; [reflexivity | right; reflexivity].
  - apply Hf; reflexivity.
  - rewrite Ha; [reflexivity | reflexivity | discriminate ..].
Defined.

(** *** Sampler handles *)

Lemma sampler_count_cons q pre :
  sampler_count (q :: pre) = (if is_sampler q then 1 else 0) + sampler_count pre.
Proof.
  unfold sampler_count. cbn [filter].
  destruct (is_sampler q); cbn [List.length]; lia.
Qed.

Lemma getSamplerHandle_loop_found var pre param post n g :
  Variable_.same var param = true ->
  forallb (fun q => negb (Variable_.same var q)) pre = true ->
  getSamplerHandle_loop var n (pre ++ param :: post) g =
  Ok ("args.fTexSamplers[" +++ to_string (n + sampler_count pre) +++ "]") g.
Proof.
  intros Hsame. revert n.
  induction pre as [|q pre IH]; intros n Hpre; cbn [app getSamplerHandle_loop].
  - rewrite Hsame. unfold sampler_count; cbn. now rewrite Z.add_0_r.
  - cbn in Hpre. apply andb_true_iff in Hpre as [Hq Hpre].
    apply negb_true_iff in Hq. rewrite Hq, IH by assumption.
    rewrite sampler_count_cons. fold (is_sampler q).
    destruct (is_sampler q); do 4 f_equal; lia.
Qed.

Lemma getSamplerHandle_loop_missing var params n g :
  forallb (fun q => negb (Variable_.same var q)) params = true ->
  getSamplerHandle_loop var n params g =
  Aborted ("should have found sampler in parameters" +++ nl) g.
Proof.
  revert n. induction params as [|q params IH]; intros n H; cbn.
  - reflexivity.
  - cbn in H. apply andb_true_iff in H as [Hq H].
    apply negb_true_iff in Hq. rewrite Hq. now apply IH.
Qed.

Lemma getSamplerHandle_loop_same_address var var' params n g :
  Variable_.fAddr var' = Variable_.fAddr var ->
  getSamplerHandle_loop var' n params g = getSamplerHandle_loop var n params g.
Proof.
  intros E. revert n. induction params as [|q params IH]; intros n; cbn.
  - reflexivity.
  - unfold Variable_.same. rewrite E. destruct (_ =? _)%N; [reflexivity | apply IH].
Qed.

(** C10: for a variable that occurs among the parameters, getSamplerHandle
    returns the accessor of the sampler slot k, where k counts the
    sampler-typed parameters declared before it; for a variable that is not
    a parameter the run ends.  The slot depends on the identity of the
    variable only, not on its type. *)
Theorem C10_getSamplerHandle (var : Variable_.t) (g : CPPCodeGenerator) :
  let params := SectionAndParameterHelper.getParameters (fSectionAndParameterHelper g) in
  (forall pre param post,
      params = pre ++ param :: post ->
      Variable_.same var param = true ->
      forallb (fun q => negb (Variable_.same var q)) pre = true ->
      getSamplerHandle var g =
      Ok ("args.fTexSamplers[" +++ to_string (sampler_count pre) +++ "]") g) /\
  (forallb (fun q => negb (Variable_.same var q)) params = true ->
      getSamplerHandle var g =
      Aborted ("should have found sampler in parameters" +++ nl) g) /\
  (forall var', Variable_.fAddr var' = Variable_.fAddr var ->
      getSamplerHandle var' g = getSamplerHandle var g).
Proof.
  cbn zeta. unfold getSamplerHandle. repeat split.
  - intros pre param post E Hs Hpre. run. rewrite E.
    now rewrite getSamplerHandle_loop_found.
  - intros H. run. now apply getSamplerHandle_loop_missing.
  - intros var' E. run. now apply getSamplerHandle_loop_same_address.
Qed.

(** *** Index expressions with a non-literal index *)

(** C8: an index expression into sk_TransformedCoords2D or sk_TextureSamplers
    whose index is no integer literal reports one error at the offset of the
    index (the operand between the brackets, [i.fIndex->fOffset] in the
    source) and returns normally; the placeholder written before the check is
    all it has written, and no format argument, cache statement or cached
    index has been added. *)
Theorem C8_non_literal_index (o ov : Z) (v : Variable_.t) (index : Expression)
        (parentPrecedence : Z) (g : CPPCodeGenerator) :
  is_IntLiteral index = false ->
  (Layout.fBuiltin (Variable_.layout v) = SK_TRANSFORMEDCOORDS2D_BUILTIN ->
     writeExpression (IndexExpression o (VariableReference ov v) index)
                     parentPrecedence g =
     Ok tt (set_fErrors
              (fErrors g ++
               [(expr_offset index,
                 "index into sk_TransformedCoords2D must be an integer literal")])
              (set_fOut (fOut g +++ "%s") g))) /\
  (Layout.fBuiltin (Variable_.layout v) = SK_TEXTURESAMPLERS_BUILTIN ->
     writeExpression (IndexExpression o (VariableReference ov v) index)
                     parentPrecedence g =
     Ok tt (set_fErrors
              (fErrors g ++
               [(expr_offset index,
                 "index into sk_TextureSamplers must be an integer literal")])
              (set_fOut (fOut g +++ "%s") g))).
Proof.
  intros Hlit. cbn [writeExpression]. unfold writeIndexExpression.
  split; intros ->; cbn [Z.eqb SK_TRANSFORMEDCOORDS2D_BUILTIN
                           SK_TEXTURESAMPLERS_BUILTIN Pos.eqb];
    destruct index; try discriminate Hlit; run; norm_state; reflexivity.
Qed.

Lemma C8_non_literal_index_witness :
  let g := Samples.fresh Samples.empty_program in
  let g' := final (writeExpression
                     (Samples.coords (VariableReference 7 Samples.in_float)) 18 g) in
  fOut g' = "%s" /\ fFormatArgs g' = [] /\ fExtraEmitCodeCode g' = "" /\
  fErrors g' = [(7, "index into sk_TransformedCoords2D must be an integer literal")].
Proof.
  cbn zeta. unfold Samples.coords.
  rewrite (proj1 (C8_non_literal_index 100 101 Samples.sk_TransformedCoords2D
                    (VariableReference 7 Samples.in_float) 18
                    (Samples.fresh Samples.empty_program) eq_refl) eq_refl).
  repeat split.
Defined.

Lemma C10_getSamplerHandle_witness :
  let g := Samples.fresh Samples.parameters_program in
  getSamplerHandle Samples.in_half2 g = Ok "args.fTexSamplers[1]" g /\
  getSamplerHandle Samples.in_sampler g = Ok "args.fTexSamplers[0]" g /\
  aborted (getSamplerHandle Samples.sk_OutColor g) = true.
Proof.
  cbn zeta.
  pose proof (C10_getSamplerHandle Samples.in_half2
                (Samples.fresh Samples.parameters_program)) as (H1 & _).
  pose proof (C10_getSamplerHandle Samples.in_sampler
                (Samples.fresh Samples.parameters_program)) as (H2 & _).
  pose proof (C10_getSamplerHandle Samples.sk_OutColor
                (Samples.fresh Samples.parameters_program)) as (_ & H3 & _).
  split; [|split].
  - apply (H1 [Samples.in_float; Samples.in_sampler] Samples.in_half2 []);
      reflexivity.
  - apply (H2 [Samples.in_float] Samples.in_sampler [Samples.in_half2]);
      reflexivity.
  - rewrite H3; reflexivity.
Defined.

(** *** Key contributions *)

(** What writeGetKey prints for one parameter with key mode [key] (raw) that
    carries no uniform flag: two contributions for float2, four for float4,
    the end of the run for float4x4, one contribution for any other type
    that is not the color-space-transform type; nothing for key mode none. *)
Lemma writeGetKey_param_raw (param : Variable_.t) (g : CPPCodeGenerator) :
  let ty := Variable_.fType param in
  let field := HCodeGenerator.FieldName (Variable_.fName param) in
  Type_.eqb ty Context.fColorSpaceXform_Type = false ->
  Modifiers.has (Variable_.flags param) Modifiers.kUniform_Flag = false ->
  (Layout.fKey (Variable_.layout param) = Layout.kNo_Key ->
     writeGetKey_param param g = Ok tt g) /\
  (Layout.fKey (Variable_.layout param) = Layout.kKey_Key ->
     (Type_.fName ty = "float4x4" ->
        writeGetKey_param param g =
        Aborted ("no automatic key handling for float4x4" +++ nl) g) /\
     (Type_.fName ty = "float2" ->
        writeGetKey_param param g =
        Ok tt (set_fOut (fOut g +++ add32 (field +++ ".fX") +++
                         add32 (field +++ ".fY")) g)) /\
     (Type_.fName ty = "float4" ->
        writeGetKey_param param g =
        Ok tt (set_fOut (fOut g +++ add32 (field +++ ".x()") +++
                         add32 (field +++ ".y()") +++
                         add32 (field +++ ".width()") +++
                         add32 (field +++ ".height()")) g)) /\
     (Type_.fName ty <> "float4x4" -> Type_.fName ty <> "float2" ->
      Type_.fName ty <> "float4" ->
        writeGetKey_param param g = Ok tt (set_fOut (fOut g +++ add32 field) g))).
Proof.
  cbn zeta. intros Hx Hu. unfold writeGetKey_param. rewrite Hx, Hu.
  unfold Type_.eqb; cbn [Context.fFloat4x4_Type Context.fFloat2_Type
                          Context.fFloat4_Type Type_.fName].
  split; [intros ->; destruct g; reflexivity|].
  intros ->. rewrite andb_false_r. unfold add32. repeat split.
  - intros ->. destruct g; reflexivity.
  - intros ->. run. norm_state. reflexivity.
  - intros ->. run. norm_state. reflexivity.
  - intros H1 H2 H3. apply String.eqb_neq in H1, H2, H3. rewrite H1, H2, H3.
    run. norm_state. reflexivity.
Qed.

(** C3 (where the source departs from it): with key mode raw, the 2-component
    vector half2 and the 4-component vector half4 get one contribution each,
    the field itself, where their siblings float2 and float4 get two and
    four. *)
Theorem C3_half_vectors_one_contribution :
  forall g : CPPCodeGenerator,
    writeGetKey_param Samples.half2_key g =
    Ok tt (set_fOut (fOut g +++ add32 "fScale") g) /\
    writeGetKey_param Samples.half4_key g =
    Ok tt (set_fOut (fOut g +++ add32 "fRect") g) /\
    writeGetKey_param Samples.float2_key g =
    Ok tt (set_fOut (fOut g +++ add32 "fScale.fX" +++ add32 "fScale.fY") g) /\
    writeGetKey_param Samples.float4_key g =
    Ok tt (set_fOut (fOut g +++ add32 "fRect.x()" +++ add32 "fRect.y()" +++
                     add32 "fRect.width()" +++ add32 "fRect.height()") g).
Proof.
  intros g.
  destruct (writeGetKey_param_raw Samples.half2_key g eq_refl eq_refl)
    as (_ & _ & _ & _ & H2); [reflexivity|].
  destruct (writeGetKey_param_raw Samples.half4_key g eq_refl eq_refl)
    as (_ & _ & _ & _ & H4); [reflexivity|].
  destruct (writeGetKey_param_raw Samples.float2_key g eq_refl eq_refl)
    as (_ & _ & F2 & _); [reflexivity|].
  destruct (writeGetKey_param_raw Samples.float4_key g eq_refl eq_refl)
    as (_ & _ & _ & F4 & _); [reflexivity|].
  split; [|split; [|split]].
  - rewrite H2 by discriminate; reflexivity.
  - rewrite H4 by discriminate; reflexivity.
  - rewrite F2 by reflexivity; reflexivity.
  - rewrite F4 by reflexivity; reflexivity.
Qed.

(** C6, as stated, fails: a color-space-transform parameter with a key mode
    and the uniform flag gets no error. *)
Lemma C6_counterexample :
  ~ (forall (param : Variable_.t) (g : CPPCodeGenerator),
        Layout.fKey (Variable_.layout param) <> Layout.kNo_Key ->
        Modifiers.has (Variable_.flags param) Modifiers.kUniform_Flag = true ->
        In (Variable_.fOffset param, "layout(key) may not be specified on uniforms")
           (fErrors (final (writeGetKey_param param g)))).
Proof.
  intros H.
  specialize (H Samples.xform_key_uniform (Samples.fresh Samples.empty_program)).
  cbn in H. apply H; [discriminate | reflexivity].
Qed.

(** C6, amended: a parameter that is not of the color-space-transform type,
    has a key mode other than none and carries the uniform flag gets the error
    "layout(key) may not be specified on uniforms" at its offset (whatever the
    key builder does next); a parameter of the color-space-transform type gets
    the key contribution of its type and nothing else, no error either,
    whatever its key mode and flags. *)
Theorem C6_key_on_uniform (param : Variable_.t) (g : CPPCodeGenerator) :
  (Type_.eqb (Variable_.fType param) Context.fColorSpaceXform_Type = false ->
   Layout.fKey (Variable_.layout param) <> Layout.kNo_Key ->
   Modifiers.has (Variable_.flags param) Modifiers.kUniform_Flag = true ->
     exists rest,
       fErrors (final (writeGetKey_param param g)) =
       fErrors g ++
       (Variable_.fOffset param, "layout(key) may not be specified on uniforms") :: rest) /\
  (Type_.eqb (Variable_.fType param) Context.fColorSpaceXform_Type = true ->
     writeGetKey_param param g =
     Ok tt (set_fOut
              (fOut g +++ "    b->add32(GrColorSpaceXform::XformKey(" +++
               HCodeGenerator.FieldName (Variable_.fName param) +++ ".get()));" +++ nl)
              g)).
Proof.
  unfold writeGetKey_param. split.
  - intros -> Hk ->.
    destruct (Layout.fKey (Variable_.layout param)); [congruence | |].
    + repeat match goal with
             | |- context [if ?c then _ else _] => destruct c
             end; run; norm_state; eexists; reflexivity.
    + destruct (negb _); run; norm_state; eexists; reflexivity.
  - intros ->. run. norm_state. reflexivity.
Qed.

Lemma C6_key_on_uniform_witness :
  let g := Samples.fresh Samples.empty_program in
  (exists rest,
      fErrors (final (writeGetKey_param Samples.float_key_uniform g)) =
      (40, "layout(key) may not be specified on uniforms") :: rest) /\
  fErrors (final (writeGetKey_param Samples.xform_key_uniform g)) = [].
Proof.
  cbn zeta.
  pose proof (C6_key_on_uniform Samples.float_key_uniform
                (Samples.fresh Samples.empty_program)) as (H1 & _).
  pose proof (C6_key_on_uniform Samples.xform_key_uniform
                (Samples.fresh Samples.empty_program)) as (_ & H2).
  split.
  - apply H1; [reflexivity | discriminate | reflexivity].
  - rewrite H2; reflexivity.
Defined.

(** *** The color-space helper *)

Lemma set_fOut_same g : set_fOut (fOut g) g = g.
Proof. destruct g; reflexivity. Qed.

Lemma addUniform_plain u g :
  plain_uniform u = true ->
  exists text, addUniform u g = Ok tt (set_fOut (fOut g +++ text) g).
Proof.
  unfold plain_uniform, supported_uniform_type, addUniform. cbn [existsb].
  intros H. apply andb_true_iff in H as [_ H].
  destruct (needs_uniform_var u); cbn [negb].
  - repeat match goal with
           | |- context [Type_.eqb ?a ?b] => destruct (Type_.eqb a b)
           end; try discriminate H;
      destruct (negb (Layout.fWhen (Variable_.layout u) =? "")%string);
      run; norm_state; eexists; reflexivity.
  - exists "". rewrite append_nil_r, set_fOut_same. reflexivity.
Qed.

Lemma writeEmitCode_uniform_plain u g :
  plain_uniform u = true ->
  exists text, writeEmitCode_uniform u g = Ok tt (set_fOut (fOut g +++ text) g).
Proof.
  intros H. destruct (addUniform_plain u g H) as [text E].
  exists text. unfold writeEmitCode_uniform.
  rewrite (bind_Ok _ _ _ _ _ E).
  unfold plain_uniform in H. apply andb_true_iff in H as [H _].
  apply negb_true_iff in H. rewrite H. reflexivity.
Qed.

Lemma forM_app {A} (f : A -> Gen unit) l1 l2 g :
  forM_ f (l1 ++ l2) g = (forM_ f l1 ;; forM_ f l2) g.
Proof.
  revert g. induction l1 as [|x l1 IH]; intros g; cbn.
  - reflexivity.
  - unfold bind. destruct (f x g); [rewrite IH | ]; reflexivity.
Qed.

Lemma writeEmitCode_uniforms_plain l g :
  forallb plain_uniform l = true ->
  exists text,
    forM_ writeEmitCode_uniform l g = Ok tt (set_fOut (fOut g +++ text) g).
Proof.
  revert g. induction l as [|u l IH]; intros g H.
  - exists "". cbn. rewrite append_nil_r, set_fOut_same. reflexivity.
  - cbn in H. apply andb_true_iff in H as [Hu Hl].
    destruct (writeEmitCode_uniform_plain u g Hu) as [t1 E1].
    destruct (IH (set_fOut (fOut g +++ t1) g) Hl) as [t2 E2].
    exists (t1 +++ t2). cbn [forM_].
    rewrite (bind_Ok _ _ _ _ _ E1), E2. norm_state. reflexivity.
Qed.

Lemma writeEmitCode_uniform_xform u g :
  is_xform u = true ->
  writeEmitCode_uniform u g =
  Ok tt (set_fOut (fOut g +++ helper_emitCode u)
           (set_fNeedColorSpaceHelper true
              (set_fErrors
                 (fErrors g ++
                  if fNeedColorSpaceHelper g
                  then [(Variable_.fOffset u, "only a single ColorSpaceXform is supported")]
                  else []) g))).
Proof.
  unfold is_xform, writeEmitCode_uniform, addUniform, needs_uniform_var, helper_emitCode.
  intros H. rewrite H. apply Type_eqb_eq in H. rewrite H.
  cbn [Context.fColorSpaceXform_Type Type_.fName].
  rewrite String.eqb_refl, andb_false_r. cbn [negb].
  destruct (fNeedColorSpaceHelper g) eqn:E; run; rewrite E; run; norm_state;
    reflexivity.
Qed.



(** The whole generation on a program with two color-space-transform
    uniforms: it returns, with the result false, one reported error, and
    one helper field in the class. *)
Lemma two_xforms_generateCode :
  exists g,
    generateCode (Samples.fresh Samples.two_xforms_program) = Ok false g /\
    fErrors g = [(90, "only a single ColorSpaceXform is supported")] /\
    fNeedColorSpaceHelper g = true.
Proof. eexists. vm_compute. repeat split. Qed.

(** *** Placeholders and format arguments *)

Lemma tally_ret {A} (a : A) : tally 0 (ret a).
Proof.
  intros g b g' Hg E. inversion E; subst; clear E. split; [assumption|].
  exists "", [], [], 0%nat. rewrite append_nil_r, !app_nil_r. repeat split; auto using Forall_nil.
Qed.

Lemma tally_bind {A B} k1 k (m : Gen A) (f : A -> Gen B) :
  tally k1 m -> (forall a, tally (k - k1) (f a)) -> tally k (bind m f).
Proof.
  intros Hm Hf g b g' Hg E. unfold bind in E.
  destruct (m g) as [a g1|] eqn:Em; [|discriminate].
  destruct (Hm _ _ _ Hg Em) as (Hg1 & t1 & a1 & e1 & c1 & O1 & A1 & E1 & I1 & S1 & K1).
  destruct (Hf a _ _ _ Hg1 E) as (Hg2 & t2 & a2 & e2 & c2 & O2 & A2 & E2 & I2 & S2 & K2).
  split; [assumption|].
  exists (t1 +++ t2), (a1 ++ a2), (e1 ++ e2), (c1 + c2)%nat.
  rewrite O2, O1, A2, A1, E2, E1, append_assoc, <- !app_assoc, !length_app.
  repeat split.
  - apply Forall_app; auto.
  - now apply fmt_scan_app_complete.
  - lia.
Qed.

Lemma tally_frame {A} (f : CPPCodeGenerator -> A * CPPCodeGenerator) :
  (forall g, fOut (snd (f g)) = fOut g /\ fFormatArgs (snd (f g)) = fFormatArgs g /\
             fErrors (snd (f g)) = fErrors g /\ (good g -> good (snd (f g)))) ->
  tally 0 (fun g => Ok (fst (f g)) (snd (f g))).
Proof.
  intros H g a g' Hg E. inversion E; subst; clear E.
  destruct (H g) as (O & A' & E' & G). split; [auto|].
  exists "", [], [], 0%nat. rewrite append_nil_r, !app_nil_r. repeat split; auto using Forall_nil.
Qed.

Lemma tally_gets {A} (f : CPPCodeGenerator -> A) : tally 0 (gets f).
Proof. apply (tally_frame (fun g => (f g, g))). intros g; cbn; auto. Qed.

Lemma tally_write s c : fmt_scan false s = (c, false) -> tally (Z.of_nat c) (write s).
Proof.
  intros Hs g a g' Hg E. inversion E; subst; clear E. split; [exact Hg|].
  exists s, [], [], c. cbn. rewrite !app_nil_r. repeat split; auto; try lia.
Qed.

Lemma tally_write_clean s : no_percent s = true -> tally 0 (write s).
Proof. intros H. apply (tally_write s 0), no_percent_scan, H. Qed.

Lemma tally_push s : tally (-1) (push_back_fFormatArgs s).
Proof.
  intros g a g' Hg E. inversion E; subst; clear E. split; [exact Hg|].
  exists "", [s], [], 0%nat. cbn. rewrite append_nil_r, app_nil_r. repeat split; auto using Forall_nil.
Qed.

Lemma tally_error o msg : index_error (o, msg) -> tally (-1) (error o msg).
Proof.
  intros Hi g a g' Hg E. inversion E; subst; clear E. split; [exact Hg|].
  exists "", [], [(o, msg)], 0%nat. cbn. rewrite append_nil_r, app_nil_r.
  repeat split. constructor; [exact Hi | constructor].
Qed.

Lemma tally_ABORT {A} k msg : tally k (@ABORT A msg).
Proof. intros g a g' _ E. discriminate E. Qed.

Lemma tally_ASSERT b : tally 0 (ASSERT b).
Proof. destruct b; [apply tally_ret | apply tally_ABORT]. Qed.

Lemma tally_when b m : tally 0 m -> tally 0 (when b m).
Proof. destruct b; [auto | intros _; apply tally_ret]. Qed.

Lemma tally_writeLine s : no_percent s = true -> tally 0 (writeLine s).
Proof.
  intros H g a g' Hg E. unfold writeLine in E. cbn in E. inversion E; subst; clear E.
  split; [exact Hg|].
  exists (s +++ fLineEnding g), [], [], 0%nat. cbn.
  rewrite !app_nil_r, append_assoc. repeat split; [constructor|].
  apply no_percent_scan. rewrite no_percent_app, H. apply Hg.
Qed.

Lemma tally_forM_ {A} (f : A -> Gen unit) l :
  Forall (fun x => tally 0 (f x)) l -> tally 0 (forM_ f l).
Proof.
  induction 1 as [|x l Hx _ IH]; cbn [forM_].
  - apply tally_ret.
  - eapply tally_bind; [exact Hx | intros _; exact IH].
Qed.

Lemma tally_forSep {A} (f : A -> Gen unit) sep l :
  no_percent sep = true ->
  Forall (fun x => tally 0 (f x)) l -> tally 0 (forSep f sep l).
Proof.
  intros Hsep H. revert sep Hsep.
  induction H as [|x l Hx _ IH]; intros sep Hsep; cbn [forSep].
  - apply tally_ret.
  - eapply tally_bind; [apply tally_write_clean, Hsep | intros _].
    eapply tally_bind; [exact Hx | intros _]. now apply IH.
Qed.

Lemma tally_eq {A} k k' (m : Gen A) : tally k' m -> k = k' -> tally k m.
Proof. now intros H ->. Qed.

Lemma tally_bind_up {A B} k1 k2 (m : Gen A) (f : A -> Gen B) :
  tally k1 m -> (forall a, tally k2 (f a)) -> tally (k1 + k2) (bind m f).
Proof.
  intros Hm Hf. apply (tally_bind k1); [exact Hm|].
  intros a. replace (k1 + k2 - k1) with k2 by lia. apply Hf.
Qed.

Lemma tally_pure {A} (m : Gen A) :
  (forall g a g', m g = Ok a g' -> g' = g) -> tally 0 m.
Proof.
  intros H g a g' Hg E. apply H in E as ->. split; [exact Hg|].
  exists "", [], [], 0%nat. rewrite append_nil_r, !app_nil_r. repeat split; auto using Forall_nil.
Qed.

Lemma tally_modify f :
  (forall g, fOut (f g) = fOut g /\ fFormatArgs (f g) = fFormatArgs g /\
             fErrors (f g) = fErrors g /\ (good g -> good (f g))) ->
  tally 0 (modify f).
Proof. intros H. apply (tally_frame (fun g => (tt, f g))), H. Qed.

Create HintDb tally.

Ltac np :=
  repeat rewrite no_percent_app;
  repeat rewrite no_percent_to_string;
  cbn [andb];
  repeat match goal with
         | H : no_percent ?s = true |- context [no_percent ?s] => rewrite H
         end;
  cbn [andb];
  first [ reflexivity | assumption | vm_compute; reflexivity ].

Ltac tally_leaf :=
  first
    [ apply tally_ret
    | apply tally_push
    | apply tally_error; solve [left; reflexivity | right; reflexivity]
    | apply tally_gets
    | apply tally_ASSERT
    | apply tally_ABORT
    | eapply tally_write; reflexivity
    | apply tally_write_clean; solve [np]
    | apply tally_writeLine; solve [np]
    | solve [eauto with tally]
    | apply tally_modify; intros ?; unfold good; cbn; solve [intuition auto]
    | apply tally_forSep; [ solve [np] | ]
    | apply tally_forM_ ].

Ltac tally_up :=
  lazymatch goal with
  | |- tally _ (bind _ _) =>
      eapply tally_bind_up; [ tally_up | intros ?; tally_up ]
  | |- tally _ (when _ _) =>
      eapply tally_eq; [ apply tally_when; tally_branch | reflexivity ]
  | |- tally _ (match ?x with _ => _ end) =>
      destruct x eqn:?; cbv beta iota; tally_branch
  | |- _ => tally_leaf
  end
with tally_branch :=
  eapply tally_eq; [ tally_up | first [ reflexivity | vm_compute; reflexivity ] ].

Ltac tally_auto := tally_branch.

Lemma getSamplerHandle_loop_state var n params g a g' :
  getSamplerHandle_loop var n params g = Ok a g' -> g' = g.
Proof.
  revert n. induction params as [|q params IH]; intros n; cbn.
  - discriminate.
  - destruct (Variable_.same var q); [|apply IH].
    intros E; inversion E; reflexivity.
Qed.

Lemma tally_getSamplerHandle var : tally 0 (getSamplerHandle var).
Proof.
  apply tally_pure. intros g a g' E. unfold getSamplerHandle in E. cbn in E.
  now apply getSamplerHandle_loop_state in E.
Qed.
#[local] Hint Resolve tally_getSamplerHandle : tally.

Lemma tally_default_value ty : tally 0 (default_value ty).
Proof. unfold default_value. tally_auto. Qed.
#[local] Hint Resolve tally_default_value : tally.

Lemma tally_writeRuntimeValue ty code : tally 0 (writeRuntimeValue ty code).
Proof.
  unfold writeRuntimeValue.
  destruct (Type_.isFloat ty); [tally_auto|].
  destruct (Type_.eqb ty Context.fInt_Type); [tally_auto|].
  destruct (Type_.eqb ty Context.fBool_Type); [tally_auto|].
  destruct (Type_.eqb ty Context.fFloat2_Type) eqn:E2; cbn [orb].
  - apply Type_eqb_eq in E2. unfold Type_.name. rewrite E2. tally_auto.
  - destruct (Type_.eqb ty Context.fHalf2_Type) eqn:E3.
    + apply Type_eqb_eq in E3. unfold Type_.name. rewrite E3. tally_auto.
    + intros g a g' _ E. cbv [bind write modify ABORT] in E. discriminate E.
Qed.
#[local] Hint Resolve tally_writeRuntimeValue : tally.

Lemma tally_writeIntLiteral v : tally 0 (writeIntLiteral v).
Proof. unfold writeIntLiteral. tally_auto. Qed.

Lemma tally_writeVariableReference v :
  no_percent (Variable_.fName v) = true -> tally 0 (writeVariableReference v).
Proof. intros H. unfold writeVariableReference. tally_auto. Qed.

Lemma tally_writeSetting n ty :
  no_percent n = true -> tally 0 (writeSetting n ty).
Proof. intros H. unfold writeSetting. tally_auto. Qed.
#[local] Hint Resolve tally_writeIntLiteral tally_writeVariableReference
  tally_writeSetting : tally.

Lemma Forall_wf_tally (args : list Expression) prec :
  Forall (fun e => wf_expression e = true ->
                   forall p, tally 0 (writeExpression e p)) args ->
  forallb wf_expression args = true ->
  Forall (fun e => tally 0 (writeExpression e prec)) args.
Proof.
  induction 1 as [|x l Hx _ IH]; cbn; intros H; constructor.
  - apply andb_true_iff in H as [H _]. auto.
  - apply andb_true_iff in H as [_ H]. auto.
Qed.

Lemma no_percent_component c : no_percent (component_name c) = true.
Proof. destruct c; reflexivity. Qed.

Lemma tally_writeExpression e :
  wf_expression e = true -> forall prec, tally 0 (writeExpression e prec).
Proof.
  induction e using Expression_induction; cbn [wf_expression writeExpression];
    intros Hwf prec;
    repeat match goal with
           | H : _ && _ = true |- _ => apply andb_true_iff in H as [? ?]
           end.
  - destruct b; tally_auto.
  - tally_auto.
  - tally_auto.
  - unfold writeBinaryExpression, INHERITED_writeBinaryExpression.
    destruct (Token_is_PERCENT op) eqn:Eop.
    + tally_auto.
    + cbn [orb] in *. tally_auto.
  - unfold writeIndexExpression, INHERITED_writeIndexExpression. tally_auto.
  - unfold writeFunctionCall, INHERITED_writeFunctionCall.
    pose proof (Forall_wf_tally args Precedence.kSequence H H1) as Hseq.
    pose proof (Forall_wf_tally args Precedence.kTopLevel H H1) as Htop.
    destruct (fd_fBuiltin f && (fd_fName f =? "COLORSPACE")%string).
    + destruct args as [|arg0 [|arg1 rest]];
        try (intros g a g' _ E; cbv [bind modify gets ASSERT ABORT List.length Nat.eqb] in E;
             discriminate E).
      inversion Htop as [|? ? Harg0 _]; subst.
      eapply tally_eq.
      * eapply tally_bind_up; [tally_up | intros _].
        eapply tally_bind_up; [tally_up | intros count].
        eapply tally_bind_up.
        { apply tally_modify. intros g. unfold good; cbn. intuition auto. np. }
        intros _. tally_up.
      * reflexivity.
    + tally_auto. exact Hseq.
  - unfold writeConstructor. tally_auto. now apply Forall_wf_tally.
  - unfold writeSwizzle. tally_auto.
    apply Forall_forall. intros c _.
    apply tally_write_clean, no_percent_component.
  - unfold writeTernaryExpression. tally_auto.
  - tally_auto.
Qed.
#[local] Hint Resolve tally_writeExpression : tally.

Lemma tally_writeVarInitializer var value :
  wf_expression value = true -> tally 0 (writeVarInitializer var value).
Proof. intros H. unfold writeVarInitializer. tally_auto. Qed.
#[local] Hint Resolve tally_writeVarInitializer : tally.

Lemma tally_writeVarDeclarations_loop base wrote vars :
  no_percent (Type_.name base) = true ->
  forallb (fun var =>
             no_percent (Variable_.fName (vd_fVar var)) &&
             match vd_fValue var with
             | Some value => wf_expression value
             | None => true
             end) vars = true ->
  tally 0 (writeVarDeclarations_loop base wrote vars).
Proof.
  intros Hb. revert wrote.
  induction vars as [|var vars IH]; intros wrote H; cbn [writeVarDeclarations_loop].
  - tally_auto.
  - cbn in H. apply andb_true_iff in H as [Hv H].
    apply andb_true_iff in Hv as [Hn Hv].
    specialize (IH true H). unfold getTypeName.
    destruct (vd_fValue var); tally_auto.
Qed.

Lemma tally_writeVarDeclarations d global :
  wf_declarations d = true -> tally 0 (writeVarDeclarations d global).
Proof.
  unfold wf_declarations, writeVarDeclarations. intros H.
  apply andb_true_iff in H as [H1 H2].
  now apply tally_writeVarDeclarations_loop.
Qed.
#[local] Hint Resolve tally_writeVarDeclarations : tally.

Lemma Forall_wf_statements (stmts : list Statement) :
  Forall (fun s => wf_statement s = true -> tally 0 (writeStatement s)) stmts ->
  forallb wf_statement stmts = true ->
  Forall (fun s => tally 0 (writeStatement s ;; writeLine "")) stmts.
Proof.
  induction 1 as [|x l Hx _ IH]; cbn; intros H; constructor.
  - apply andb_true_iff in H as [H _]. specialize (Hx H). tally_auto.
  - apply andb_true_iff in H as [_ H]. auto.
Qed.

Lemma tally_writeStatement s :
  wf_statement s = true -> tally 0 (writeStatement s).
Proof.
  induction s using Statement_induction; cbn [wf_statement writeStatement];
    intros Hwf;
    repeat match goal with
           | H : _ && _ = true |- _ => apply andb_true_iff in H as [? ?]
           end.
  - unfold writeBlock. tally_auto. now apply Forall_wf_statements.
  - tally_auto.
  - destruct e; tally_auto.
  - unfold writeIfStatement, INHERITED_writeIfStatement.
    destruct b as [b|]; cbn [P_option] in *; tally_auto.
  - unfold writeSwitchStatement, INHERITED_writeSwitchStatement. tally_auto.
    clear - H H1. induction H as [|c cases Hc _ IH]; constructor.
    + cbn in H1. apply andb_true_iff in H1 as [H1 _].
      destruct c as [v stmts]. apply andb_true_iff in H1 as [Hv Hs].
      cbn [P_case] in Hc. pose proof (Forall_wf_statements _ Hc Hs).
      destruct v; tally_auto; assumption.
    + cbn in H1. apply andb_true_iff in H1 as [_ H1]. auto.
  - tally_auto.
  - tally_auto.
  - tally_auto.
  - tally_auto.
Qed.
#[local] Hint Resolve tally_writeStatement : tally.

(** A body printed into its own buffer and then spliced in after the
    function header it has produced. *)
Lemma tally_buffered (body : Gen unit) :
  tally 0 body ->
  tally 0 (buffer <- buffered body ;;
           header <- gets fFunctionHeader ;;
           write header ;;
           write buffer).
Proof.
  intros Hb g a g' Hg E.
  unfold buffered, bind, modify, gets, write, ret in E.
  destruct (body (set_fOut "" g)) as [[] g3|] eqn:Eb; [|discriminate E].
  inversion E; subst; clear E.
  destruct (Hb (set_fOut "" g) tt g3 Hg Eb)
    as (G3 & text & args & errs & c & O & A & Er & Ie & S & K).
  cbn in O, A, Er. change ("" +++ text) with text in O.
  split; [exact G3|].
  exists (fFunctionHeader g3 +++ text), args, errs, c. cbn.
  rewrite O, append_assoc. repeat split; try assumption.
  rewrite (fmt_scan_app_complete _ _ 0 c); [reflexivity | | assumption].
  apply no_percent_scan, G3.
Qed.

Lemma tally_writeFunction d body :
  wf_element (FunctionDefinition d body) = true -> tally 0 (writeFunction d body).
Proof.
  cbn [wf_element]. intros H.
  apply andb_true_iff in H as [H Hstmts].
  apply andb_true_iff in H as [H Hparams].
  apply andb_true_iff in H as [Hret Hname].
  assert (Hbody : Forall (fun s => tally 0 (writeStatement s ;; writeLine "")) body).
  { apply Forall_wf_statements; [|assumption].
    apply Forall_forall. intros s _. apply tally_writeStatement. }
  unfold writeFunction, INHERITED_writeFunction, getTypeName.
  destruct (fd_fName d =? "main")%string.
  - eapply tally_eq.
    + eapply tally_bind_up; [tally_up | intros _].
      apply tally_buffered. tally_auto. exact Hbody.
    + reflexivity.
  - eapply tally_eq.
    + eapply tally_bind_up; [tally_up | intros _].
      eapply tally_bind_up; [tally_up | intros _].
      eapply tally_bind_up.
      { apply tally_forSep; [reflexivity|].
        apply Forall_forall. intros param Hin.
        rewrite forallb_forall in Hparams. specialize (Hparams _ Hin).
        apply andb_true_iff in Hparams as [? ?]. tally_auto. }
      intros _.
      eapply tally_bind_up; [tally_up | intros _].
      eapply tally_bind_up; [tally_up | intros _].
      apply tally_buffered. tally_auto. exact Hbody.
    + reflexivity.
Qed.

Lemma tally_writeProgramElement p :
  wf_element p = true -> tally 0 (writeProgramElement p).
Proof.
  intros H. unfold writeProgramElement, INHERITED_writeProgramElement.
  destruct p as [decls|d body|s].
  - cbn [wf_element] in H. pose proof (tally_writeVarDeclarations decls true H).
    tally_auto.
  - now apply tally_writeFunction.
  - apply tally_ret.
Qed.

Lemma tally_INHERITED_generateCode_elements elements :
  forallb wf_element elements = true ->
  tally 0 (forM_ writeProgramElement elements).
Proof.
  intros H. apply tally_forM_, Forall_forall. intros p Hin.
  rewrite forallb_forall in H. now apply tally_writeProgramElement, H.
Qed.

Lemma good_new program errors name out :
  good (new_CPPCodeGenerator program errors name out).
Proof. split; reflexivity. Qed.

Lemma writeEmitCode_mainBuffer_tally g r mainBuffer g' :
  wf_program (fProgram g) = true -> good g ->
  writeEmitCode_mainBuffer g = Ok (r, mainBuffer) g' ->
  good g' /\ fOut g' = fOut g /\
  exists args errs,
    fFormatArgs g' = fFormatArgs g ++ args /\
    fErrors g' = fErrors g ++ errs /\
    Forall index_error errs /\
    fmt_scan false mainBuffer =
    ((List.length args + List.length errs)%nat, false).
Proof.
  intros Hwf Hg E.
  unfold writeEmitCode_mainBuffer, INHERITED_generateCode, bind, modify, gets, ret in E.
  destruct (forM_ writeProgramElement (fElements (fProgram (set_fOut "" g)))
                  (set_fOut "" g)) as [[] g3|] eqn:Eb; [|discriminate E].
  inversion E; subst; clear E.
  destruct (tally_INHERITED_generateCode_elements _ Hwf (set_fOut "" g) tt g3 Hg Eb)
    as (G3 & text & args & errs & c & O & A & Er & Ie & S & K).
  cbn in O, A, Er. change ("" +++ text) with text in O.
  split; [exact G3|]. split; [reflexivity|].
  exists args, errs. rewrite O, S. repeat split; try assumption.
  f_equal. lia.
Qed.

Lemma bind_inv {A B} (m : Gen A) (k : A -> Gen B) g b g' :
  bind m k g = Ok b g' -> exists a g1, m g = Ok a g1 /\ k a g1 = Ok b g'.
Proof.
  unfold bind. destruct (m g) as [a g1|]; [eauto | discriminate].
Qed.

Lemma quiet_ret {A} (a : A) : quiet (ret a).
Proof.
  intros g b g' E. inversion E; subst. repeat split. exists []. now rewrite app_nil_r.
Qed.

Lemma quiet_bind {A B} (m : Gen A) (k : A -> Gen B) :
  quiet m -> (forall a, quiet (k a)) -> quiet (bind m k).
Proof.
  intros Hm Hk g b g' E. apply bind_inv in E as (a & g1 & E1 & E2).
  destruct (Hm _ _ _ E1) as (A1 & L1 & F1 & P1 & e1 & R1).
  destruct (Hk a _ _ _ E2) as (A2 & L2 & F2 & P2 & e2 & R2).
  repeat split; try congruence.
  exists (e1 ++ e2). now rewrite R2, R1, app_assoc.
Qed.

Lemma quiet_modify f :
  (forall g, fFormatArgs (f g) = fFormatArgs g /\ fLineEnding (f g) = fLineEnding g /\
             fFunctionHeader (f g) = fFunctionHeader g /\ fProgram (f g) = fProgram g /\
             exists errs, fErrors (f g) = fErrors g ++ errs) ->
  quiet (modify f).
Proof. intros H g a g' E. inversion E; subst. apply H. Qed.

Lemma quiet_write s : quiet (write s).
Proof.
  apply quiet_modify. intros g. repeat split. exists []. cbn. now rewrite app_nil_r.
Qed.

Lemma quiet_error o msg : quiet (error o msg).
Proof. apply quiet_modify. intros g. repeat split. now exists [(o, msg)]. Qed.

Lemma quiet_gets {A} (f : CPPCodeGenerator -> A) : quiet (gets f).
Proof.
  intros g a g' E. inversion E; subst. repeat split. exists []. now rewrite app_nil_r.
Qed.

Lemma quiet_ABORT {A} msg : quiet (@ABORT A msg).
Proof. intros g a g' E. discriminate E. Qed.

Lemma quiet_when b m : quiet m -> quiet (when b m).
Proof. destruct b; [auto | intros _; apply quiet_ret]. Qed.

Lemma quiet_forM_ {A} (f : A -> Gen unit) l :
  (forall x, quiet (f x)) -> quiet (forM_ f l).
Proof.
  intros H. induction l as [|x l IH]; cbn [forM_].
  - apply quiet_ret.
  - apply quiet_bind; [apply H | intros _; exact IH].
Qed.

Ltac quiet_auto :=
  lazymatch goal with
  | |- quiet (bind _ _) => apply quiet_bind; [ quiet_auto | intros ?; quiet_auto ]
  | |- quiet (when _ _) => apply quiet_when; quiet_auto
  | |- quiet (forM_ _ _) => apply quiet_forM_; intros ?; quiet_auto
  | |- quiet (match ?x with _ => _ end) => destruct x; quiet_auto
  | |- _ =>
      first [ apply quiet_ret | apply quiet_write | apply quiet_error
            | apply quiet_gets | apply quiet_ABORT | solve [auto]
            | apply quiet_modify; intros ?; cbn;
              repeat split; exists []; now rewrite app_nil_r ]
  end.

Lemma quiet_addUniform var : quiet (addUniform var).
Proof. unfold addUniform, writef. quiet_auto. Qed.

Lemma quiet_writeEmitCode_setup uniforms : quiet (writeEmitCode_setup uniforms).
Proof.
  pose proof quiet_addUniform.
  unfold writeEmitCode_setup, writePrivateVarValues, writeEmitCode_uniform,
    writeSection, writef.
  quiet_auto.
Qed.

Lemma forM_writef_args (l : list string) (g : CPPCodeGenerator) :
  forM_ (fun s => writef (", " +++ s)) l g =
  Ok tt (set_fOut (fOut g +++ String.concat "" (map (fun s => ", " +++ s) l)) g).
Proof.
  revert g. induction l as [|s l IH]; intros g; cbn [forM_ map].
  - cbn. now rewrite append_nil_r, set_fOut_same.
  - unfold bind, writef, write, modify at 1. rewrite IH. norm_state.
    f_equal. f_equal. f_equal. destruct l; cbn [String.concat map].
    + now rewrite append_nil_r.
    + reflexivity.
Qed.

Lemma writeEmitCode_codeAppendf_run mainBuffer g :
  writeEmitCode_codeAppendf mainBuffer g =
  Ok tt (set_fOut
           (fOut g +++ fExtraEmitCodeCode g +++
            "        fragBuilder->codeAppendf(" +++ dq +++ mainBuffer +++ dq +++
            String.concat "" (map (fun s => ", " +++ s) (fFormatArgs g)) +++
            ");" +++ nl +++ "    }" +++ nl) g).
Proof.
  unfold writeEmitCode_codeAppendf, bind, gets, writef, write, modify.
  rewrite forM_writef_args. norm_state. reflexivity.
Qed.




(** The main body of the sample with indices 0, 0 and 1: five placeholders,
    five arguments, in the order of the text. *)
Lemma coords_program_mainBuffer :
  exists g',
    writeEmitCode_mainBuffer (Samples.fresh Samples.coords_program) =
    Ok (true, "%s = %s + %s %% (%s * %f);" +++ String "\"%char "n") g' /\
    fFormatArgs g' =
      ["args.fOutputColor"; "sk_TransformedCoords2D_0.c_str()";
       "sk_TransformedCoords2D_0.c_str()"; "sk_TransformedCoords2D_1.c_str()";
       "_outer.x()"] /\
    fExtraEmitCodeCode g' = coords_statement 0 +++ coords_statement 1.
Proof. eexists. vm_compute. repeat split. Qed.

(** A compound modulo assignment is not doubled: the generic printer writes
    its operator as it is, a percent sign that the format reads as one more
    placeholder.  Such programs are not [wf_program]. *)
Lemma percent_assign_program_unbalanced :
  wf_program Samples.percent_assign_program = false /\
  exists g' mainBuffer,
    writeEmitCode_mainBuffer (Samples.fresh Samples.percent_assign_program) =
    Ok (true, mainBuffer) g' /\
    fErrors g' = [] /\
    count_placeholders mainBuffer = 2%nat /\ List.length (fFormatArgs g') = 1%nat.
Proof. split; [reflexivity|]. do 2 eexists. vm_compute. repeat split. Qed.


(** *** The cache of transformed coordinates *)

Section Preserves.
Variable I : CPPCodeGenerator -> Prop.

Lemma preserves_ret {A} (a : A) : preserves I (ret a).
Proof. intros g b g' Hg E. now inversion E; subst. Qed.

Lemma preserves_bind {A B} (m : Gen A) (k : A -> Gen B) :
  preserves I m -> (forall a, preserves I (k a)) -> preserves I (bind m k).
Proof.
  intros Hm Hk g b g' Hg E. apply bind_inv in E as (a & g1 & E1 & E2).
  eapply Hk; [eapply Hm|]; eassumption.
Qed.

Lemma preserves_gets {A} (f : CPPCodeGenerator -> A) : preserves I (gets f).
Proof. intros g b g' Hg E. now inversion E; subst. Qed.

Lemma preserves_ABORT {A} msg : preserves I (@ABORT A msg).
Proof. intros g b g' _ E. discriminate E. Qed.

Lemma preserves_ASSERT b : preserves I (ASSERT b).
Proof. destruct b; [apply preserves_ret | apply preserves_ABORT]. Qed.

Lemma preserves_when b m : preserves I m -> preserves I (when b m).
Proof. destruct b; [auto | intros _; apply preserves_ret]. Qed.

Lemma preserves_modify f : (forall g, I g -> I (f g)) -> preserves I (modify f).
Proof. intros H g a g' Hg E. inversion E; subst. auto. Qed.

Lemma preserves_forM_ {A} (f : A -> Gen unit) l :
  Forall (fun x => preserves I (f x)) l -> preserves I (forM_ f l).
Proof.
  induction 1 as [|x l Hx _ IH]; cbn [forM_].
  - apply preserves_ret.
  - apply preserves_bind; [exact Hx | intros _; exact IH].
Qed.

Lemma preserves_forSep {A} (f : A -> Gen unit) sep l :
  (forall s, preserves I (write s)) ->
  Forall (fun x => preserves I (f x)) l -> preserves I (forSep f sep l).
Proof.
  intros Hw H. revert sep.
  induction H as [|x l Hx _ IH]; intros sep; cbn [forSep].
  - apply preserves_ret.
  - apply preserves_bind; [apply Hw | intros _].
    apply preserves_bind; [exact Hx | intros _; apply IH].
Qed.
End Preserves.

Lemma extra_ok_write s : preserves extra_ok (write s).
Proof. apply preserves_modify. intros g Hg. exact Hg. Qed.

Lemma Forall_wrap {A} (P : A -> Prop) l : (forall x, P x) -> Forall P l.
Proof. intros H. apply Forall_forall. auto. Qed.

Create HintDb extra.

Ltac extra_auto :=
  lazymatch goal with
  | |- preserves _ (bind _ _) =>
      apply preserves_bind; [ extra_auto | intros ?; extra_auto ]
  | |- preserves _ (when _ _) => apply preserves_when; extra_auto
  | |- preserves _ (match ?x with _ => _ end) =>
      destruct x eqn:?; cbv beta iota; extra_auto
  | |- _ =>
      first [ apply preserves_ret | apply preserves_gets | apply preserves_ABORT
            | apply preserves_ASSERT
            | apply preserves_modify; intros ? Hg; exact Hg
            | solve [eauto with extra]
            | apply preserves_forSep; [ intros ?; apply extra_ok_write | ]
            | apply preserves_forM_ ]
  end.

Lemma existsb_eqb_In idx l : existsb (Z.eqb idx) l = true <-> In idx l.
Proof.
  rewrite existsb_exists. split.
  - intros (x & Hin & E). apply Z.eqb_eq in E. now subst.
  - intros H. exists idx. split; [exact H | apply Z.eqb_refl].
Qed.

Lemma join_app a b : join (a ++ b) = join a +++ join b.
Proof.
  induction a as [|x a IH]; cbn [app join fold_right].
  - reflexivity.
  - unfold join in *. cbn [fold_right]. now rewrite IH, append_assoc.
Qed.

Lemma extra_ok_writeIndexExpression_step g idx :
  extra_ok g ->
  existsb (Z.eqb idx) (fWrittenTransformedCoords g) = false ->
  extra_ok (set_fWrittenTransformedCoords (fWrittenTransformedCoords g ++ [idx])
              (set_fExtraEmitCodeCode (fExtraEmitCodeCode g +++ coords_statement idx) g)).
Proof.
  intros [He Hn] Hidx. split; cbn.
  - rewrite map_app, join_app, He. cbn. now rewrite append_nil_r.
  - apply NoDup_app; [exact Hn | repeat constructor; intros [] |].
    intros x Hx [<-|[]]. apply existsb_eqb_In in Hx. congruence.
Qed.

Lemma extra_ok_getSamplerHandle v : preserves extra_ok (getSamplerHandle v).
Proof.
  intros g a g' Hg E. unfold getSamplerHandle in E. cbn in E.
  now apply getSamplerHandle_loop_state in E as ->.
Qed.
#[local] Hint Resolve extra_ok_write extra_ok_getSamplerHandle : extra.

Lemma extra_ok_writeLine s : preserves extra_ok (writeLine s).
Proof. unfold writeLine. extra_auto. Qed.

Lemma extra_ok_default_value ty : preserves extra_ok (default_value ty).
Proof. unfold default_value. extra_auto. Qed.

Lemma extra_ok_push s : preserves extra_ok (push_back_fFormatArgs s).
Proof. apply preserves_modify. intros g Hg. exact Hg. Qed.

Lemma extra_ok_error o msg : preserves extra_ok (error o msg).
Proof. apply preserves_modify. intros g Hg. exact Hg. Qed.
#[local] Hint Resolve extra_ok_writeLine extra_ok_default_value extra_ok_push
  extra_ok_error : extra.

Lemma extra_ok_writeRuntimeValue ty code : preserves extra_ok (writeRuntimeValue ty code).
Proof. unfold writeRuntimeValue. extra_auto. Qed.
#[local] Hint Resolve extra_ok_writeRuntimeValue : extra.

Lemma extra_ok_writeVariableReference v : preserves extra_ok (writeVariableReference v).
Proof. unfold writeVariableReference. extra_auto. Qed.

Lemma extra_ok_writeSetting n ty : preserves extra_ok (writeSetting n ty).
Proof. unfold writeSetting. extra_auto. Qed.

Lemma extra_ok_writeIntLiteral v : preserves extra_ok (writeIntLiteral v).
Proof. unfold writeIntLiteral. extra_auto. Qed.
#[local] Hint Resolve extra_ok_writeVariableReference extra_ok_writeSetting
  extra_ok_writeIntLiteral : extra.

Lemma extra_ok_cache_coords idx :
  preserves extra_ok
    (push_back_fFormatArgs (("sk_TransformedCoords2D_" +++ to_string idx) +++ ".c_str()") ;;
     written <- gets fWrittenTransformedCoords ;;
     when (negb (existsb (Z.eqb idx) written))
       (modify (fun g => set_fExtraEmitCodeCode
                  (fExtraEmitCodeCode g +++
                   ("        SkString " +++ ("sk_TransformedCoords2D_" +++ to_string idx) +++
                    " = fragBuilder->ensureCoords2D(args.fTransformedCoords[" +++
                    to_string idx +++ "]);" +++ nl)) g) ;;
        modify (fun g => set_fWrittenTransformedCoords
                  (fWrittenTransformedCoords g ++ [idx]) g))).
Proof.
  intros g a g' Hg E.
  unfold bind, push_back_fFormatArgs, gets, modify, when in E. cbn in E.
  destruct (existsb (Z.eqb idx) (fWrittenTransformedCoords g)) eqn:Ex;
    cbn in E; inversion E; subst; clear E.
  - exact Hg.
  - apply (extra_ok_writeIndexExpression_step g idx Hg Ex).
Qed.

Lemma Forall_extra (args : list Expression) prec :
  Forall (fun e => forall p, preserves extra_ok (writeExpression e p)) args ->
  Forall (fun e => preserves extra_ok (writeExpression e prec)) args.
Proof. induction 1; constructor; auto. Qed.

Lemma extra_ok_writeExpression e :
  forall prec, preserves extra_ok (writeExpression e prec).
Proof.
  induction e using Expression_induction; cbn [writeExpression]; intros prec.
  - extra_auto.
  - extra_auto.
  - extra_auto.
  - unfold writeBinaryExpression, INHERITED_writeBinaryExpression. extra_auto.
  - unfold writeIndexExpression, INHERITED_writeIndexExpression.
    destruct e1; try solve [extra_auto].
    destruct (SK_TRANSFORMEDCOORDS2D_BUILTIN =? _).
    + apply preserves_bind; [extra_auto | intros _].
      destruct e2; try solve [extra_auto].
      apply extra_ok_cache_coords.
    + extra_auto.
  - unfold writeFunctionCall, INHERITED_writeFunctionCall.
    pose proof (Forall_extra args Precedence.kSequence H) as Hseq.
    destruct (fd_fBuiltin f && (fd_fName f =? "COLORSPACE")%string).
    + destruct args as [|arg0 [|arg1 rest]]; try solve [extra_auto].
      inversion H as [|? ? Harg0 _]; subst. extra_auto.
    + extra_auto. exact Hseq.
  - unfold writeConstructor. extra_auto. now apply Forall_extra.
  - unfold writeSwizzle. extra_auto. apply Forall_wrap. intros c. extra_auto.
  - unfold writeTernaryExpression. extra_auto.
  - extra_auto.
Qed.
#[local] Hint Resolve extra_ok_writeExpression : extra.

Lemma extra_ok_writeVarDeclarations d global :
  preserves extra_ok (writeVarDeclarations d global).
Proof.
  unfold writeVarDeclarations. generalize false as wrote.
  induction (fVars d) as [|var vars IH]; intros wrote;
    cbn [writeVarDeclarations_loop].
  - extra_auto.
  - specialize (IH true). unfold writeVarInitializer. extra_auto.
Qed.
#[local] Hint Resolve extra_ok_writeVarDeclarations : extra.

Lemma Forall_extra_statements (stmts : list Statement) :
  Forall (fun s => preserves extra_ok (writeStatement s)) stmts ->
  Forall (fun s => preserves extra_ok (writeStatement s ;; writeLine "")) stmts.
Proof. induction 1; constructor; [extra_auto | assumption]. Qed.

Lemma extra_ok_writeStatement s : preserves extra_ok (writeStatement s).
Proof.
  induction s using Statement_induction; cbn [writeStatement].
  - unfold writeBlock. extra_auto. now apply Forall_extra_statements.
  - extra_auto.
  - extra_auto.
  - unfold writeIfStatement, INHERITED_writeIfStatement.
    destruct b as [b|]; cbn [P_option] in *; extra_auto.
  - unfold writeSwitchStatement, INHERITED_writeSwitchStatement. extra_auto.
    induction H as [|c cases Hc _ IH]; constructor; [|exact IH].
    destruct c as [cv stmts]. cbn [P_case] in Hc.
    pose proof (Forall_extra_statements _ Hc). extra_auto; assumption.
  - extra_auto.
  - extra_auto.
  - extra_auto.
  - extra_auto.
Qed.
#[local] Hint Resolve extra_ok_writeStatement : extra.

Lemma extra_ok_buffered (m : Gen unit) :
  preserves extra_ok m -> preserves extra_ok (buffered m).
Proof. intros H. unfold buffered. extra_auto. Qed.

Lemma extra_ok_writeFunction d body : preserves extra_ok (writeFunction d body).
Proof.
  assert (Hbody : Forall (fun s => preserves extra_ok (writeStatement s ;; writeLine ""))
                         body).
  { apply Forall_extra_statements, Forall_wrap, extra_ok_writeStatement. }
  unfold writeFunction, INHERITED_writeFunction, buffered. extra_auto;
    try exact Hbody.
  apply Forall_wrap. intros param. extra_auto.
Qed.

Lemma extra_ok_writeProgramElement p : preserves extra_ok (writeProgramElement p).
Proof.
  pose proof extra_ok_writeFunction.
  unfold writeProgramElement, INHERITED_writeProgramElement. extra_auto.
Qed.

Lemma extra_ok_writeEmitCode_mainBuffer : preserves extra_ok writeEmitCode_mainBuffer.
Proof.
  unfold writeEmitCode_mainBuffer, INHERITED_generateCode. extra_auto.
  apply Forall_wrap, extra_ok_writeProgramElement.
Qed.

Lemma append_inj_l a x y : a +++ x = a +++ y -> x = y.
Proof.
  induction a as [|c a IH]; unfold String.append; fold String.append.
  - auto.
  - intros E. injection E as E. auto.
Qed.

Lemma append_lacks_inj c s1 s2 r1 r2 :
  lacks c s1 = true -> lacks c s2 = true ->
  s1 +++ String c r1 = s2 +++ String c r2 -> s1 = s2.
Proof.
  revert s2. induction s1 as [|x s1 IH]; intros [|y s2];
    unfold String.append; fold String.append; cbn [lacks]; intros H1 H2 E.
  - reflexivity.
  - injection E as E _. subst y. rewrite Ascii.eqb_refl in H2. discriminate.
  - injection E as E _. subst x. rewrite Ascii.eqb_refl in H1. discriminate.
  - injection E as Ex E. subst y.
    apply andb_true_iff in H1 as [_ H1]. apply andb_true_iff in H2 as [_ H2].
    f_equal. eauto.
Qed.

Lemma lacks_space_string_of_uint u : lacks " " (NilEmpty.string_of_uint u) = true.
Proof. induction u; cbn; auto. Qed.

Lemma lacks_space_to_string z : lacks " " (to_string z) = true.
Proof.
  unfold to_string. destruct (Z.to_int z); cbn; apply lacks_space_string_of_uint.
Qed.

Lemma to_string_inj i j : to_string i = to_string j -> i = j.
Proof.
  unfold to_string. intros E.
  apply (f_equal NilEmpty.int_of_string) in E.
  rewrite !NilEmpty.isi in E. injection E as E.
  now apply DecimalZ.to_int_inj.
Qed.

Lemma coords_statement_inj i j : coords_statement i = coords_statement j -> i = j.
Proof.
  unfold coords_statement, coords_name. rewrite !append_assoc.
  intros E. apply append_inj_l in E. apply append_inj_l in E.
  apply to_string_inj.
  eapply (append_lacks_inj " "); [apply lacks_space_to_string .. | exact E].
Qed.

Lemma writeExpression_coords_index o ov v oi idx prec g :
  Layout.fBuiltin (Variable_.layout v) = SK_TRANSFORMEDCOORDS2D_BUILTIN ->
  writeExpression (IndexExpression o (VariableReference ov v) (IntLiteral oi idx)) prec g =
  Ok tt (after_coords_index idx g).
Proof.
  intros Hb. cbn [writeExpression]. unfold writeIndexExpression, after_coords_index.
  rewrite Hb. cbn [Z.eqb SK_TRANSFORMEDCOORDS2D_BUILTIN Pos.eqb].
  unfold bind, write, push_back_fFormatArgs, gets, modify, when. cbn.
  destruct (existsb (Z.eqb idx) (fWrittenTransformedCoords g)); cbn;
    unfold coords_statement, coords_argument, coords_name; norm_state; reflexivity.
Qed.

Lemma is_coords_index_run idx e prec g :
  is_coords_index idx e = true ->
  writeExpression e prec g = Ok tt (after_coords_index idx g).
Proof.
  destruct e as [| | | |o b i| | | | |]; try discriminate.
  destruct b as [| |ov v| | | | | | |]; try discriminate.
  destruct i as [|oi i| | | | | | | |]; try discriminate.
  cbn [is_coords_index]. intros H. apply andb_true_iff in H as [Hb Hi].
  apply Z.eqb_eq in Hb, Hi. subst i. now apply writeExpression_coords_index.
Qed.

Lemma existsb_snoc idx l : existsb (Z.eqb idx) (l ++ [idx]) = true.
Proof. rewrite existsb_app. cbn. now rewrite Z.eqb_refl, orb_true_r. Qed.

Lemma coords_index_again idx occurrences prec g :
  existsb (Z.eqb idx) (fWrittenTransformedCoords g) = true ->
  forallb (is_coords_index idx) occurrences = true ->
  exists g',
    forM_ (fun e => writeExpression e prec) occurrences g = Ok tt g' /\
    fFormatArgs g' =
      fFormatArgs g ++ repeat (coords_argument idx) (List.length occurrences) /\
    fExtraEmitCodeCode g' = fExtraEmitCodeCode g /\
    fWrittenTransformedCoords g' = fWrittenTransformedCoords g.
Proof.
  revert g. induction occurrences as [|e l IH]; intros g Hw H.
  - exists g. cbn. now rewrite app_nil_r.
  - cbn in H. apply andb_true_iff in H as [He Hl].
    pose proof (is_coords_index_run idx e prec g He) as E.
    unfold after_coords_index in E. rewrite Hw in E.
    destruct (IH (emitted "%s" [coords_argument idx] g) Hw Hl)
      as (g' & R & A & X & W).
    exists g'. cbn [forM_]. rewrite (bind_Ok _ _ _ _ _ E).
    repeat split; try assumption.
    rewrite A. cbn. now rewrite <- app_assoc.
Qed.

Lemma coords_index_repeated idx occurrences prec g :
  occurrences <> [] ->
  forallb (is_coords_index idx) occurrences = true ->
  exists g',
    forM_ (fun e => writeExpression e prec) occurrences g = Ok tt g' /\
    fFormatArgs g' =
      fFormatArgs g ++ repeat (coords_argument idx) (List.length occurrences) /\
    fExtraEmitCodeCode g' =
      if existsb (Z.eqb idx) (fWrittenTransformedCoords g)
      then fExtraEmitCodeCode g
      else fExtraEmitCodeCode g +++ coords_statement idx.
Proof.
  intros Hne H.
  destruct (existsb (Z.eqb idx) (fWrittenTransformedCoords g)) eqn:Hw.
  - destruct (coords_index_again idx occurrences prec g Hw H) as (g' & R & A & X & _).
    exists g'. auto.
  - destruct occurrences as [|e l]; [congruence|].
    cbn in H. apply andb_true_iff in H as [He Hl].
    pose proof (is_coords_index_run idx e prec g He) as E.
    unfold after_coords_index in E. rewrite Hw in E.
    match type of E with _ = Ok tt ?s => set (g1 := s) in * end.
    destruct (coords_index_again idx l prec g1 (existsb_snoc idx _) Hl)
      as (g' & R & A & X & _).
    exists g'. cbn [forM_]. rewrite (bind_Ok _ _ _ _ _ E).
    repeat split; try assumption.
    rewrite A. cbn. now rewrite <- app_assoc.
Qed.

Lemma extra_ok_addUniform var : preserves extra_ok (addUniform var).
Proof. unfold addUniform, writef. extra_auto. Qed.

Lemma extra_ok_writeEmitCode uniforms : preserves extra_ok (writeEmitCode uniforms).
Proof.
  pose proof extra_ok_addUniform. pose proof extra_ok_writeEmitCode_mainBuffer.
  unfold writeEmitCode, writeEmitCode_setup, writeEmitCode_codeAppendf,
    writePrivateVarValues, writeEmitCode_uniform, writeSection, writef.
  extra_auto; apply Forall_wrap; intros ?; extra_auto.
Qed.

(** C4: every occurrence of sk_TransformedCoords2D[idx] with a literal idx
    writes a placeholder and pushes the argument that names the cache of the
    slot, and appends the statement that fills the cache only when the slot
    has not been cached yet; so one or more occurrences of the same slot add
    the statement exactly once (not at all if the slot was cached before).
    When writeEmitCode returns, the extra-setup buffer is the concatenation
    of the cache statements of the slots seen, one for each slot, no slot
    and no statement twice; the statements of different slots differ. *)
Theorem C4_coords_cached_once :
  (forall o ov v oi idx prec g,
      Layout.fBuiltin (Variable_.layout v) = SK_TRANSFORMEDCOORDS2D_BUILTIN ->
      writeExpression (IndexExpression o (VariableReference ov v) (IntLiteral oi idx))
                      prec g =
      Ok tt (after_coords_index idx g)) /\
  (forall idx occurrences prec g,
      occurrences <> [] ->
      forallb (is_coords_index idx) occurrences = true ->
      exists g',
        forM_ (fun e => writeExpression e prec) occurrences g = Ok tt g' /\
        fFormatArgs g' =
          fFormatArgs g ++ repeat (coords_argument idx) (List.length occurrences) /\
        fExtraEmitCodeCode g' =
          if existsb (Z.eqb idx) (fWrittenTransformedCoords g)
          then fExtraEmitCodeCode g
          else fExtraEmitCodeCode g +++ coords_statement idx) /\
  (forall p errors name out uniforms r g',
      writeEmitCode uniforms (new_CPPCodeGenerator p errors name out) = Ok r g' ->
      fExtraEmitCodeCode g' =
        join (map coords_statement (fWrittenTransformedCoords g')) /\
      NoDup (fWrittenTransformedCoords g') /\
      NoDup (map coords_statement (fWrittenTransformedCoords g'))) /\
  (forall i j, coords_statement i = coords_statement j -> i = j).
Proof.
  split; [|split; [|split]].
  - intros. now apply writeExpression_coords_index.
  - intros. now apply coords_index_repeated.
  - intros p errors name out uniforms r g' E.
    assert (I0 : extra_ok (new_CPPCodeGenerator p errors name out))
      by (split; [reflexivity | constructor]).
    destruct (extra_ok_writeEmitCode uniforms _ _ _ I0 E) as [He Hn].
    repeat split; try assumption.
    clear He. induction Hn as [|x l Hx _ IH]; cbn [map]; constructor; [|exact IH].
    intros Hin. apply in_map_iff in Hin as (y & Ey & Hy).
    apply coords_statement_inj in Ey. now subst y.
  - apply coords_statement_inj.
Qed.

Lemma C4_coords_cached_once_witness :
  (exists g',
      forM_ (fun e => writeExpression e 18)
            [Samples.coords (IntLiteral 1 0); Samples.coords (IntLiteral 2 0);
             Samples.coords (IntLiteral 3 0)]
            (Samples.fresh Samples.empty_program) = Ok tt g' /\
      fFormatArgs g' = repeat (coords_argument 0) 3 /\
      fExtraEmitCodeCode g' = coords_statement 0) /\
  (let g' := final (writeEmitCode [] (Samples.fresh Samples.coords_program)) in
   fExtraEmitCodeCode g' = coords_statement 0 +++ coords_statement 1 /\
   fWrittenTransformedCoords g' = [0; 1] /\
   List.length (fFormatArgs g') = 5%nat).
Proof.
  destruct C4_coords_cached_once as (_ & Hrep & Hall & _).
  split.
  - destruct (Hrep 0 [Samples.coords (IntLiteral 1 0); Samples.coords (IntLiteral 2 0);
                      Samples.coords (IntLiteral 3 0)] 18
                   (Samples.fresh Samples.empty_program))
      as (g' & R & A & X); [discriminate | reflexivity |].
    exists g'. repeat split; assumption.
  - cbn zeta.
    assert (E : writeEmitCode [] (Samples.fresh Samples.coords_program) =
                Ok true (final (writeEmitCode [] (Samples.fresh Samples.coords_program))))
      by (vm_compute; reflexivity).
    destruct (Hall Samples.coords_program [] "Sample" "" [] true _ E) as (X & _ & _).
    split; [|split].
    + rewrite X. vm_compute. reflexivity.
    + vm_compute. reflexivity.
    + vm_compute. reflexivity.
Defined.


(** *** No state outside the generator instance *)

Lemma indep_ret {A} (a : A) : indep (ret a).
Proof. intros e g. reflexivity. Qed.

Lemma indep_bind {A B} (m : Gen A) (k : A -> Gen B) :
  indep m -> (forall a, indep (k a)) -> indep (bind m k).
Proof.
  intros Hm Hk e g. unfold bind. rewrite Hm.
  destruct (m g) as [a g1|msg g1]; cbn; [apply Hk | reflexivity].
Qed.

Lemma indep_gets {A} (f : CPPCodeGenerator -> A) :
  (forall e g, f (prepend_errors e g) = f g) -> indep (gets f).
Proof. intros H e g. unfold gets. cbn. now rewrite H. Qed.

Lemma indep_modify f :
  (forall e g, f (prepend_errors e g) = prepend_errors e (f g)) -> indep (modify f).
Proof. intros H e g. unfold modify. cbn. now rewrite H. Qed.

Lemma indep_error o msg : indep (error o msg).
Proof.
  apply indep_modify. intros e g. unfold prepend_errors, set_fErrors. cbn.
  now rewrite app_assoc.
Qed.

Lemma indep_ABORT {A} msg : indep (@ABORT A msg).
Proof. intros e g. reflexivity. Qed.

Lemma indep_ASSERT b : indep (ASSERT b).
Proof. destruct b; [apply indep_ret | apply indep_ABORT]. Qed.

Lemma indep_when b m : indep m -> indep (when b m).
Proof. destruct b; [auto | intros _; apply indep_ret]. Qed.

Lemma indep_forM_ {A} (f : A -> Gen unit) l :
  Forall (fun x => indep (f x)) l -> indep (forM_ f l).
Proof.
  induction 1 as [|x l Hx _ IH]; cbn [forM_].
  - apply indep_ret.
  - apply indep_bind; [exact Hx | intros _; exact IH].
Qed.

Lemma indep_write s : indep (write s).
Proof. apply indep_modify. reflexivity. Qed.

Lemma indep_forSep {A} (f : A -> Gen unit) sep l :
  Forall (fun x => indep (f x)) l -> indep (forSep f sep l).
Proof.
  intros H. revert sep. induction H as [|x l Hx _ IH]; intros sep; cbn [forSep].
  - apply indep_ret.
  - apply indep_bind; [apply indep_write | intros _].
    apply indep_bind; [exact Hx | intros _; apply IH].
Qed.

Lemma indep_foldM {A S} (f : S -> A -> Gen S) acc l :
  (forall acc x, indep (f acc x)) -> indep (foldM f acc l).
Proof.
  intros H. revert acc. induction l as [|x l IH]; intros acc; cbn [foldM].
  - apply indep_ret.
  - apply indep_bind; [apply H | intros acc'; apply IH].
Qed.

Create HintDb indep.
#[local] Hint Resolve indep_write indep_error : indep.

Ltac indep_auto :=
  lazymatch goal with
  | |- indep (bind _ _) => apply indep_bind; [ indep_auto | intros ?; indep_auto ]
  | |- indep (when _ _) => apply indep_when; indep_auto
  | |- indep (match ?x with _ => _ end) => destruct x eqn:?; cbv beta iota; indep_auto
  | |- _ =>
      first [ apply indep_ret | apply indep_ABORT | apply indep_ASSERT
            | apply indep_gets; reflexivity
            | apply indep_modify; reflexivity
            | solve [eauto with indep]
            | apply indep_forSep
            | apply indep_forM_
            | apply indep_foldM; intros ? ?; indep_auto ]
  end.

Lemma indep_writeLine s : indep (writeLine s).
Proof. unfold writeLine. indep_auto. Qed.

Lemma indep_push s : indep (push_back_fFormatArgs s).
Proof. unfold push_back_fFormatArgs. indep_auto. Qed.

Lemma indep_getSamplerHandle_loop v n params : indep (getSamplerHandle_loop v n params).
Proof.
  revert n. induction params as [|q params IH]; intros n; cbn [getSamplerHandle_loop].
  - apply indep_ABORT.
  - destruct (Variable_.same v q); [apply indep_ret | apply IH].
Qed.

Lemma indep_getSamplerHandle v : indep (getSamplerHandle v).
Proof.
  pose proof indep_getSamplerHandle_loop. unfold getSamplerHandle. indep_auto.
Qed.

Lemma indep_default_value ty : indep (default_value ty).
Proof. unfold default_value. indep_auto. Qed.
#[local] Hint Resolve indep_writeLine indep_push indep_getSamplerHandle
  indep_default_value : indep.

Lemma indep_writeRuntimeValue ty code : indep (writeRuntimeValue ty code).
Proof. unfold writeRuntimeValue. indep_auto. Qed.
#[local] Hint Resolve indep_writeRuntimeValue : indep.

Lemma indep_writeVariableReference v : indep (writeVariableReference v).
Proof. unfold writeVariableReference. indep_auto. Qed.

Lemma indep_writeSetting n ty : indep (writeSetting n ty).
Proof. unfold writeSetting. indep_auto. Qed.

Lemma indep_writeIntLiteral v : indep (writeIntLiteral v).
Proof. unfold writeIntLiteral. indep_auto. Qed.
#[local] Hint Resolve indep_writeVariableReference indep_writeSetting
  indep_writeIntLiteral : indep.

Lemma Forall_indep (args : list Expression) prec :
  Forall (fun e => forall p, indep (writeExpression e p)) args ->
  Forall (fun e => indep (writeExpression e prec)) args.
Proof. induction 1; constructor; auto. Qed.

Lemma indep_writeExpression e : forall prec, indep (writeExpression e prec).
Proof.
  induction e using Expression_induction; cbn [writeExpression]; intros prec.
  - indep_auto.
  - indep_auto.
  - indep_auto.
  - unfold writeBinaryExpression, INHERITED_writeBinaryExpression. indep_auto.
  - unfold writeIndexExpression, INHERITED_writeIndexExpression. indep_auto.
  - unfold writeFunctionCall, INHERITED_writeFunctionCall.
    pose proof (Forall_indep args Precedence.kSequence H) as Hseq.
    destruct (fd_fBuiltin f && (fd_fName f =? "COLORSPACE")%string).
    + destruct args as [|arg0 [|arg1 rest]]; try solve [indep_auto].
      inversion H as [|? ? Harg0 _]; subst. indep_auto.
    + indep_auto. exact Hseq.
  - unfold writeConstructor. indep_auto. now apply Forall_indep.
  - unfold writeSwizzle. indep_auto. apply Forall_wrap. intros c. indep_auto.
  - unfold writeTernaryExpression. indep_auto.
  - indep_auto.
Qed.
#[local] Hint Resolve indep_writeExpression : indep.

Lemma indep_writeVarDeclarations d global : indep (writeVarDeclarations d global).
Proof.
  unfold writeVarDeclarations. generalize false as wrote.
  induction (fVars d) as [|var vars IH]; intros wrote;
    cbn [writeVarDeclarations_loop].
  - indep_auto.
  - specialize (IH true). unfold writeVarInitializer. indep_auto.
Qed.
#[local] Hint Resolve indep_writeVarDeclarations : indep.

Lemma Forall_indep_statements (stmts : list Statement) :
  Forall (fun s => indep (writeStatement s)) stmts ->
  Forall (fun s => indep (writeStatement s ;; writeLine "")) stmts.
Proof. induction 1; constructor; [indep_auto | assumption]. Qed.

Lemma indep_writeStatement s : indep (writeStatement s).
Proof.
  induction s using Statement_induction; cbn [writeStatement].
  - unfold writeBlock. indep_auto. now apply Forall_indep_statements.
  - indep_auto.
  - indep_auto.
  - unfold writeIfStatement, INHERITED_writeIfStatement.
    destruct b as [b|]; cbn [P_option] in *; indep_auto.
  - unfold writeSwitchStatement, INHERITED_writeSwitchStatement. indep_auto.
    induction H as [|c cases Hc _ IH]; constructor; [|exact IH].
    destruct c as [cv stmts]. cbn [P_case] in Hc.
    pose proof (Forall_indep_statements _ Hc). indep_auto; assumption.
  - indep_auto.
  - indep_auto.
  - indep_auto.
  - indep_auto.
Qed.
#[local] Hint Resolve indep_writeStatement : indep.

Lemma indep_writeFunction d body : indep (writeFunction d body).
Proof.
  assert (Hbody : Forall (fun s => indep (writeStatement s ;; writeLine "")) body).
  { apply Forall_indep_statements, Forall_wrap, indep_writeStatement. }
  unfold writeFunction, INHERITED_writeFunction, buffered. indep_auto;
    try exact Hbody.
  apply Forall_wrap. intros param. indep_auto.
Qed.

Lemma indep_writeProgramElement p : indep (writeProgramElement p).
Proof.
  pose proof indep_writeFunction.
  unfold writeProgramElement, INHERITED_writeProgramElement. indep_auto.
Qed.

Lemma indep_writeSection name prefix : indep (writeSection name prefix).
Proof. unfold writeSection, writef. indep_auto. Qed.

Lemma indep_addUniform var : indep (addUniform var).
Proof. unfold addUniform, writef. indep_auto. Qed.
#[local] Hint Resolve indep_writeSection indep_addUniform indep_writeProgramElement
  : indep.

Lemma indep_writeEmitCode uniforms : indep (writeEmitCode uniforms).
Proof.
  unfold writeEmitCode, writeEmitCode_setup, writeEmitCode_mainBuffer,
    writeEmitCode_codeAppendf, INHERITED_generateCode,
    writePrivateVarValues, writeEmitCode_uniform, writef.
  indep_auto; apply Forall_wrap; intros ?; indep_auto.
Qed.

Lemma indep_writeSetData uniforms : indep (writeSetData uniforms).
Proof.
  unfold writeSetData, writeSetData_uniform, writeSetData_decl, writef.
  indep_auto.
Qed.

Lemma indep_writePrivateVars : indep writePrivateVars.
Proof.
  unfold writePrivateVars, writef. indep_auto. apply Forall_wrap; intros ?; indep_auto.
Qed.

Lemma indep_writeGetKey : indep writeGetKey.
Proof.
  unfold writeGetKey, writeGetKey_param, writef. indep_auto.
  apply Forall_wrap; intros ?; indep_auto.
Qed.

Lemma indep_writeClone : indep writeClone.
Proof.
  unfold writeClone, writef. indep_auto; apply Forall_wrap; intros ?; indep_auto.
Qed.

Lemma indep_writeTest : indep writeTest.
Proof. unfold writeTest, writef. indep_auto. Qed.
#[local] Hint Resolve indep_writeEmitCode indep_writeSetData indep_writePrivateVars
  indep_writeGetKey indep_writeClone indep_writeTest : indep.

Lemma indep_generateCode_file : indep generateCode_file.
Proof.
  unfold generateCode_file, writef. indep_auto; apply Forall_wrap; intros ?; indep_auto.
Qed.

Lemma new_CPPCodeGenerator_errors p errors name out :
  new_CPPCodeGenerator p errors name out =
  prepend_errors errors (new_CPPCodeGenerator p [] name out).
Proof. unfold prepend_errors, new_CPPCodeGenerator, set_fErrors. cbn. now rewrite app_nil_r. Qed.

Lemma generateCode_errors p errors name out :
  let run := generateCode (new_CPPCodeGenerator p [] name out) in
  let run' := generateCode (new_CPPCodeGenerator p errors name out) in
  instance_state (final run') = instance_state (final run) /\
  aborted run' = aborted run /\
  fErrors (final run') = errors ++ fErrors (final run).
Proof.
  cbn zeta. rewrite (new_CPPCodeGenerator_errors p errors).
  unfold generateCode, bind. rewrite indep_generateCode_file.
  destruct (generateCode_file (new_CPPCodeGenerator p [] name out)) as [r g|msg g];
    cbn; repeat split.
Qed.


(** The state that matters is the state of the instance: the same instance
    used a second time starts from the format arguments, the cached slots and
    the counter of its first run and prints another text. *)
Lemma reused_instance_differs :
  let g1 := final (generateCode (Samples.fresh Samples.coords_program)) in
  String.length (fOut (final (generateCode (set_fOut "" g1)))) <>
  String.length (fOut g1).
Proof. vm_compute. discriminate. Qed.

(** ** Further properties of the generator *)

(** *** Integer literals *)

Lemma to_int32_range v : - 2 ^ 31 <= to_int32 v < 2 ^ 31.
Proof.
  unfold to_int32. pose proof (Z.mod_pos_bound (v + 2 ^ 31) (2 ^ 32) eq_refl). lia.
Qed.

Lemma to_int32_congruent v : (to_int32 v - v) mod 2 ^ 32 = 0.
Proof.
  unfold to_int32.
  rewrite (Z.mod_eq (v + 2 ^ 31) (2 ^ 32)) by lia.
  replace (v + 2 ^ 31 - 2 ^ 32 * ((v + 2 ^ 31) / 2 ^ 32) - 2 ^ 31 - v)
    with ((- ((v + 2 ^ 31) / 2 ^ 32)) * 2 ^ 32) by lia.
  apply Z.mod_mul. lia.
Qed.

Lemma to_int32_in_range v : - 2 ^ 31 <= v < 2 ^ 31 -> to_int32 v = v.
Proof. intros H. unfold to_int32. rewrite Z.mod_small; lia. Qed.

Lemma to_int32_period v : to_int32 (v + 2 ^ 32) = to_int32 v.
Proof.
  unfold to_int32. replace (v + 2 ^ 32 + 2 ^ 31) with (v + 2 ^ 31 + 1 * 2 ^ 32) by lia.
  now rewrite Z.mod_add by lia.
Qed.

(** X1: writeIntLiteral prints a 64-bit literal through a 32-bit cast: what
    it writes is the decimal text of the one number of the 32-bit signed range
    that agrees with the value modulo 2^32; a value of that range is printed
    as it is, and two values 2^32 apart are printed alike. *)
Theorem X1_writeIntLiteral_narrows (v : Z) (g : CPPCodeGenerator) :
  exists n,
    writeIntLiteral v g = Ok tt (set_fOut (fOut g +++ to_string n) g) /\
    - 2 ^ 31 <= n < 2 ^ 31 /\
    (n - v) mod 2 ^ 32 = 0 /\
    (- 2 ^ 31 <= v < 2 ^ 31 -> n = v) /\
    writeIntLiteral (v + 2 ^ 32) g = writeIntLiteral v g.
Proof.
  exists (to_int32 v). unfold writeIntLiteral. rewrite to_int32_period.
  repeat apply conj; try reflexivity.
  - apply to_int32_range.
  - apply to_int32_range.
  - apply to_int32_congruent.
  - apply to_int32_in_range.
Qed.

Lemma X1_writeIntLiteral_narrows_witness :
  writeIntLiteral 7 (Samples.fresh Samples.empty_program) =
    Ok tt (set_fOut "7" (Samples.fresh Samples.empty_program)) /\
  writeIntLiteral (2 ^ 31) (Samples.fresh Samples.empty_program) =
    Ok tt (set_fOut "-2147483648" (Samples.fresh Samples.empty_program)).
Proof.
  destruct (X1_writeIntLiteral_narrows 7 (Samples.fresh Samples.empty_program))
    as (n & E & _ & _ & Hid & _).
  rewrite (Hid ltac:(lia)) in E.
  split; [exact E | reflexivity].
Defined.

(** *** Settings *)

Lemma substring_all s : String.substring 0 (String.length s) s = s.
Proof. induction s as [|c s IH]; cbn; [reflexivity | now rewrite IH]. Qed.

Lemma prefix_kPrefix n : String.prefix kPrefix (kPrefix +++ n) = true.
Proof. cbv [kPrefix String.append]. cbn. destruct n; reflexivity. Qed.

Lemma substring_kPrefix n :
  String.substring (String.length kPrefix)
                   (String.length (kPrefix +++ n) - String.length kPrefix)
                   (kPrefix +++ n) = n.
Proof.
  cbv [kPrefix String.append]. cbn [String.length Nat.sub String.substring].
  rewrite Nat.sub_0_r. apply substring_all.
Qed.

(** X2: a setting whose name starts with "sk_Args." is lowered as the runtime
    value of the field named by the rest of the name; any other setting is
    written as its name. *)
Theorem X2_writeSetting (n name : string) (ty : Type_.t) (g : CPPCodeGenerator) :
  writeSetting ("sk_Args." +++ n) ty g =
    writeRuntimeValue ty (HCodeGenerator.FieldName n) g /\
  (String.prefix "sk_Args." name = false ->
     writeSetting name ty g = Ok tt (set_fOut (fOut g +++ name) g)).
Proof.
  split.
  - unfold writeSetting. fold kPrefix.
    now rewrite prefix_kPrefix, substring_kPrefix.
  - intros H. unfold writeSetting, kPrefix. rewrite H. reflexivity.
Qed.

Lemma X2_writeSetting_witness :
  writeSetting "sk_Caps.integerSupport" Context.fBool_Type
               (Samples.fresh Samples.empty_program) =
  Ok tt (set_fOut "sk_Caps.integerSupport" (Samples.fresh Samples.empty_program)).
Proof.
  apply (proj2 (X2_writeSetting "" "sk_Caps.integerSupport" Context.fBool_Type
                  (Samples.fresh Samples.empty_program))).
  reflexivity.
Defined.

(** *** Program elements left to the class *)

Lemma has_lor flags a b :
  Modifiers.has flags (Z.lor a b) = Modifiers.has flags a || Modifiers.has flags b.
Proof.
  unfold Modifiers.has. rewrite Z.land_lor_distr_r.
  destruct (Z.land flags a =? 0) eqn:Ea, (Z.land flags b =? 0) eqn:Eb; cbn;
    rewrite ?Z.eqb_eq, ?Z.eqb_neq in *.
  - rewrite Ea, Eb. reflexivity.
  - apply negb_true_iff, Z.eqb_neq. rewrite Z.lor_eq_0_iff. tauto.
  - apply negb_true_iff, Z.eqb_neq. rewrite Z.lor_eq_0_iff. tauto.
  - apply negb_true_iff, Z.eqb_neq. rewrite Z.lor_eq_0_iff. tauto.
Qed.

(** X3: writeProgramElement writes nothing for a section, for an empty
    declaration and for a declaration whose first variable carries the in
    flag or the uniform flag or is a builtin, whatever the variables after the
    first are; the generator is left as it was. *)
Theorem X3_writeProgramElement_skips (g : CPPCodeGenerator) :
  (forall s, writeProgramElement (SectionElement s) g = Ok tt g) /\
  (forall decls, fVars decls = [] -> writeProgramElement (VarElement decls) g = Ok tt g) /\
  (forall decls first rest,
      fVars decls = first :: rest ->
      Z.land (Variable_.flags (vd_fVar first)) Modifiers.kIn_Flag <> 0 \/
      Z.land (Variable_.flags (vd_fVar first)) Modifiers.kUniform_Flag <> 0 \/
      Layout.fBuiltin (Variable_.layout (vd_fVar first)) <> -1 ->
      writeProgramElement (VarElement decls) g = Ok tt g).
Proof.
  split; [reflexivity | split].
  - intros decls E. unfold writeProgramElement. now rewrite E.
  - intros decls first rest E H. unfold writeProgramElement. rewrite E, has_lor.
    destruct H as [H | [H | H]].
    + apply has_true in H. rewrite H. reflexivity.
    + apply has_true in H. rewrite H, orb_true_r. reflexivity.
    + assert (Hb : (-1 =? Layout.fBuiltin (Variable_.layout (vd_fVar first))) = false)
        by (apply Z.eqb_neq; congruence).
      rewrite Hb, orb_true_r. reflexivity.
Qed.

Lemma X3_writeProgramElement_skips_witness :
  writeProgramElement (Samples.declaration Samples.in_float)
                      (Samples.fresh Samples.empty_program) =
  Ok tt (Samples.fresh Samples.empty_program).
Proof.
  destruct (X3_writeProgramElement_skips (Samples.fresh Samples.empty_program))
    as (_ & _ & H).
  unfold Samples.declaration.
  eapply H; [reflexivity|]. left. discriminate.
Defined.

(** *** The slots of the sampler parameters *)

Lemma same_refl p : Variable_.same p p = true.
Proof. apply N.eqb_refl. Qed.

Lemma sampler_slot_inj i j : sampler_slot i = sampler_slot j -> i = j.
Proof.
  unfold sampler_slot. intros E. apply append_inj_l in E.
  apply to_string_inj.
  eapply (append_lacks_inj "]"); [| | exact E].
  - unfold to_string. destruct (Z.to_int i) as [u|u]; cbn;
      induction u; cbn; auto.
  - unfold to_string. destruct (Z.to_int j) as [u|u]; cbn;
      induction u; cbn; auto.
Qed.

Lemma getSamplerHandle_loop_nth p params :
  NoDup (map Variable_.fAddr params) ->
  forall i n g,
    nth_error (filter is_sampler params) i = Some p ->
    getSamplerHandle_loop p n params g = Ok (sampler_slot (n + Z.of_nat i)) g.
Proof.
  induction params as [|x r IH]; intros Hnd i n g Hi.
  - destruct i; discriminate Hi.
  - cbn [map] in Hnd. apply NoDup_cons_iff in Hnd as [Hx Hr].
    cbn [getSamplerHandle_loop filter] in *.
    fold (is_sampler x) in *.
    destruct (Variable_.same p x) eqn:Es.
    + assert (Hnot : ~ In p r).
      { intros Hin. apply Hx. apply N.eqb_eq in Es. rewrite <- Es.
        now apply in_map. }
      destruct (is_sampler x).
      * destruct i as [|i].
        -- unfold sampler_slot. now rewrite Z.add_0_r.
        -- cbn in Hi. apply nth_error_In, filter_In in Hi as [Hin _]. tauto.
      * apply nth_error_In, filter_In in Hi as [Hin _]. tauto.
    + assert (Hne : x <> p) by (intros ->; rewrite same_refl in Es; discriminate).
      destruct (is_sampler x).
      * destruct i as [|i]; cbn in Hi; [congruence|].
        rewrite (IH Hr i (n + 1) g Hi). do 2 f_equal. lia.
      * apply (IH Hr i n g Hi).
Qed.

(** X4: when the parameters are distinct objects, the i-th sampler-typed
    parameter (counting from 0) gets the sampler slot i, so two different
    sampler parameters never share a slot; the lookup leaves the generator
    as it was. *)
Theorem X4_sampler_slots (g : CPPCodeGenerator) (i j : nat) (p q : Variable_.t) :
  let params := SectionAndParameterHelper.getParameters (fSectionAndParameterHelper g) in
  NoDup (map Variable_.fAddr params) ->
  nth_error (filter is_sampler params) i = Some p ->
  nth_error (filter is_sampler params) j = Some q ->
  getSamplerHandle p g = Ok (sampler_slot (Z.of_nat i)) g /\
  getSamplerHandle q g = Ok (sampler_slot (Z.of_nat j)) g /\
  (i <> j -> sampler_slot (Z.of_nat i) <> sampler_slot (Z.of_nat j)).
Proof.
  cbn zeta. intros Hnd Hi Hj. unfold getSamplerHandle, bind, gets.
  rewrite (getSamplerHandle_loop_nth p _ Hnd i 0 g Hi).
  rewrite (getSamplerHandle_loop_nth q _ Hnd j 0 g Hj).
  repeat split. intros Hne E. apply sampler_slot_inj in E. lia.
Qed.

(** *** Key contributions: identity keys and fatal keys *)

(** X9: with key mode identity, a parameter that carries no uniform flag and
    is not of the color-space-transform type gets the one contribution
    "isIdentity() ? 1 : 0"; when its type is no matrix the error
    "layout(key=identity) requires matrix type" is reported as well, at its
    offset, and the contribution is written all the same. *)
Theorem X9_identity_key (param : Variable_.t) (g : CPPCodeGenerator) :
  let field := HCodeGenerator.FieldName (Variable_.fName param) in
  let written := set_fOut (fOut g +++ add32 (field +++ ".isIdentity() ? 1 : 0")) g in
  Type_.eqb (Variable_.fType param) Context.fColorSpaceXform_Type = false ->
  Modifiers.has (Variable_.flags param) Modifiers.kUniform_Flag = false ->
  Layout.fKey (Variable_.layout param) = Layout.kIdentity_Key ->
  (Type_.kind (Variable_.fType param) = Type_.kMatrix_Kind ->
     writeGetKey_param param g = Ok tt written) /\
  (Type_.kind (Variable_.fType param) <> Type_.kMatrix_Kind ->
     writeGetKey_param param g =
     Ok tt (set_fErrors
              (fErrors g ++ [(Variable_.fOffset param,
                              "layout(key=identity) requires matrix type")])
              written)).
Proof.
  cbn zeta. intros Hx Hu Hk. unfold writeGetKey_param, add32.
  rewrite Hx, Hu, Hk. split.
  - intros ->. run. norm_state. reflexivity.
  - intros Hm.
    assert (E : Type_.Kind_eqb (Type_.kind (Variable_.fType param)) Type_.kMatrix_Kind
                = false)
      by (destruct (Type_.kind (Variable_.fType param)); try reflexivity; congruence).
    rewrite E. run. norm_state. reflexivity.
Qed.

Lemma writeGetKey_param_aborted param g :
  aborted (writeGetKey_param param g) = fatal_key param.
Proof.
  unfold writeGetKey_param, fatal_key.
  destruct (Type_.eqb (Variable_.fType param) Context.fColorSpaceXform_Type);
    [reflexivity|].
  cbn [negb andb].
  unfold when.
  destruct (Layout.fKey (Variable_.layout param)); cbn [andb];
    destruct (Modifiers.has (Variable_.flags param) Modifiers.kUniform_Flag);
    try reflexivity.
  - destruct (Type_.eqb (Variable_.fType param) Context.fFloat4x4_Type);
      [reflexivity|].
    destruct (Type_.eqb (Variable_.fType param) Context.fFloat2_Type);
      [reflexivity|].
    destruct (Type_.eqb (Variable_.fType param) Context.fFloat4_Type); reflexivity.
  - destruct (Type_.eqb (Variable_.fType param) Context.fFloat4x4_Type);
      [reflexivity|].
    destruct (Type_.eqb (Variable_.fType param) Context.fFloat2_Type);
      [reflexivity|].
    destruct (Type_.eqb (Variable_.fType param) Context.fFloat4_Type); reflexivity.
  - destruct (negb _); reflexivity.
  - destruct (negb _); reflexivity.
Qed.

Lemma forM_aborted {A} (f : A -> Gen unit) (fatal : A -> bool) l g :
  (forall x g, aborted (f x g) = fatal x) ->
  aborted (forM_ f l g) = existsb fatal l.
Proof.
  intros H. revert g. induction l as [|x l IH]; intros g; cbn [forM_ existsb].
  - reflexivity.
  - unfold bind. rewrite <- (H x g).
    destruct (f x g) as [[] g1|msg g1]; cbn; [apply IH | reflexivity].
Qed.

(** X13: the key builder ends the run exactly when some parameter that is not
    of the color-space-transform type has key mode raw and the type float4x4;
    for every other parameter list it returns. *)
Theorem X13_writeGetKey_aborts (g : CPPCodeGenerator) :
  aborted (writeGetKey g) =
  existsb fatal_key
          (SectionAndParameterHelper.getParameters (fSectionAndParameterHelper g)).
Proof.
  unfold writeGetKey, bind, gets, writef, write, modify. cbn.
  match goal with
  | |- aborted (match ?m with _ => _ end) = _ =>
      rewrite <- (forM_aborted writeGetKey_param fatal_key _
                    (set_fOut (fOut g +++ ("void " +++ fFullName g +++
                       "::onGetGLSLProcessorKey(const GrShaderCaps& caps, " +++
                       "GrProcessorKeyBuilder* b) const {" +++ nl)) g)
                    writeGetKey_param_aborted);
      destruct m; reflexivity
  end.
Qed.

(** *** Every color-space-transform uniform after the first *)

Lemma writeEmitCode_uniforms_errors l :
  forallb (fun u => is_xform u || plain_uniform u) l = true ->
  forall g, exists g',
    forM_ writeEmitCode_uniform l g = Ok tt g' /\
    fErrors g' =
      fErrors g ++
      map xform_error (if fNeedColorSpaceHelper g then filter is_xform l
                       else tl (filter is_xform l)) /\
    fNeedColorSpaceHelper g' = fNeedColorSpaceHelper g || existsb is_xform l.
Proof.
  induction l as [|u l IH]; intros H g.
  - exists g. cbn. rewrite orb_false_r. destruct (fNeedColorSpaceHelper g);
      cbn; now rewrite app_nil_r.
  - cbn [forallb] in H. apply andb_true_iff in H as [Hu Hl].
    cbn [forM_ filter existsb].
    destruct (is_xform u) eqn:Ex.
    + pose proof (writeEmitCode_uniform_xform u g Ex) as E.
      match type of E with _ = Ok tt ?s => set (g1 := s) in * end.
      destruct (IH Hl g1) as (g' & R & He & Hf).
      exists g'. rewrite (bind_Ok _ _ _ _ _ E). split; [exact R|].
      rewrite He, Hf. subst g1. cbn.
      destruct (fNeedColorSpaceHelper g); cbn; rewrite <- ?app_assoc; cbn;
        rewrite ?app_nil_r; auto.
    + cbn [orb] in Hu.
      destruct (writeEmitCode_uniform_plain u g Hu) as [text E].
      destruct (IH Hl (set_fOut (fOut g +++ text) g)) as (g' & R & He & Hf).
      exists g'. rewrite (bind_Ok _ _ _ _ _ E). auto.
Qed.

(** X14: in the loop of writeEmitCode over uniforms that are of the
    color-space-transform type or ordinary uniforms of supported types, on a
    generator whose helper flag is not set, every color-space-transform
    uniform but the first gets the error "only a single ColorSpaceXform is
    supported" at its offset, in the order of the uniforms, and nothing else
    is reported; the flag ends up set exactly when there was such a uniform. *)
Theorem X14_xform_uniform_errors (l : list Variable_.t) (g : CPPCodeGenerator) :
  forallb (fun u => is_xform u || plain_uniform u) l = true ->
  fNeedColorSpaceHelper g = false ->
  exists g',
    forM_ writeEmitCode_uniform l g = Ok tt g' /\
    fErrors g' = fErrors g ++ map xform_error (tl (filter is_xform l)) /\
    fNeedColorSpaceHelper g' = existsb is_xform l.
Proof.
  intros H Hf. destruct (writeEmitCode_uniforms_errors l H g) as (g' & R & He & Hn).
  rewrite Hf in He, Hn. exists g'. auto.
Qed.

Lemma X4_sampler_slots_witness :
  let g := Samples.fresh Fixtures.sampler_pair_program in
  getSamplerHandle Samples.in_sampler g = Ok "args.fTexSamplers[0]" g /\
  getSamplerHandle Fixtures.in_sampler_mask g = Ok "args.fTexSamplers[1]" g.
Proof.
  cbn zeta.
  destruct (X4_sampler_slots (Samples.fresh Fixtures.sampler_pair_program) 0 1
              Samples.in_sampler Fixtures.in_sampler_mask)
    as (H0 & H1 & _); [repeat constructor; cbn; intuition discriminate
                      | reflexivity | reflexivity |].
  split; [exact H0 | exact H1].
Defined.

Lemma X9_identity_key_witness :
  let g := Samples.fresh Samples.empty_program in
  fErrors (final (writeGetKey_param Fixtures.matrix_identity_key g)) = [] /\
  fErrors (final (writeGetKey_param Fixtures.float_identity_key g)) =
    [(43, "layout(key=identity) requires matrix type")] /\
  fOut (final (writeGetKey_param Fixtures.float_identity_key g)) =
    add32 "fWeight.isIdentity() ? 1 : 0".
Proof.
  cbn zeta.
  destruct (X9_identity_key Fixtures.matrix_identity_key
              (Samples.fresh Samples.empty_program) eq_refl eq_refl eq_refl)
    as (Hm & _).
  destruct (X9_identity_key Fixtures.float_identity_key
              (Samples.fresh Samples.empty_program) eq_refl eq_refl eq_refl)
    as (_ & Hf).
  rewrite (Hm eq_refl), (Hf ltac:(discriminate)).
  split; [reflexivity | split; reflexivity].
Defined.

Lemma X14_xform_uniform_errors_witness :
  exists g',
    forM_ writeEmitCode_uniform
          [Samples.xform_first; Samples.uniform_half4; Samples.xform_second;
           Fixtures.xform_third]
          (Samples.fresh Samples.empty_program) = Ok tt g' /\
    fErrors g' = [(90, "only a single ColorSpaceXform is supported");
                  (91, "only a single ColorSpaceXform is supported")] /\
    fNeedColorSpaceHelper g' = true.
Proof.
  destruct (X14_xform_uniform_errors
              [Samples.xform_first; Samples.uniform_half4; Samples.xform_second;
               Fixtures.xform_third]
              (Samples.fresh Samples.empty_program) eq_refl eq_refl)
    as (g' & R & He & Hf).
  exists g'. repeat apply conj; assumption.
Defined.

(** *** Invariants of the printer that do not depend on what is printed *)

Lemma preserves_pure {A} (I : CPPCodeGenerator -> Prop) (m : Gen A) :
  (forall g a g', m g = Ok a g' -> g' = g) -> preserves I m.
Proof. intros H g a g' Hg E. now apply H in E as ->. Qed.

Section Frame.
Variable I : CPPCodeGenerator -> Prop.
Hypothesis I_out : forall g s, I g -> I (set_fOut (fOut g +++ s) g).
Hypothesis I_errors : forall g e, I g -> I (set_fErrors e g).
Hypothesis I_args : forall g a, I g -> I (set_fFormatArgs a g).
Hypothesis I_extra : forall g s, I g -> I (set_fExtraEmitCodeCode s g).
Hypothesis I_written : forall g w, I g -> I (set_fWrittenTransformedCoords w g).
Hypothesis I_header :
  forall g s, I g -> I (set_fFunctionHeader (fFunctionHeader g +++ s) g).
Hypothesis I_count : forall g, I g -> I (set_fVarCount (fVarCount g + 1) g).

Ltac frame_leaf :=
  first [ apply preserves_ret | apply preserves_gets | apply preserves_ABORT
        | apply preserves_ASSERT
        | apply preserves_modify; intros ? Hg;
          first [ apply I_out | apply I_errors | apply I_args | apply I_extra
                | apply I_written | apply I_header | apply I_count ]; exact Hg
        | solve [eauto]
        | apply preserves_forSep; [ intros ?; apply preserves_modify; intros ? Hg;
                                    apply I_out; exact Hg | ]
        | apply preserves_forM_ ].

Ltac frame_auto :=
  lazymatch goal with
  | |- preserves _ (bind _ _) =>
      apply preserves_bind; [ frame_auto | intros ?; frame_auto ]
  | |- preserves _ (when _ _) => apply preserves_when; frame_auto
  | |- preserves _ (match ?x with _ => _ end) =>
      destruct x eqn:?; cbv beta iota; frame_auto
  | |- _ => frame_leaf
  end.

Lemma frame_write s : preserves I (write s).
Proof. unfold write. frame_auto. Qed.

Lemma frame_writeLine s : preserves I (writeLine s).
Proof. unfold writeLine, write. frame_auto. Qed.

Lemma frame_push s : preserves I (push_back_fFormatArgs s).
Proof. unfold push_back_fFormatArgs. frame_auto. Qed.

Lemma frame_error o msg : preserves I (error o msg).
Proof. unfold error. frame_auto. Qed.

Lemma frame_getSamplerHandle v : preserves I (getSamplerHandle v).
Proof.
  apply preserves_pure. intros g a g' E. unfold getSamplerHandle in E. cbn in E.
  now apply getSamplerHandle_loop_state in E.
Qed.

Lemma frame_default_value ty : preserves I (default_value ty).
Proof. unfold default_value. frame_auto. Qed.

#[local] Hint Resolve frame_write frame_writeLine frame_push frame_error
  frame_getSamplerHandle frame_default_value : core.

Lemma frame_writeRuntimeValue ty code : preserves I (writeRuntimeValue ty code).
Proof. unfold writeRuntimeValue. frame_auto. Qed.
#[local] Hint Resolve frame_writeRuntimeValue : core.

Lemma frame_writeVariableReference v : preserves I (writeVariableReference v).
Proof. unfold writeVariableReference. frame_auto. Qed.

Lemma frame_writeSetting n ty : preserves I (writeSetting n ty).
Proof. unfold writeSetting. frame_auto. Qed.

Lemma frame_writeIntLiteral v : preserves I (writeIntLiteral v).
Proof. unfold writeIntLiteral. frame_auto. Qed.
#[local] Hint Resolve frame_writeVariableReference frame_writeSetting
  frame_writeIntLiteral : core.

Lemma Forall_frame (args : list Expression) prec :
  Forall (fun e => forall p, preserves I (writeExpression e p)) args ->
  Forall (fun e => preserves I (writeExpression e prec)) args.
Proof. induction 1; constructor; auto. Qed.

Lemma frame_writeExpression e : forall prec, preserves I (writeExpression e prec).
Proof.
  induction e using Expression_induction; cbn [writeExpression]; intros prec.
  - frame_auto.
  - frame_auto.
  - frame_auto.
  - unfold writeBinaryExpression, INHERITED_writeBinaryExpression. frame_auto.
  - unfold writeIndexExpression, INHERITED_writeIndexExpression. frame_auto.
  - unfold writeFunctionCall, INHERITED_writeFunctionCall.
    pose proof (Forall_frame args Precedence.kSequence H) as Hseq.
    destruct (fd_fBuiltin f && (fd_fName f =? "COLORSPACE")%string).
    + destruct args as [|arg0 [|arg1 rest]]; try solve [frame_auto].
      inversion H as [|? ? Harg0 _]; subst. frame_auto.
    + frame_auto. exact Hseq.
  - unfold writeConstructor. frame_auto. now apply Forall_frame.
  - unfold writeSwizzle. frame_auto. apply Forall_wrap. intros c. frame_auto.
  - unfold writeTernaryExpression. frame_auto.
  - frame_auto.
Qed.
#[local] Hint Resolve frame_writeExpression : core.

Lemma frame_writeVarDeclarations d global :
  preserves I (writeVarDeclarations d global).
Proof.
  unfold writeVarDeclarations. generalize false as wrote.
  induction (fVars d) as [|var vars IH]; intros wrote;
    cbn [writeVarDeclarations_loop].
  - frame_auto.
  - specialize (IH true). unfold writeVarInitializer. frame_auto.
Qed.
#[local] Hint Resolve frame_writeVarDeclarations : core.

Lemma Forall_frame_statements (stmts : list Statement) :
  Forall (fun s => preserves I (writeStatement s)) stmts ->
  Forall (fun s => preserves I (writeStatement s ;; writeLine "")) stmts.
Proof. induction 1; constructor; [frame_auto | assumption]. Qed.

Lemma frame_writeStatement s : preserves I (writeStatement s).
Proof.
  induction s using Statement_induction; cbn [writeStatement].
  - unfold writeBlock. frame_auto. now apply Forall_frame_statements.
  - frame_auto.
  - frame_auto.
  - unfold writeIfStatement, INHERITED_writeIfStatement.
    destruct b as [b|]; cbn [P_option] in *; frame_auto.
  - unfold writeSwitchStatement, INHERITED_writeSwitchStatement. frame_auto.
    induction H as [|c cases Hc _ IH]; constructor; [|exact IH].
    destruct c as [cv stmts]. cbn [P_case] in Hc.
    pose proof (Forall_frame_statements _ Hc). frame_auto; assumption.
  - frame_auto.
  - frame_auto.
  - frame_auto.
  - frame_auto.
Qed.
#[local] Hint Resolve frame_writeStatement : core.

(** The methods that print into a buffer and reset the function header need
    the invariant to survive the swap of the output and the reset. *)
Hypothesis I_out_swap : forall g s, I g -> I (set_fOut s g).
Hypothesis I_header_reset : forall g, I g -> I (set_fFunctionHeader "" g).

Lemma frame_writeFunction d body : preserves I (writeFunction d body).
Proof.
  assert (Hbody : Forall (fun s => preserves I (writeStatement s ;; writeLine "")) body).
  { apply Forall_frame_statements, Forall_wrap, frame_writeStatement. }
  assert (Hreset : preserves I (modify (set_fFunctionHeader "")))
    by (apply preserves_modify; intros g Hg; now apply I_header_reset).
  assert (Hclear : preserves I (modify (set_fOut "")))
    by (apply preserves_modify; intros g Hg; now apply I_out_swap).
  assert (Hrestore : forall o, preserves I (modify (set_fOut o)))
    by (intros o; apply preserves_modify; intros g Hg; now apply I_out_swap).
  unfold writeFunction, INHERITED_writeFunction, buffered. frame_auto;
    try exact Hbody.
  apply Forall_wrap. intros param. frame_auto.
Qed.

Lemma frame_writeProgramElement p : preserves I (writeProgramElement p).
Proof.
  pose proof frame_writeFunction.
  unfold writeProgramElement, INHERITED_writeProgramElement. frame_auto.
Qed.

Lemma frame_writeEmitCode_mainBuffer : preserves I writeEmitCode_mainBuffer.
Proof.
  assert (Hclear : preserves I (modify (set_fOut "")))
    by (apply preserves_modify; intros g Hg; now apply I_out_swap).
  assert (Hrestore : forall o, preserves I (modify (set_fOut o)))
    by (intros o; apply preserves_modify; intros g Hg; now apply I_out_swap).
  unfold writeEmitCode_mainBuffer, INHERITED_generateCode. frame_auto.
  apply Forall_wrap, frame_writeProgramElement.
Qed.
End Frame.

(** *** The counter of temporaries *)

Lemma counter_from_start g : counter_from (fVarCount g) (fFunctionHeader g) g.
Proof. split; [lia | exists ""; now rewrite append_nil_r]. Qed.

Lemma counter_from_expression n h e prec :
  preserves (counter_from n h) (writeExpression e prec).
Proof.
  apply frame_writeExpression; unfold counter_from; cbn; intros; try assumption.
  - destruct H as [Hn [more Hm]]. split; [exact Hn|].
    exists (more +++ s). now rewrite Hm, append_assoc.
  - destruct H as [Hn Hm]. split; [lia | exact Hm].
Qed.

Lemma counter_from_statement n h s :
  preserves (counter_from n h) (writeStatement s).
Proof.
  apply frame_writeStatement; unfold counter_from; cbn; intros; try assumption.
  - destruct H as [Hn [more Hm]]. split; [exact Hn|].
    exists (more +++ s0). now rewrite Hm, append_assoc.
  - destruct H as [Hn Hm]. split; [lia | exact Hm].
Qed.

Lemma tmpVar_declaration_inj n m :
  tmpVar_declaration n = tmpVar_declaration m -> n = m.
Proof.
  unfold tmpVar_declaration. rewrite !append_assoc. intros E.
  apply append_inj_l in E. apply append_inj_l in E.
  apply to_string_inj.
  eapply (append_lacks_inj ";"); [| | exact E].
  - unfold to_string. destruct (Z.to_int n) as [u|u]; cbn; induction u; cbn; auto.
  - unfold to_string. destruct (Z.to_int m) as [u|u]; cbn; induction u; cbn; auto.
Qed.

(** X5: printing an expression or a statement never lowers the counter of
    temporaries and only appends to the function header; a call of the
    builtin COLORSPACE raises the counter and appends the declaration of the
    temporary numbered by the raised counter, so that the temporaries of one
    function get different names. *)
Theorem X5_temporaries :
  (forall e prec g g',
      writeExpression e prec g = Ok tt g' ->
      fVarCount g <= fVarCount g' /\
      exists more, fFunctionHeader g' = fFunctionHeader g +++ more) /\
  (forall s g g',
      writeStatement s g = Ok tt g' ->
      fVarCount g <= fVarCount g' /\
      exists more, fFunctionHeader g' = fFunctionHeader g +++ more) /\
  (forall o f args prec g g',
      fd_fBuiltin f = true -> fd_fName f = "COLORSPACE" ->
      writeExpression (FunctionCall o f args) prec g = Ok tt g' ->
      fVarCount g + 1 <= fVarCount g' /\
      exists more,
        fFunctionHeader g' =
        fFunctionHeader g +++ tmpVar_declaration (fVarCount g + 1) +++ more) /\
  (forall n m, tmpVar_declaration n = tmpVar_declaration m -> n = m).
Proof.
  split; [|split; [|split]].
  - intros e prec g g' E.
    apply (counter_from_expression _ _ e prec g tt g' (counter_from_start g) E).
  - intros s g g' E.
    apply (counter_from_statement _ _ s g tt g' (counter_from_start g) E).
  - intros o f args prec g g' Hb Hn E.
    cbn [writeExpression] in E. unfold writeFunctionCall in E.
    rewrite Hb, Hn in E. cbn [andb String.eqb] in E.
    change (("COLORSPACE" =? "COLORSPACE")%string) with true in E.
    cbv beta iota in E.
    apply bind_inv in E as ([] & ? & E1 & E). inversion E1; subst; clear E1.
    apply bind_inv in E as (count & ? & E1 & E). inversion E1; subst; clear E1.
    apply bind_inv in E as ([] & ? & E1 & E). inversion E1; subst; clear E1.
    apply bind_inv in E as ([] & ? & E1 & E).
    destruct (Nat.eqb (List.length args) 2); [|discriminate E1].
    inversion E1; subst; clear E1.
    apply bind_inv in E as ([] & ? & E1 & E). inversion E1; subst; clear E1.
    apply bind_inv in E as ([] & ? & E1 & E). inversion E1; subst; clear E1.
    destruct args as [|arg0 [|arg1 rest]]; try discriminate E.
    apply bind_inv in E as ([] & gA & EA & E).
    apply bind_inv in E as ([] & ? & E2 & E).
    destruct arg1; try discriminate E2. inversion E2; subst; clear E2.
    apply bind_inv in E as ([] & ? & E3 & E). inversion E3; subst; clear E3.
    inversion E; subst; clear E.
    match type of EA with writeExpression _ _ ?s = Ok tt ?t =>
      destruct (counter_from_expression _ _ arg0 _ s tt t (counter_from_start s) EA)
        as [Hc [more Hh]]
    end.
    cbn in Hc, Hh |- *. split; [exact Hc|].
    exists more. rewrite Hh. unfold tmpVar_declaration. now rewrite !append_assoc.
  - apply tmpVar_declaration_inj.
Qed.

(** *** The helper flag and the assertion of writeSetData *)

Lemma appends_ret {A} (a : A) : appends (ret a).
Proof.
  intros g b g' E. inversion E; subst. exists "".
  now rewrite append_nil_r, set_fOut_same.
Qed.

Lemma appends_bind {A B} (m : Gen A) (k : A -> Gen B) :
  appends m -> (forall a, appends (k a)) -> appends (bind m k).
Proof.
  intros Hm Hk g b g' E. apply bind_inv in E as (a & g1 & E1 & E2).
  apply Hm in E1 as [t1 ->]. apply Hk in E2 as [t2 ->].
  exists (t1 +++ t2). norm_state. reflexivity.
Qed.

Lemma appends_gets {A} (f : CPPCodeGenerator -> A) : appends (gets f).
Proof.
  intros g b g' E. inversion E; subst. exists "".
  now rewrite append_nil_r, set_fOut_same.
Qed.

Lemma appends_write s : appends (write s).
Proof. intros g b g' E. inversion E; subst. now exists s. Qed.

Lemma appends_ABORT {A} msg : appends (@ABORT A msg).
Proof. intros g b g' E. discriminate E. Qed.

Lemma appends_ASSERT b : appends (ASSERT b).
Proof. destruct b; [apply appends_ret | apply appends_ABORT]. Qed.

Lemma appends_when b m : appends m -> appends (when b m).
Proof. destruct b; [auto | intros _; apply appends_ret]. Qed.

Lemma appends_forM_ {A} (f : A -> Gen unit) l :
  (forall x, appends (f x)) -> appends (forM_ f l).
Proof.
  intros H. induction l as [|x l IH]; cbn [forM_].
  - apply appends_ret.
  - apply appends_bind; [apply H | intros _; exact IH].
Qed.

Lemma appends_foldM {A S} (f : S -> A -> Gen S) acc l :
  (forall acc x, appends (f acc x)) -> appends (foldM f acc l).
Proof.
  intros H. revert acc. induction l as [|x l IH]; intros acc; cbn [foldM].
  - apply appends_ret.
  - apply appends_bind; [apply H | intros acc'; apply IH].
Qed.

Ltac appends_auto :=
  lazymatch goal with
  | |- appends (bind _ _) => apply appends_bind; [ appends_auto | intros ?; appends_auto ]
  | |- appends (when _ _) => apply appends_when; appends_auto
  | |- appends (forM_ _ _) => apply appends_forM_; intros ?; appends_auto
  | |- appends (foldM _ _ _) => apply appends_foldM; intros ? ?; appends_auto
  | |- appends (match ?x with _ => _ end) => destruct x eqn:?; cbv beta iota; appends_auto
  | |- _ =>
      first [ apply appends_ret | apply appends_write | apply appends_gets
            | apply appends_ABORT | apply appends_ASSERT | solve [auto] ]
  end.

Lemma appends_addUniform u : appends (addUniform u).
Proof. unfold addUniform, writef. appends_auto. Qed.

Lemma appends_writeSection name prefix : appends (writeSection name prefix).
Proof. unfold writeSection, writef. appends_auto. Qed.

Lemma addUniform_writes u g a g' :
  addUniform u g = Ok a g' -> exists text, g' = set_fOut (fOut g +++ text) g.
Proof. apply appends_addUniform. Qed.

Lemma writeEmitCode_uniforms_flag l g g' :
  forM_ writeEmitCode_uniform l g = Ok tt g' ->
  fNeedColorSpaceHelper g' = fNeedColorSpaceHelper g || existsb is_xform l.
Proof.
  revert g. induction l as [|u l IH]; intros g E; cbn [forM_ existsb] in *.
  - inversion E; subst. now rewrite orb_false_r.
  - apply bind_inv in E as ([] & g1 & E1 & E). apply IH in E. rewrite E.
    unfold writeEmitCode_uniform in E1.
    apply bind_inv in E1 as ([] & g0 & E0 & E1).
    apply addUniform_writes in E0 as [text ->].
    fold (is_xform u) in E1. destruct (is_xform u); cbn [when] in E1.
    + unfold bind, gets, when, error, modify, writef, write in E1. cbn in E1.
      destruct (fNeedColorSpaceHelper g); cbn in E1; inversion E1; subst; cbn;
        now rewrite ?orb_true_r.
    + inversion E1; subst. cbn. reflexivity.
Qed.

Lemma flag_set_writeEmitCode_mainBuffer : preserves flag_set writeEmitCode_mainBuffer.
Proof. apply frame_writeEmitCode_mainBuffer; unfold flag_set; cbn; auto. Qed.

Lemma writeEmitCode_flag uniforms g r g' :
  writeEmitCode uniforms g = Ok r g' ->
  existsb is_xform uniforms = true -> fNeedColorSpaceHelper g' = true.
Proof.
  intros E Hx. unfold writeEmitCode in E.
  apply bind_inv in E as ([] & g1 & E1 & E).
  apply bind_inv in E as (rb & g2 & E2 & E).
  apply bind_inv in E as ([] & g3 & E3 & E).
  inversion E; subst; clear E.
  rewrite writeEmitCode_codeAppendf_run in E3. inversion E3; subst; clear E3. cbn.
  apply (flag_set_writeEmitCode_mainBuffer g1 rb g2); [|exact E2].
  unfold writeEmitCode_setup in E1.
  apply bind_inv in E1 as ([] & ga & Ea & E1). inversion Ea; subst; clear Ea.
  apply bind_inv in E1 as (fullName & ga & Ea & E1). inversion Ea; subst; clear Ea.
  apply bind_inv in E1 as ([] & ga & Ea & E1). inversion Ea; subst; clear Ea.
  apply bind_inv in E1 as ([] & ga & Ea & E1).
  apply bind_inv in E1 as ([] & gb & Eb & E1).
  apply bind_inv in E1 as (wrote & gc & Ec & E1). inversion E1; subst; clear E1.
  apply writeEmitCode_uniforms_flag in Eb. rewrite Hx, orb_true_r in Eb.
  unfold writeSection in Ec. cbn in Ec.
  unfold flag_set.
  destruct (SectionAndParameterHelper.getSection _ _); cbn in Ec;
    inversion Ec; subst; cbn; exact Eb.
Qed.

Section Runs.
Variable P : CPPCodeGenerator -> Prop.
Hypothesis P_out : forall g s, P g -> P (set_fOut s g).

Lemma runs_ret {A} (a : A) : runs P (ret a).
Proof.
  intros g _. exists a, "". now rewrite append_nil_r, set_fOut_same.
Qed.

Lemma runs_bind {A B} (m : Gen A) (k : A -> Gen B) :
  runs P m -> (forall a, runs P (k a)) -> runs P (bind m k).
Proof.
  intros Hm Hk g Hg. destruct (Hm g Hg) as (a & t1 & E1).
  destruct (Hk a _ (P_out g (fOut g +++ t1) Hg)) as (b & t2 & E2).
  exists b, (t1 +++ t2). rewrite (bind_Ok _ _ _ _ _ E1), E2. norm_state. reflexivity.
Qed.

Lemma runs_gets {A} (f : CPPCodeGenerator -> A) : runs P (gets f).
Proof.
  intros g _. exists (f g), "". now rewrite append_nil_r, set_fOut_same.
Qed.

Lemma runs_write s : runs P (write s).
Proof. intros g _. now exists tt, s. Qed.

Lemma runs_when b m : runs P m -> runs P (when b m).
Proof. destruct b; [auto | intros _; apply runs_ret]. Qed.

Lemma runs_forM_ {A} (f : A -> Gen unit) l :
  Forall (fun x => runs P (f x)) l -> runs P (forM_ f l).
Proof.
  induction 1 as [|x l Hx _ IH]; cbn [forM_].
  - apply runs_ret.
  - apply runs_bind; [exact Hx | intros _; exact IH].
Qed.

Lemma runs_foldM {A S} (f : S -> A -> Gen S) acc l :
  Forall (fun x => forall acc, runs P (f acc x)) l -> runs P (foldM f acc l).
Proof.
  intros H. revert acc. induction H as [|x l Hx _ IH]; intros acc; cbn [foldM].
  - apply runs_ret.
  - apply runs_bind; [apply Hx | intros acc'; apply IH].
Qed.
End Runs.

Ltac runs_auto :=
  lazymatch goal with
  | |- runs _ (bind _ _) =>
      apply runs_bind; [ solve [auto] | runs_auto | intros ?; runs_auto ]
  | |- runs _ (when _ _) => apply runs_when; runs_auto
  | |- runs _ (match ?x with _ => _ end) => destruct x eqn:?; cbv beta iota; runs_auto
  | |- _ =>
      first [ apply runs_ret | apply runs_write | apply runs_gets | solve [auto] ]
  end.

Lemma flag_if_out needed g s : flag_if needed g -> flag_if needed (set_fOut s g).
Proof. auto. Qed.

Lemma runs_writeSetData_uniform needed fullName pdman wrote u :
  (is_xform u = true -> needed = true) ->
  runs (flag_if needed) (writeSetData_uniform fullName pdman wrote u).
Proof.
  intros Hu. pose proof (flag_if_out needed) as Ho.
  unfold writeSetData_uniform, writef.
  destruct (Modifiers.has (Variable_.flags u) Modifiers.kIn_Flag); [|apply runs_ret].
  apply runs_bind; [exact Ho | runs_auto | intros _].
  apply runs_bind; [exact Ho | | intros _; apply runs_ret].
  destruct (_ || _); [apply runs_write|].
  destruct (_ || _); [apply runs_write|].
  fold (is_xform u). destruct (is_xform u) eqn:Ex; [|apply runs_write].
  intros g Hg. specialize (Hg (Hu eq_refl)).
  unfold bind, gets, ASSERT. rewrite Hg. cbn.
  eexists tt, _. reflexivity.
Qed.

Lemma runs_writeSetData_decl needed fullName wrote decl :
  runs (flag_if needed) (writeSetData_decl fullName wrote decl).
Proof.
  pose proof (flag_if_out needed) as Ho.
  unfold writeSetData_decl, writef. runs_auto.
Qed.

Lemma runs_writeSection needed name prefix :
  runs (flag_if needed) (writeSection name prefix).
Proof.
  pose proof (flag_if_out needed) as Ho.
  unfold writeSection, writef. runs_auto.
Qed.

Lemma runs_writeSetData uniforms :
  runs (flag_if (existsb is_xform uniforms)) (writeSetData uniforms).
Proof.
  pose proof (flag_if_out (existsb is_xform uniforms)) as Ho.
  pose proof (runs_writeSetData_decl (existsb is_xform uniforms)) as Hd.
  pose proof (runs_writeSection (existsb is_xform uniforms)) as Hs.
  unfold writeSetData, writef.
  apply runs_bind; [exact Ho | apply runs_gets | intros fullName].
  apply runs_bind; [exact Ho | apply runs_gets | intros section].
  apply runs_bind; [exact Ho | apply runs_write | intros _].
  apply runs_bind; [exact Ho | | intros wrote].
  { apply runs_foldM; [exact Ho|]. apply Forall_forall. intros u Hin acc.
    apply runs_writeSetData_uniform. intros Hx.
    apply existsb_exists. now exists u. }
  apply runs_bind; [exact Ho | runs_auto | intros _].
  apply runs_bind; [exact Ho | | intros _; apply runs_write].
  destruct section; [|apply runs_ret].
  apply runs_bind; [exact Ho | apply runs_gets | intros decls].
  apply runs_bind; [exact Ho | | intros _].
  { apply runs_foldM; [exact Ho|]. apply Forall_forall. intros d _ acc. apply Hd. }
  apply runs_bind; [exact Ho | apply Hs | intros _; apply runs_ret].
Qed.

(** X6: once writeEmitCode has returned for a list of uniforms, writeSetData
    for the same uniforms returns as well: the assertion that the color-space
    helper is needed cannot fail, because the loop of writeEmitCode has set
    the flag for every color-space-transform uniform and printing the main
    body never clears it; writeSetData only writes to the output. *)
Theorem X6_writeSetData_after_writeEmitCode
        (uniforms : list Variable_.t) (g : CPPCodeGenerator) (r : bool)
        (g' : CPPCodeGenerator) :
  writeEmitCode uniforms g = Ok r g' ->
  exists text, writeSetData uniforms g' = Ok tt (set_fOut (fOut g' +++ text) g').
Proof.
  intros E.
  destruct (runs_writeSetData uniforms g') as ([] & text & R).
  - intros Hx. apply (writeEmitCode_flag uniforms g r g' E Hx).
  - now exists text.
Qed.

Lemma X6_writeSetData_after_writeEmitCode_witness :
  let us := [Samples.xform_first] in
  let g := Samples.fresh Samples.two_xforms_program in
  aborted (writeSetData us g) = true /\
  aborted (writeSetData us (final (writeEmitCode us g))) = false.
Proof.
  cbn zeta. split; [vm_compute; reflexivity|].
  assert (E : writeEmitCode [Samples.xform_first]
                (Samples.fresh Samples.two_xforms_program) =
              Ok true (final (writeEmitCode [Samples.xform_first]
                                (Samples.fresh Samples.two_xforms_program))))
    by (vm_compute; reflexivity).
  destruct (X6_writeSetData_after_writeEmitCode _ _ _ _ E) as [text R].
  rewrite R. reflexivity.
Defined.

(** *** The error reporter *)

Lemma prepend_errors_split g : g = prepend_errors (fErrors g) (set_fErrors [] g).
Proof. destruct g. unfold prepend_errors, set_fErrors. cbn. now rewrite app_nil_r. Qed.

Lemma generateCode_file_errors g :
  exists errs,
    fErrors (final (generateCode_file g)) = fErrors g ++ errs.
Proof.
  pose proof (indep_generateCode_file (fErrors g) (set_fErrors [] g)) as H.
  rewrite <- prepend_errors_split in H. rewrite H.
  destruct (generateCode_file (set_fErrors [] g)) as [r g1|msg g1]; cbn;
    eexists; reflexivity.
Qed.

(** X7: generateCode never takes an error out of the reporter: the errors it
    ends with are the errors it was handed followed by those it has reported;
    so it can only return true when the reporter was empty at the start and
    nothing was reported. *)
Theorem X7_generateCode_errors (g : CPPCodeGenerator) :
  (exists errs, fErrors (final (generateCode g)) = fErrors g ++ errs) /\
  (forall g', generateCode g = Ok true g' -> fErrors g = [] /\ fErrors g' = []).
Proof.
  destruct (generateCode_file_errors g) as [errs He].
  unfold generateCode, bind, gets, ret.
  destruct (generateCode_file g) as [r g1|msg g1]; cbn in *.
  - split; [now exists errs|].
    intros g' E. inversion E as [[Hr Hg]]. subst g'.
    apply andb_true_iff in Hr as [_ Hr].
    assert (Hn : fErrors g1 = []) by (destruct (fErrors g1); [reflexivity | discriminate]).
    split; [|exact Hn]. rewrite Hn in He. symmetry in He.
    now apply app_eq_nil in He.
  - split; [now exists errs | intros g' E; discriminate E].
Qed.

Lemma X7_generateCode_errors_witness :
  fErrors (final (generateCode (Samples.fresh Samples.coords_program))) = [] /\
  exists errs,
    fErrors (final (generateCode
                      (new_CPPCodeGenerator Samples.coords_program
                         [(1, "an error of an earlier run")] "Sample" ""))) =
    (1, "an error of an earlier run") :: errs.
Proof.
  assert (E : generateCode (Samples.fresh Samples.coords_program) =
              Ok true (final (generateCode (Samples.fresh Samples.coords_program))))
    by (vm_compute; reflexivity).
  destruct (X7_generateCode_errors (Samples.fresh Samples.coords_program)) as (_ & H).
  destruct (H _ E) as (_ & Hn).
  destruct (X7_generateCode_errors
              (new_CPPCodeGenerator Samples.coords_program
                 [(1, "an error of an earlier run")] "Sample" "")) as ([errs He] & _).
  split; [exact Hn | exists errs; exact He].
Defined.

Lemma X5_temporaries_witness :
  let g := Samples.fresh Samples.empty_program in
  let g' := final (writeExpression Fixtures.COLORSPACE_call Precedence.kTopLevel g) in
  fVarCount g + 1 <= fVarCount g' /\
  exists more,
    fFunctionHeader g' = fFunctionHeader g +++ tmpVar_declaration (fVarCount g + 1) +++ more.
Proof.
  cbn zeta. destruct X5_temporaries as (_ & _ & H & _).
  apply (H 70 Fixtures.COLORSPACE_declaration
           [VariableReference 71 Samples.uniform_half4;
            VariableReference 72 Samples.xform_first]
           Precedence.kTopLevel (Samples.fresh Samples.empty_program));
    reflexivity.
Defined.

(** *** The copy constructor *)

Lemma runs_writeClone_body (helper : SectionAndParameterHelper.t) fullName :
  runs always
    (writef (fullName +++ "::" +++ fullName +++ "(const " +++ fullName +++ "& src)" +++ nl +++
             ": INHERITED(k" +++ fullName +++ "_ClassID, src.optimizationFlags())") ;;
     forM_ (fun param =>
              let fieldName := HCodeGenerator.FieldName (Variable_.fName param) in
              writef (nl +++ ", " +++ fieldName +++ "(" +++ ("src." +++ fieldName) +++ ")"))
           (SectionAndParameterHelper.getParameters helper) ;;
     forM_ (fun s =>
              let fieldName := HCodeGenerator.FieldName (sec_fArgument s) in
              writef (nl +++ ", " +++ fieldName +++ "CoordTransform(src." +++ fieldName +++
                      "CoordTransform)"))
           (SectionAndParameterHelper.getSections helper COORD_TRANSFORM_SECTION) ;;
     writef (" {" +++ nl) ;;
     forM_ (fun param =>
              when (Type_.Kind_eqb (Type_.kind (Variable_.fType param)) Type_.kSampler_Kind)
                   (writef ("    this->addTextureSampler(&" +++
                            HCodeGenerator.FieldName (Variable_.fName param) +++ ");" +++ nl)))
           (SectionAndParameterHelper.getParameters helper) ;;
     forM_ (fun s =>
              let field := HCodeGenerator.FieldName (sec_fArgument s) in
              writef ("    this->addCoordTransform(&" +++ field +++ "CoordTransform);" +++ nl))
           (SectionAndParameterHelper.getSections helper COORD_TRANSFORM_SECTION) ;;
     write ("}" +++ nl) ;;
     writef ("std::unique_ptr<GrFragmentProcessor> " +++ fullName +++ "::clone() const {" +++ nl) ;;
     writef ("    return std::unique_ptr<GrFragmentProcessor>(new " +++ fullName +++
             "(*this));" +++ nl) ;;
     write ("}" +++ nl)).
Proof.
  assert (Ho : forall g s, always g -> always (set_fOut s g)) by (intros; exact I).
  unfold writef.
  repeat (apply runs_bind; [exact Ho | | intros _]);
    try apply runs_write;
    apply runs_forM_; try exact Ho;
    apply Forall_forall; intros x _; cbv zeta;
    try apply runs_when; try exact Ho; apply runs_write.
Qed.



(** *** The errors of the key builder *)

Lemma reported_nil g : reported [] "" g = g.
Proof. destruct g. unfold reported. norm_state. reflexivity. Qed.

Lemma reported_reported e1 t1 e2 t2 g :
  reported e2 t2 (reported e1 t1 g) = reported (e1 ++ e2) (t1 +++ t2) g.
Proof. destruct g. unfold reported. norm_state. reflexivity. Qed.

Lemma writeGetKey_param_reported param g :
  fatal_key param = false ->
  exists text,
    writeGetKey_param param g = Ok tt (reported (key_errors param) text g).
Proof.
  unfold fatal_key, writeGetKey_param, key_errors, reported.
  destruct (Type_.eqb (Variable_.fType param) Context.fColorSpaceXform_Type).
  - intros _. destruct g. run. norm_state. eexists; reflexivity.
  - cbn [negb andb].
    destruct (Layout.fKey (Variable_.layout param));
      destruct (Modifiers.has (Variable_.flags param) Modifiers.kUniform_Flag);
      cbn [andb]; intros Hf; try rewrite Hf;
      repeat match goal with
      | |- context [if Type_.eqb ?a ?b then _ else _] => destruct (Type_.eqb a b)
      | |- context [Type_.Kind_eqb ?a ?b] => destruct (Type_.Kind_eqb a b)
      end;
      try discriminate Hf;
      destruct g; run; norm_state;
      first [ eexists; reflexivity
            | exists ""; rewrite append_nil_r; reflexivity ].
Qed.

Lemma writeGetKey_params_reported params :
  existsb fatal_key params = false ->
  forall g, exists text,
    forM_ writeGetKey_param params g = Ok tt (reported (flat_map key_errors params) text g).
Proof.
  induction params as [|p r IH]; cbn [existsb forM_ flat_map]; intros Hf g.
  - exists "". now rewrite reported_nil.
  - apply orb_false_iff in Hf as [Hp Hr].
    destruct (writeGetKey_param_reported p g Hp) as (t1 & E1).
    destruct (IH Hr (reported (key_errors p) t1 g)) as (t2 & E2).
    exists (t1 +++ t2). rewrite (bind_Ok _ _ _ _ _ E1), E2.
    now rewrite reported_reported.
Qed.

(** X11: when no parameter asks for the raw key of a float4x4, writeGetKey
    returns, and besides writing it only reports errors: for every parameter
    that is no color-space transform, in the order of the parameters, the
    error of a key on a uniform and then the error of an identity key on a
    type that is no matrix. *)
Theorem X11_writeGetKey_errors (g : CPPCodeGenerator) :
  let params := SectionAndParameterHelper.getParameters (fSectionAndParameterHelper g) in
  existsb fatal_key params = false ->
  exists text,
    writeGetKey g =
    Ok tt (set_fErrors (fErrors g ++ flat_map key_errors params)
             (set_fOut (fOut g +++ text) g)).
Proof.
  cbn zeta. intros Hf. unfold writeGetKey.
  rewrite (bind_Ok (gets fFullName) _ g _ g eq_refl).
  rewrite (bind_Ok (writef _) _ g tt _ eq_refl).
  match goal with |- exists text, bind _ _ ?s = _ => set (g1 := s) end.
  rewrite (bind_Ok (gets _) _ g1
             (SectionAndParameterHelper.getParameters (fSectionAndParameterHelper g))
             g1 eq_refl).
  destruct (writeGetKey_params_reported _ Hf g1) as (text & E).
  rewrite (bind_Ok _ _ _ _ _ E).
  unfold write, modify, reported, g1. destruct g. norm_state.
  eexists; reflexivity.
Qed.

Lemma X11_writeGetKey_errors_witness :
  let g := Samples.fresh
             {| fElements := [Samples.declaration Samples.float_key_uniform;
                              Samples.declaration Fixtures.float_identity_key] |} in
  exists text,
    writeGetKey g =
    Ok tt (set_fErrors
             [(Variable_.fOffset Samples.float_key_uniform,
               "layout(key) may not be specified on uniforms");
              (43, "layout(key=identity) requires matrix type")]
             (set_fOut text g)).
Proof.
  cbn zeta.
  destruct (X11_writeGetKey_errors
              (Samples.fresh
                 {| fElements := [Samples.declaration Samples.float_key_uniform;
                                  Samples.declaration Fixtures.float_identity_key] |})
              eq_refl) as (text & E).
  exists text. exact E.
Defined.

(** *** Modulo expressions *)

Lemma extends_expression o e prec : preserves (extends o) (writeExpression e prec).
Proof.
  apply frame_writeExpression; unfold extends; cbn; intros; try assumption.
  destruct H as [t Ht]. exists (t +++ s). now rewrite Ht, append_assoc.
Qed.

Lemma writeExpression_appends e prec g g' :
  writeExpression e prec g = Ok tt g' -> exists text, fOut g' = fOut g +++ text.
Proof.
  intros E. apply (extends_expression (fOut g) e prec g tt g'); [|exact E].
  exists "". now rewrite append_nil_r.
Qed.

Lemma when_write b s g :
  when b (write s) g = Ok tt (set_fOut (fOut g +++ (if b then s else "")) g).
Proof.
  destruct b; [reflexivity|]. now rewrite append_nil_r, set_fOut_same.
Qed.

Lemma modulo_prints o l r parent g g' :
  writeExpression (BinaryExpression o l Token.PERCENT r) parent g = Ok tt g' ->
  exists tl tr gl gr,
    prints l Precedence.kMultiplicative (set_fOut (fOut g +++ opening parent) g) tl gl /\
    prints r Precedence.kMultiplicative (set_fOut (fOut gl +++ " %% ") gl) tr gr /\
    g' = set_fOut (fOut gr +++ closing parent) gr /\
    fOut g' = fOut g +++ opening parent +++ tl +++ " %% " +++ tr +++ closing parent.
Proof.
  cbn [writeExpression]. unfold writeBinaryExpression. cbn [Token_is_PERCENT].
  cbv zeta. cbn [GetBinaryPrecedence]. intros E.
  apply bind_inv in E as ([] & g0 & E0 & E). rewrite when_write in E0.
  inversion E0 as [Eg0]; clear E0.
  apply bind_inv in E as ([] & gl & El & E).
  apply bind_inv in E as ([] & g1 & E1 & E). inversion E1 as [Eg1]; clear E1.
  apply bind_inv in E as ([] & gr & Er & E). rewrite when_write in E.
  inversion E as [Eg']; clear E.
  destruct (writeExpression_appends _ _ _ _ El) as [tl Htl].
  destruct (writeExpression_appends _ _ _ _ Er) as [tr Htr].
  exists tl, tr, gl, gr. fold (opening parent) in *. fold (closing parent) in *.
  subst g0 g1. cbn [fOut set_fOut] in Htl.
  split; [split; [exact El | exact Htl] |].
  split; [split; [exact Er | exact Htr] |].
  split; [reflexivity|].
  cbn in Htr |- *. rewrite Htr. cbn. rewrite Htl. now rewrite !append_assoc.
Qed.

Lemma modulo_operand_bracketed e g text g' :
  is_modulo e = true ->
  prints e Precedence.kMultiplicative g text g' ->
  exists inner, text = "(" +++ inner +++ ")".
Proof.
  destruct e as [| | |o l op r| | | | | |]; try discriminate.
  destruct op; try discriminate. intros _ [E Ht].
  apply modulo_prints in E as (tl & tr & gl & gr & _ & _ & _ & Ho).
  rewrite Ht in Ho. apply append_inj_l in Ho.
  exists (tl +++ " %% " +++ tr). rewrite Ho. unfold opening, closing.
  change (Precedence.kMultiplicative >=? Precedence.kMultiplicative) with true.
  cbv iota. now rewrite !append_assoc.
Qed.

(** X10: printing an expression only appends to the output.  A modulo is
    printed as its left operand, the doubled percent sign between blanks
    and its right operand, both operands at the multiplicative precedence,
    within parentheses exactly when the multiplicative precedence is not
    below that of the parent; so an operand that is itself a modulo is
    always printed within parentheses. *)
Theorem X10_modulo :
  (forall e prec g g',
      writeExpression e prec g = Ok tt g' -> exists text, fOut g' = fOut g +++ text) /\
  (forall o l r parent g g',
      writeExpression (BinaryExpression o l Token.PERCENT r) parent g = Ok tt g' ->
      exists tl tr gl gr,
        prints l Precedence.kMultiplicative
               (set_fOut (fOut g +++ opening parent) g) tl gl /\
        prints r Precedence.kMultiplicative
               (set_fOut (fOut gl +++ " %% ") gl) tr gr /\
        fOut g' =
          fOut g +++ opening parent +++ tl +++ " %% " +++ tr +++ closing parent /\
        (is_modulo l = true -> exists inner, tl = "(" +++ inner +++ ")") /\
        (is_modulo r = true -> exists inner, tr = "(" +++ inner +++ ")")).
Proof.
  split; [exact writeExpression_appends|].
  intros o l r parent g g' E.
  apply modulo_prints in E as (tl & tr & gl & gr & Hl & Hr & _ & Ho).
  exists tl, tr, gl, gr.
  split; [exact Hl|]. split; [exact Hr|]. split; [exact Ho|].
  split; intros Hm.
  - exact (modulo_operand_bracketed _ _ _ _ Hm Hl).
  - exact (modulo_operand_bracketed _ _ _ _ Hm Hr).
Qed.

Lemma X10_modulo_witness :
  let g := Samples.fresh Samples.empty_program in
  exists inner tr,
    fOut (final (writeExpression Fixtures.modulo_chain Precedence.kTopLevel g)) =
    "(" +++ inner +++ ") %% " +++ tr.
Proof.
  cbn zeta.
  destruct X10_modulo as (_ & H).
  destruct (H 1 (BinaryExpression 2 (IntLiteral 3 7) Token.PERCENT (IntLiteral 4 5))
              (IntLiteral 5 2) Precedence.kTopLevel
              (Samples.fresh Samples.empty_program)
              (final (writeExpression Fixtures.modulo_chain Precedence.kTopLevel
                        (Samples.fresh Samples.empty_program)))
              eq_refl)
    as (tl & tr & gl & gr & _ & _ & Ho & Hl & _).
  destruct (Hl eq_refl) as (inner & Hi).
  exists inner, tr. rewrite Ho, Hi.
  change (opening Precedence.kTopLevel) with "".
  change (closing Precedence.kTopLevel) with "".
  change (fOut (Samples.fresh Samples.empty_program)) with "".
  rewrite append_nil_r, !append_assoc. reflexivity.
Defined.

(** *** The uniforms on which writeEmitCode ends the run *)

Lemma existsb_never {A} (l : list A) : existsb (fun _ => false) l = false.
Proof. induction l; auto. Qed.

Lemma aborted_bind {A B} (m : Gen A) (k : A -> Gen B) g :
  (forall a g1, aborted (k a g1) = false) ->
  aborted (bind m k g) = aborted (m g).
Proof. intros Hk. unfold bind. destruct (m g); [apply Hk | reflexivity]. Qed.

Lemma needs_uniform_var_not_xform u :
  needs_uniform_var u = true -> is_xform u = false.
Proof.
  unfold needs_uniform_var, is_xform, Type_.eqb. intros H.
  apply andb_true_iff in H as [_ H]. apply negb_true_iff in H. exact H.
Qed.

Lemma addUniform_aborted u g : aborted (addUniform u g) = unsupported_uniform u.
Proof.
  unfold addUniform, unsupported_uniform, supported_uniform_type.
  cbn [existsb].
  destruct (needs_uniform_var u) eqn:En; cbn [negb andb]; [|reflexivity].
  apply needs_uniform_var_not_xform in En. unfold is_xform in En. rewrite En.
  rewrite !orb_false_r.
  repeat match goal with
  | |- context [if Type_.eqb ?a ?b then _ else _] =>
      destruct (Type_.eqb a b); cbn [orb negb]
  end;
  unfold bind, ret, ABORT, when, writef, write, modify;
  try match goal with |- context [negb (?a =? ?b)%string] =>
        destruct (negb (a =? b)%string) end;
  reflexivity.
Qed.

Lemma writeEmitCode_uniform_aborted u g :
  aborted (writeEmitCode_uniform u g) = unsupported_uniform u.
Proof.
  unfold writeEmitCode_uniform. rewrite aborted_bind; [apply addUniform_aborted|].
  intros [] g1. unfold when, bind, gets, error, modify, writef, write, ret.
  destruct (Type_.eqb _ _); [|reflexivity].
  destruct (fNeedColorSpaceHelper g1); reflexivity.
Qed.

Lemma writePrivateVarValues_returns g :
  exists g', writePrivateVarValues g = Ok tt g'.
Proof.
  unfold writePrivateVarValues.
  rewrite (bind_Ok (gets _) _ g _ g eq_refl).
  generalize (program_declarations (fProgram g)) as l. intros l.
  generalize g as h. clear g.
  induction l as [|d l IH]; intros h; cbn [forM_].
  - now exists h.
  - assert (E : exists h1,
               match vd_fValue d with
               | Some value =>
                   when (is_private (vd_fVar d))
                        (writef (Variable_.fName (vd_fVar d) +++ " = " +++
                                 description value +++ ";" +++ nl))
               | None => ret tt
               end h = Ok tt h1).
    { destruct (vd_fValue d); [destruct (is_private (vd_fVar d))|]; eexists; reflexivity. }
    destruct E as [h1 E]. rewrite (bind_Ok _ _ _ _ _ E). apply IH.
Qed.

(** X12: the loop of writeEmitCode over the uniforms, and with it the part of
    writeEmitCode before the main body, ends the run exactly when some
    uniform is eligible for registration and has a type outside the supported
    ones; the entry of the type table of addUniform for the
    color-space-transform type is never reached, such a uniform gets no
    registration. *)
Theorem X12_unsupported_uniform :
  (forall l g,
      aborted (forM_ writeEmitCode_uniform l g) = existsb unsupported_uniform l) /\
  (forall uniforms g,
      aborted (writeEmitCode_setup uniforms g) = existsb unsupported_uniform uniforms) /\
  (forall u g, is_xform u = true -> addUniform u g = Ok tt g).
Proof.
  split; [|split].
  - intros l g. apply forM_aborted. apply writeEmitCode_uniform_aborted.
  - intros uniforms g. unfold writeEmitCode_setup.
    rewrite (bind_Ok (write _) _ g tt _ eq_refl).
    match goal with |- aborted (bind _ _ ?s) = _ => set (g1 := s) end.
    rewrite (bind_Ok (gets fFullName) _ g1 _ g1 eq_refl).
    rewrite (bind_Ok (writef _) _ g1 tt _ eq_refl).
    match goal with |- aborted (bind _ _ ?s) = _ => set (g2 := s) end.
    destruct (writePrivateVarValues_returns g2) as [g3 E3].
    rewrite (bind_Ok _ _ _ _ _ E3).
    rewrite aborted_bind.
    + apply forM_aborted. apply writeEmitCode_uniform_aborted.
    + intros [] g4. unfold writeSection, bind, gets, writef, write, modify, ret.
      destruct (SectionAndParameterHelper.getSection _ _); reflexivity.
  - intros u g Hx. unfold addUniform.
    destruct (needs_uniform_var u) eqn:En; [|reflexivity].
    apply needs_uniform_var_not_xform in En. congruence.
Qed.

Lemma X12_unsupported_uniform_witness :
  addUniform Samples.xform_first (Samples.fresh Samples.empty_program) =
  Ok tt (Samples.fresh Samples.empty_program).
Proof.
  destruct X12_unsupported_uniform as (_ & _ & H). apply H. reflexivity.
Defined.
